(** * Car-market loader: cleaning and loading pipeline of [scripts/data_insertion.py]

    A shallow embedding of the script: the scalar normalizer [to_py], the
    six table cleaners, the row materializer [rows_as_tuples], the batch
    loader [insert_batches] and the orchestrator [main].

    pandas and psycopg2 are libraries the script calls.  The pandas
    primitives the script uses are modelled on typed columns, one
    constructor per dtype, with the behaviour of pandas 2.x; the reader of
    numeric literals and the printer of floats are taken as parameters.
    The database and the file system are an environment ([world]) that
    answers each call, with the history of the run in hand. *)

From Stdlib Require Import ZArith List String Ascii Bool Lia.
From Stdlib Require Import DecimalString.
From Corelib Require Import SpecFloat.
Import ListNotations.

Local Open Scope string_scope.
Local Open Scope list_scope.
Local Open Scope Z_scope.

(* ================================================================== *)
(** * Exceptions and fallible computations *)
(* ================================================================== *)

(** The classes of error the script and its libraries raise.  All of them
    derive from Python's [Exception], which is what the three
    [except Exception] clauses of the script catch. *)
Inductive exn_class :=
| RuntimeError
| FileNotFoundError
| ValueError
| KeyError
| TypeError
| OverflowError
| DatabaseError.      (* psycopg2.Error and its subclasses *)

Record exn := mk_exn { exn_cls : exn_class; exn_msg : string }.

Inductive result (A : Type) :=
| Ok (a : A)
| Raise (e : exn).
Arguments Ok {A} a.
Arguments Raise {A} e.

Definition rbind {A B} (r : result A) (k : A -> result B) : result B :=
  match r with
  | Ok a => k a
  | Raise e => Raise e
  end.

Declare Scope result_scope.
Delimit Scope result_scope with result.
Notation "'let!' x ':=' r 'in' k" := (rbind r (fun x => k))
  (at level 10, x name, r at level 100, k at level 200) : result_scope.

Definition is_ok {A} (r : result A) : bool :=
  match r with Ok _ => true | Raise _ => false end.

Fixpoint mapM {A B} (f : A -> result B) (l : list A) : result (list B) :=
  match l with
  | [] => Ok []
  | x :: t =>
      match f x with
      | Raise e => Raise e
      | Ok y => match mapM f t with
                | Raise e => Raise e
                | Ok ys => Ok (y :: ys)
                end
      end
  end.

(* ================================================================== *)
(** * Python text: [str.strip] and [str.lower] *)
(* ================================================================== *)

(** Text is a string of code points below 256 (Latin-1), which is what
    [ascii] holds.  [str.strip()] removes the characters for which
    [str.isspace] holds: there, TAB, LF, VT, FF, CR, the separators
    0x1C..0x1F, the space, NEL (0x85) and the no-break space (0xA0). *)
Definition is_space (c : ascii) : bool :=
  let n := nat_of_ascii c in
  ((9 <=? n) && (n <=? 13) || (28 <=? n) && (n <=? 32)
   || (n =? 133) || (n =? 160))%nat.

Fixpoint lstrip (s : string) : string :=
  match s with
  | EmptyString => EmptyString
  | String c t => if is_space c then lstrip t else s
  end.

Fixpoint rstrip (s : string) : string :=
  match s with
  | EmptyString => EmptyString
  | String c t =>
      match rstrip t with
      | EmptyString => if is_space c then EmptyString else String c EmptyString
      | t' => String c t'
      end
  end.

Definition strip (s : string) : string := rstrip (lstrip s).

(** [str.lower()] on one character: A..Z, and the capital letters of
    Latin-1 (0xC0..0xDE but the multiplication sign 0xD7). *)
Definition lower_char (c : ascii) : ascii :=
  let n := nat_of_ascii c in
  if ((65 <=? n) && (n <=? 90)
      || (192 <=? n) && (n <=? 222) && negb (n =? 215))%nat
  then ascii_of_nat (n + 32) else c.

Fixpoint lower (s : string) : string :=
  match s with
  | EmptyString => EmptyString
  | String c t => String (lower_char c) (lower t)
  end.

(** [str(n)] for an integer. *)
Definition str_of_Z (z : Z) : string := NilZero.string_of_int (Z.to_int z).

(* ================================================================== *)
(** * Numbers: int64 and float64 cells *)
(* ================================================================== *)

(** A float64 is a [spec_float]: signed zero, signed infinity, NaN, or a
    finite [(-1)^s * m * 2^e].  Nothing below depends on the mantissa
    being normalised, so every comparison goes through the value. *)
Definition float64 := spec_float.

Definition nan : float64 := S754_nan.

Definition is_nan (f : float64) : bool :=
  match f with S754_nan => true | _ => false end.

(** [f < 0.0]; false on NaN, as every comparison with NaN is. *)
Definition float_lt0 (f : float64) : bool :=
  match f with
  | S754_infinity true => true
  | S754_finite true _ _ => true
  | _ => false
  end.

(** [f <= 0.0]. *)
Definition float_le0 (f : float64) : bool :=
  match f with
  | S754_zero _ => true
  | S754_infinity true => true
  | S754_finite true _ _ => true
  | _ => false
  end.

Definition signed (s : bool) (z : Z) : Z := if s then - z else z.

(** The integer a float is equal to, when there is one. *)
Definition float_to_Z (f : float64) : option Z :=
  match f with
  | S754_zero _ => Some 0
  | S754_finite s m e =>
      if 0 <=? e then Some (signed s (Z.pos m * 2 ^ e))
      else if Z.pos m mod 2 ^ (- e) =? 0
           then Some (signed s (Z.pos m / 2 ^ (- e)))
           else None
  | _ => None
  end.

(** The float an integer converts to: the float64 nearest to it, a tie
    going to the even mantissa, and infinity from 2^1024 - 2^970 on.  An
    integer of magnitude up to 2^53 converts exactly; beyond, the 53
    leading bits are kept and the rest is rounded. *)
Definition float_of_Z (z : Z) : float64 :=
  let a := Z.abs z in
  let s := z <? 0 in
  if a =? 0 then S754_zero false
  else if a <=? 2 ^ 53 then S754_finite s (Z.to_pos a) 0
  else
    let sh := Z.log2 a - 52 in
    let q := a / 2 ^ sh in
    let r := a mod 2 ^ sh in
    let half := 2 ^ (sh - 1) in
    let q' := if (r <? half) || ((r =? half) && Z.even q) then q else q + 1 in
    if 2 ^ 1024 <=? q' * 2 ^ sh then S754_infinity s
    else S754_finite s (Z.to_pos q') sh.

Definition int64_min : Z := - 2 ^ 63.
Definition int64_max : Z := 2 ^ 63 - 1.
Definition uint64_max : Z := 2 ^ 64 - 1.

Definition in_int64 (z : Z) : bool := (int64_min <=? z) && (z <=? int64_max).
Definition in_uint64 (z : Z) : bool := (0 <=? z) && (z <=? uint64_max).

(** A float that is equal to an int64. *)
Definition fits_int64 (f : float64) : bool :=
  match float_to_Z f with Some z => in_int64 z | None => false end.

(** A finite float as [m * 2^e]. *)
Definition float_scaled (f : float64) : option (Z * Z) :=
  match f with
  | S754_zero _ => Some (0, 0)
  | S754_finite s m e => Some (signed s (Z.pos m), e)
  | _ => None
  end.

(** [a < b]; false when either is NaN. *)
Definition float_ltb (a b : float64) : bool :=
  match a, b with
  | S754_nan, _ | _, S754_nan => false
  | S754_infinity s, S754_infinity t => s && negb t
  | S754_infinity s, _ => s
  | _, S754_infinity t => negb t
  | _, _ =>
      match float_scaled a, float_scaled b with
      | Some (m, e), Some (n, d) =>
          let lo := Z.min e d in m * 2 ^ (e - lo) <? n * 2 ^ (d - lo)
      | _, _ => false
      end
  end.

(** The largest cell that is not NaN, the first of them
    ([values[np.nanargmax(values)]]); [None] when there is none. *)
Fixpoint nanmax (l : list float64) : option float64 :=
  match l with
  | [] => None
  | f :: t =>
      if is_nan f then nanmax t
      else match nanmax t with
           | Some g => if float_ltb f g then Some g else Some f
           | None => Some f
           end
  end.

(** Equality of keys in pandas' float64 hash table: [a == b], or both
    NaN.  Zeros of either sign are one key. *)
Definition float_key_eqb (a b : float64) : bool :=
  match a, b with
  | S754_nan, S754_nan => true
  | S754_zero _, S754_zero _ => true
  | S754_infinity s, S754_infinity t => Bool.eqb s t
  | S754_finite s m e, S754_finite t n d =>
      let lo := Z.min e d in
      Bool.eqb s t && (Z.pos m * 2 ^ (e - lo) =? Z.pos n * 2 ^ (d - lo))
  | _, _ => false
  end.

Definition Z_of_bool (b : bool) : Z := if b then 1 else 0.

(** What [pandas.to_numeric] reads in one cell. *)
Inductive number :=
| NumInt (z : Z)
| NumFloat (f : float64).

Definition number_is_int (n : number) : bool :=
  match n with NumInt _ => true | NumFloat _ => false end.

Definition number_int (n : number) : Z :=
  match n with NumInt z => z | NumFloat _ => 0 end.

Definition number_float (n : number) : float64 :=
  match n with NumInt z => float_of_Z z | NumFloat f => f end.

(** The integer a number is equal to, when there is one. *)
Definition number_to_Z (n : number) : option Z :=
  match n with NumInt z => Some z | NumFloat f => float_to_Z f end.

Definition number_to_int64 (n : number) : option Z :=
  match number_to_Z n with
  | Some z => if in_int64 z then Some z else None
  | None => None
  end.

(* ================================================================== *)
(** * Scalars: the values of cells *)
(* ================================================================== *)

(** The objects found in the cells of the data frames of this script, as
    iteration over a column yields them: Python's own [None], [bool],
    [int], [float] and [str], pandas' [NA], and numpy's scalar wrappers,
    which expose [item()]. *)
Inductive scalar :=
| PyNone
| PdNA
| PyBool (b : bool)
| PyInt (z : Z)
| PyFloat (f : float64)
| PyStr (s : string)
| NpBool (b : bool)
| NpInt64 (z : Z)
| NpFloat64 (f : float64).

(** [pd.isna(x)] on a scalar. *)
Definition isna (x : scalar) : bool :=
  match x with
  | PyNone | PdNA => true
  | PyFloat f | NpFloat64 f => is_nan f
  | _ => false
  end.

(** [x.item], when [x] has the attribute: the call and its outcome. *)
Definition item (x : scalar) : option (result scalar) :=
  match x with
  | NpBool b => Some (Ok (PyBool b))
  | NpInt64 z => Some (Ok (PyInt z))
  | NpFloat64 f => Some (Ok (PyFloat f))
  | _ => None
  end.

Definition hasattr_item (x : scalar) : bool :=
  match item x with Some _ => true | None => false end.

(** [to_py], lines 191-199. *)
Definition to_py (x : scalar) : scalar :=
  if isna x then PyNone
  else
    match (if hasattr_item x then item x else None) with
    | Some (Ok v) => v
    | Some (Raise _) => x       (* except Exception: pass *)
    | None => x
    end.

(** The plain primitives of Python, and its [None]. *)
Definition is_plain (x : scalar) : bool :=
  match x with
  | PyNone | PyBool _ | PyInt _ | PyFloat _ | PyStr _ => true
  | _ => false
  end.

(* ================================================================== *)
(** * Columns: a pandas Series, by dtype *)
(* ================================================================== *)

(** A numeric array, which is what [pandas.to_numeric] returns.  An
    integer array is int64, or uint64 when a cell is beyond int64, which
    is what [to_numeric] gives integers up to 2^64 - 1. *)
Inductive numeric_array :=
| Arr_int64 (v : list Z)
| Arr_float64 (v : list float64)           (* NaN is the missing value *)
| Arr_bool (v : list bool)
| Arr_Int64 (v : list (option Z)).         (* nullable; [None] is [NA] *)

Inductive column :=
| Col_numeric (a : numeric_array)
| Col_object (v : list scalar)             (* Python objects *)
| Col_string (v : list (option string)).   (* "string"; [None] is [NA] *)

Definition Col_int64 (v : list Z) := Col_numeric (Arr_int64 v).
Definition Col_float64 (v : list float64) := Col_numeric (Arr_float64 v).
Definition Col_bool (v : list bool) := Col_numeric (Arr_bool v).
Definition Col_Int64 (v : list (option Z)) := Col_numeric (Arr_Int64 v).

(** Rows are selected by boolean masks, as in [df[mask]]. *)
Fixpoint select {A} (mask : list bool) (l : list A) : list A :=
  match mask, l with
  | b :: m, x :: t => if b then x :: select m t else select m t
  | _, _ => []
  end.

Definition arr_len (a : numeric_array) : nat :=
  match a with
  | Arr_int64 v => List.length v
  | Arr_float64 v => List.length v
  | Arr_bool v => List.length v
  | Arr_Int64 v => List.length v
  end.

Definition col_len (c : column) : nat :=
  match c with
  | Col_numeric a => arr_len a
  | Col_object v => List.length v
  | Col_string v => List.length v
  end.

Definition arr_select (mask : list bool) (a : numeric_array) : numeric_array :=
  match a with
  | Arr_int64 v => Arr_int64 (select mask v)
  | Arr_float64 v => Arr_float64 (select mask v)
  | Arr_bool v => Arr_bool (select mask v)
  | Arr_Int64 v => Arr_Int64 (select mask v)
  end.

Definition col_select (mask : list bool) (c : column) : column :=
  match c with
  | Col_numeric a => Col_numeric (arr_select mask a)
  | Col_object v => Col_object (select mask v)
  | Col_string v => Col_string (select mask v)
  end.

Definition opt_scalar {A} (f : A -> scalar) (o : option A) : scalar :=
  match o with Some a => f a | None => PdNA end.

(** The scalars iteration over a column yields ([Series.__iter__]): a
    numpy-backed column goes through [ndarray.item], and gives Python's
    own numbers; an extension array gives its elements as they are, numpy
    scalars or [NA]; an object column gives its objects. *)
Definition arr_values (a : numeric_array) : list scalar :=
  match a with
  | Arr_int64 v => map PyInt v
  | Arr_float64 v => map PyFloat v
  | Arr_bool v => map PyBool v
  | Arr_Int64 v => map (opt_scalar NpInt64) v
  end.

Definition col_values (c : column) : list scalar :=
  match c with
  | Col_numeric a => arr_values a
  | Col_object v => v
  | Col_string v => map (opt_scalar PyStr) v
  end.

Definition is_none {A} (o : option A) : bool :=
  match o with None => true | Some _ => false end.

(** [Series.isna()]. *)
Definition arr_isna (a : numeric_array) : list bool :=
  match a with
  | Arr_int64 v => map (fun _ => false) v
  | Arr_float64 v => map is_nan v
  | Arr_bool v => map (fun _ => false) v
  | Arr_Int64 v => map is_none v
  end.

Definition col_isna (c : column) : list bool :=
  match c with
  | Col_numeric a => arr_isna a
  | Col_object v => map isna v
  | Col_string v => map is_none v
  end.

Definition col_notna (c : column) : list bool := map negb (col_isna c).

(** ** [Series.duplicated(keep="first")] *)

Fixpoint duplicated_from {A} (eqb : A -> A -> bool) (seen l : list A)
  : list bool :=
  match l with
  | [] => []
  | x :: t => existsb (eqb x) seen :: duplicated_from eqb (x :: seen) t
  end.

Definition duplicated_by {A} (eqb : A -> A -> bool) (l : list A) : list bool :=
  duplicated_from eqb [] l.

Definition option_eqb {A} (eqb : A -> A -> bool) (a b : option A) : bool :=
  match a, b with
  | Some x, Some y => eqb x y
  | None, None => true
  | _, _ => false
  end.

(** The number a Python object compares as, when it is one ([True == 1]). *)
Definition as_number (x : scalar) : option number :=
  match x with
  | PyBool b | NpBool b => Some (NumInt (Z_of_bool b))
  | PyInt z | NpInt64 z => Some (NumInt z)
  | PyFloat f | NpFloat64 f => Some (NumFloat f)
  | _ => None
  end.

Definition number_key_eqb (a b : number) : bool :=
  match a, b with
  | NumInt x, NumInt y => x =? y
  | _, _ => float_key_eqb (number_float a) (number_float b)
  end.

(** Equality of keys in pandas' hash table of Python objects: [a == b],
    with two NaN equal. *)
Definition object_key_eqb (a b : scalar) : bool :=
  match a, b with
  | PyNone, PyNone => true
  | PdNA, PdNA => true
  | PyStr s, PyStr t => String.eqb s t
  | _, _ =>
      match as_number a, as_number b with
      | Some x, Some y => number_key_eqb x y
      | _, _ => false
      end
  end.

Definition arr_duplicated (a : numeric_array) : list bool :=
  match a with
  | Arr_int64 v => duplicated_by Z.eqb v
  | Arr_float64 v => duplicated_by float_key_eqb v
  | Arr_bool v => duplicated_by Bool.eqb v
  | Arr_Int64 v => duplicated_by (option_eqb Z.eqb) v
  end.

Definition col_duplicated (c : column) : list bool :=
  match c with
  | Col_numeric a => arr_duplicated a
  | Col_object v => duplicated_by object_key_eqb v
  | Col_string v => duplicated_by (option_eqb String.eqb) v
  end.

(* ================================================================== *)
(** * The pandas primitives the cleaners call *)
(* ================================================================== *)

Definition kleene := option bool.           (* a "boolean" cell; [None] is [NA] *)

Definition kleene_or (a b : kleene) : kleene :=
  match a, b with
  | Some true, _ | _, Some true => Some true
  | Some false, Some false => Some false
  | _, _ => None
  end.

Definition kleene_and (a b : kleene) : kleene :=
  match a, b with
  | Some false, _ | _, Some false => Some false
  | Some true, Some true => Some true
  | _, _ => None
  end.

Fixpoint zip_with {A B C} (f : A -> B -> C) (l : list A) (r : list B) : list C :=
  match l, r with
  | x :: l', y :: r' => f x y :: zip_with f l' r'
  | _, _ => []
  end.

(** A mask as [df.loc[mask, ...]] reads it: [NA] selects nothing. *)
Definition mask_true (m : list kleene) : list bool :=
  map (fun k => match k with Some true => true | _ => false end) m.

(** [a < 0] and [a <= 0], element by element. *)
Definition arr_lt0 (a : numeric_array) : list kleene :=
  match a with
  | Arr_int64 v => map (fun z => Some (z <? 0)) v
  | Arr_float64 v => map (fun f => Some (float_lt0 f)) v
  | Arr_bool v => map (fun b => Some (Z_of_bool b <? 0)) v
  | Arr_Int64 v => map (option_map (fun z => z <? 0)) v
  end.

Definition arr_le0 (a : numeric_array) : list kleene :=
  match a with
  | Arr_int64 v => map (fun z => Some (z <=? 0)) v
  | Arr_float64 v => map (fun f => Some (float_le0 f)) v
  | Arr_bool v => map (fun b => Some (Z_of_bool b <=? 0)) v
  | Arr_Int64 v => map (option_map (fun z => z <=? 0)) v
  end.

Definition arr_notna (a : numeric_array) : list kleene :=
  map (fun b => Some (negb b)) (arr_isna a).

Definition Int64_notna (v : list (option Z)) : list kleene :=
  map (fun o => Some (negb (is_none o))) v.

Definition Int64_lt (v : list (option Z)) (k : Z) : list kleene :=
  map (option_map (fun z => z <? k)) v.

Definition Int64_gt (v : list (option Z)) (k : Z) : list kleene :=
  map (option_map (fun z => k <? z)) v.

(** [l] with [x] written where the mask holds. *)
Definition set_where {A} (mask : list bool) (x : A) (l : list A) : list A :=
  zip_with (fun (b : bool) y => if b then x else y) mask l.

(** [df.loc[mask, col] = pd.NA] on a numeric column.  A numpy array has
    no room for [NA]: the column is cast to a dtype that holds a missing
    value, int64 to float64 and bool to object, whether or not the mask
    selects a row, and takes NaN where it does.  On a frame without rows
    the assignment is a no-op and the column keeps its dtype. *)
Definition loc_set_na (mask : list bool) (a : numeric_array) : column :=
  match mask with
  | [] => Col_numeric a
  | _ =>
      match a with
      | Arr_int64 v => Col_float64 (set_where mask nan (map float_of_Z v))
      | Arr_float64 v => Col_float64 (set_where mask nan v)
      | Arr_bool v => Col_object (set_where mask (PyFloat nan) (map PyBool v))
      | Arr_Int64 v => Col_Int64 (set_where mask None v)
      end
  end.

Definition str_of_bool (b : bool) : string := if b then "True" else "False".

(** [Series.str.strip()] and [Series.str.lower()] on a "string" column. *)
Definition str_strip (v : list (option string)) : list (option string) :=
  map (option_map strip) v.

Definition str_lower (v : list (option string)) : list (option string) :=
  map (option_map lower) v.

Fixpoint dict_get {V} (d : list (string * V)) (k : string) : option V :=
  match d with
  | [] => None
  | (k', v) :: d' => if String.eqb k k' then Some v else dict_get d' k
  end.

(** One cell under [Series.map(d)] for a dict [d] of booleans: the value
    of the key, none for a key the dict lacks and for [NA]. *)
Definition mapped (d : list (string * bool)) (o : option string)
  : option bool :=
  match o with Some s => dict_get d s | None => None end.

Definition mapped_cell (o : option bool) : scalar :=
  match o with Some b => PyBool b | None => PyFloat nan end.

Definition is_some {A} (o : option A) : bool :=
  match o with Some _ => true | None => false end.

(** [Series.map(d)]: the values are taken from the dict; the result is a
    bool column when every cell has one, and else an object column with
    NaN in the cells that have none. *)
Definition series_map (d : list (string * bool)) (v : list (option string))
  : column :=
  let found := map (mapped d) v in
  if forallb is_some found
  then Col_bool (map (fun o => match o with Some b => b | None => false end)
                     found)
  else Col_object (map mapped_cell found).

(** [astype("Int64")] on a float64 array, as pandas 2 casts it.  The NaN
    cells are the missing ones.  The largest of the others is looked at
    first: [int(x)] of it raises [OverflowError] when it is infinite, and
    when it is no integer the array is cast as an array of objects, else
    as it is.  The cast then passes when every cell is equal to the
    int64 it is cast to, and raises [TypeError] when one is not; the
    cast of objects goes through [int(x)] cell by cell, which raises
    [OverflowError] below the int64 range. *)
Definition object_cast_error (f : float64) : option exn :=
  match f with
  | S754_nan => None
  | S754_infinity _ =>
      Some (mk_exn OverflowError "cannot convert float infinity to integer")
  | _ =>
      if float_ltb f (float_of_Z int64_min)
      then Some (mk_exn OverflowError
                   "Python int too large to convert to C long")
      else None
  end.

Fixpoint first_error {A} (f : A -> option exn) (l : list A) : option exn :=
  match l with
  | [] => None
  | x :: t => match f x with Some e => Some e | None => first_error f t end
  end.

Definition float_cast_error (v : list float64) : option exn :=
  match nanmax v with
  | None => None
  | Some (S754_infinity _) =>
      Some (mk_exn OverflowError "cannot convert float infinity to integer")
  | Some x =>
      match float_to_Z x with
      | Some _ =>
          if forallb (fun f => is_nan f || fits_int64 f) v then None
          else Some (mk_exn TypeError
                       "cannot safely cast non-equivalent float64 to int64")
      | None =>
          match first_error object_cast_error v with
          | Some e => Some e
          | None =>
              Some (mk_exn TypeError
                      "cannot safely cast non-equivalent object to int64")
          end
      end
  end.

(** [astype("Int64")] on a numeric array.  An integer array passes when
    it is int64; a uint64 array has a cell beyond int64, and raises. *)
Definition astype_Int64 (a : numeric_array) : result (list (option Z)) :=
  match a with
  | Arr_int64 v =>
      if forallb in_int64 v then Ok (map Some v)
      else Raise (mk_exn TypeError
                    "cannot safely cast non-equivalent uint64 to int64")
  | Arr_float64 v =>
      match float_cast_error v with
      | Some e => Raise e
      | None => Ok (map float_to_Z v)
      end
  | Arr_bool v => Ok (map (fun b => Some (Z_of_bool b)) v)
  | Arr_Int64 v => Ok v
  end.

Section Pandas.

(** The reader of numeric literals behind [pandas.to_numeric] ([None]
    where the text is not a number), and [repr] of a float. *)
Variable parse_number : string -> option number.
Variable float_repr : float64 -> string.

(** One object under [to_numeric(errors="coerce")]. *)
Definition object_number (x : scalar) : number :=
  match x with
  | PyStr s => match parse_number s with
               | Some n => n
               | None => NumFloat nan
               end
  | PyNone | PdNA => NumFloat nan
  | PyBool b | NpBool b => NumInt (Z_of_bool b)
  | PyInt z | NpInt64 z => NumInt z
  | PyFloat f | NpFloat64 f => NumFloat f
  end.

Definition is_bool_object (x : scalar) : bool :=
  match x with PyBool _ | NpBool _ => true | _ => false end.

Definition is_integer_object (x : scalar) : bool :=
  match x with PyInt _ | NpInt64 _ => true | _ => false end.

(** The int64 an object is cast to by [values.astype("i8")] and is equal
    to: none for text, a missing value, a number that is no integer, and
    an integer beyond int64. *)
Definition as_int64 (x : scalar) : option Z :=
  match as_number x with
  | Some n => match number_to_int64 n with
              | Some z => Some z
              | None => None
              end
  | None => None
  end.

(** The first branch of [maybe_convert_numeric]: when the first object is
    an integer and every object is equal to the int64 it is cast to, the
    column is that int64 array. *)
Definition all_int64 (v : list scalar) : bool :=
  match v with
  | x :: _ => is_integer_object x && forallb (fun y => is_some (as_int64 y)) v
  | [] => false
  end.

(** An object column under [to_numeric(errors="coerce")].  Without the
    first branch, every cell is read: the column is float64 as soon as
    one cell is a float, is missing or is no number, and also when the
    integers fit neither int64 nor uint64 together; else it is an
    integer array, or bool when every cell is one.  A float64 cell holds
    the float nearest to the integer read. *)
Definition convert_numeric (v : list scalar) : numeric_array :=
  if all_int64 v
  then Arr_int64 (map (fun x => match as_int64 x with
                                | Some z => z
                                | None => 0
                                end) v)
  else
    let ns := map object_number v in
    if forallb number_is_int ns then
      if (0 <? List.length v)%nat && forallb is_bool_object v
      then Arr_bool (map (fun n => negb (number_int n =? 0)) ns)
      else
        let zs := map number_int ns in
        if forallb in_int64 zs || forallb in_uint64 zs
        then Arr_int64 zs
        else Arr_float64 (map float_of_Z zs)
    else Arr_float64 (map number_float ns).

(** The numbers [pd.to_numeric(s, errors="coerce")] reads in a column:
    a numeric column is returned as it is. *)
Definition to_numeric (c : column) : numeric_array :=
  match c with
  | Col_numeric a => a
  | Col_object v => convert_numeric v
  | Col_string v => convert_numeric (map (opt_scalar PyStr) v)
  end.

(** A Python int that no float64 holds: [float(x)] of it raises. *)
Definition beyond_float (x : scalar) : bool :=
  match x with
  | PyInt z => match float_of_Z z with
               | S754_infinity _ => true
               | _ => false
               end
  | _ => false
  end.

(** [pd.to_numeric(s, errors="coerce")].  The reader of an object column
    keeps every integer as a float64 as well, and raises [OverflowError]
    on a Python int beyond the range of float64; no other cell makes it
    raise. *)
Definition pd_to_numeric (c : column) : result numeric_array :=
  match c with
  | Col_object v =>
      if existsb beyond_float v
      then Raise (mk_exn OverflowError "int too large to convert to float")
      else Ok (to_numeric c)
  | _ => Ok (to_numeric c)
  end.

(** [str(x)] of a present object. *)
Definition str_of_scalar (x : scalar) : string :=
  match x with
  | PyStr s => s
  | PyBool b | NpBool b => str_of_bool b
  | PyInt z | NpInt64 z => str_of_Z z
  | PyFloat f | NpFloat64 f => float_repr f
  | PyNone | PdNA => ""
  end.

(** [astype("string")]: missing values become [NA], others their [str]. *)
Definition astype_string (c : column) : list (option string) :=
  match c with
  | Col_string v => v
  | c => map (fun x => if isna x then None else Some (str_of_scalar x))
             (col_values c)
  end.

End Pandas.

(* ================================================================== *)
(** * Data frames *)
(* ================================================================== *)

(** A data frame: the row labels and the named columns, in column order.
    In a frame read from a file every column is as long as the index. *)
Record DataFrame := mk_df {
  df_index : list Z;
  df_columns : list (string * column)
}.

Definition n_rows (df : DataFrame) : nat := List.length (df_index df).

Definition well_formed (df : DataFrame) : Prop :=
  Forall (fun nc => col_len (snd nc) = n_rows df) (df_columns df).

Definition has_column (df : DataFrame) (name : string) : bool :=
  match dict_get (df_columns df) name with Some _ => true | None => false end.

(** [df[name]]. *)
Definition getitem (df : DataFrame) (name : string) : result column :=
  match dict_get (df_columns df) name with
  | Some c => Ok c
  | None => Raise (mk_exn KeyError name)
  end.

Fixpoint replace_column (cols : list (string * column)) (name : string)
  (c : column) : list (string * column) :=
  match cols with
  | [] => [(name, c)]
  | (n, c') :: t =>
      if String.eqb name n then (n, c) :: t
      else (n, c') :: replace_column t name c
  end.

(** [df[name] = c]: the column is replaced where it stands, or added last. *)
Definition setitem (df : DataFrame) (name : string) (c : column) : DataFrame :=
  mk_df (df_index df) (replace_column (df_columns df) name c).

(** [df[mask]]: the rows the mask holds on, labels and cells. *)
Definition df_select (mask : list bool) (df : DataFrame) : DataFrame :=
  mk_df (select mask (df_index df))
        (map (fun nc => (fst nc, col_select mask (snd nc))) (df_columns df)).

(** [df.drop_duplicates(subset=[key])], for the one-column subsets of
    the script: the first row of each key value stays. *)
Definition drop_duplicates (df : DataFrame) (key : string) : result DataFrame :=
  (let! k := getitem df key in
   Ok (df_select (map negb (col_duplicated k)) df))%result.

Fixpoint all_notna (df : DataFrame) (subset : list string)
  : result (list bool) :=
  match subset with
  | [] => Ok (map (fun _ => true) (df_index df))
  | name :: rest =>
      (let! c := getitem df name in
       let! m := all_notna df rest in
       Ok (zip_with andb (col_notna c) m))%result
  end.

(** [df.dropna(subset=...)]: the rows with no missing value in [subset]. *)
Definition dropna (df : DataFrame) (subset : list string) : result DataFrame :=
  (let! m := all_notna df subset in Ok (df_select m df))%result.

(* ================================================================== *)
(** * The six table cleaners, lines 94-184 *)
(* ================================================================== *)

Definition bool_vocabulary : list (string * bool) :=
  [("true", true); ("false", false); ("1", true); ("0", false);
   ("yes", true); ("no", false)].

Section Cleaners.

Variable parse_number : string -> option number.
Variable float_repr : float64 -> string.
(** [pd.Timestamp.today().year] *)
Variable current_year : Z.

(** [df["listing_id"] = pd.to_numeric(df["listing_id"],
    errors="coerce").astype("Int64")], the second line of every cleaner. *)
Definition coerce_key (df : DataFrame) : result DataFrame :=
  (let! k := getitem df "listing_id" in
   let! a := pd_to_numeric parse_number k in
   let! k' := astype_Int64 a in
   Ok (setitem df "listing_id" (Col_Int64 k')))%result.

(** [df[col] = df[col].astype("string").str.strip()] *)
Definition strip_column (df : DataFrame) (col : string) : result DataFrame :=
  (let! c := getitem df col in
   Ok (setitem df col (Col_string (str_strip (astype_string float_repr c)))))%result.

(** [for col in cols: if col in df.columns: df[col] = ...strip()] *)
Fixpoint strip_columns (df : DataFrame) (cols : list string)
  : result DataFrame :=
  match cols with
  | [] => Ok df
  | col :: rest =>
      if has_column df col then
        (let! df := strip_column df col in strip_columns df rest)%result
      else strip_columns df rest
  end.

(** The numeric column with [NA] where it is present and [bad]. *)
Definition na_where (bad : numeric_array -> list kleene) (a : numeric_array)
  : column :=
  loc_set_na (mask_true (zip_with kleene_and (arr_notna a) (bad a))) a.

(** [df[col] = pd.to_numeric(df[col], errors="coerce")] and
    [df.loc[df[col].notna() & bad(df[col]), col] = pd.NA] *)
Definition clean_number (bad : numeric_array -> list kleene)
  (df : DataFrame) (col : string) : result DataFrame :=
  (let! c := getitem df col in
   let! a := pd_to_numeric parse_number c in
   Ok (setitem df col (na_where bad a)))%result.

(** The same for a column cast to "Int64", [bad] a test on its cells. *)
Definition Int64_na_where (bad : list (option Z) -> list kleene)
  (v : list (option Z)) : list (option Z) :=
  set_where (mask_true (zip_with kleene_and (Int64_notna v) (bad v))) None v.

Definition clean_integer (bad : list (option Z) -> list kleene)
  (df : DataFrame) (col : string) : result DataFrame :=
  (let! c := getitem df col in
   let! a := pd_to_numeric parse_number c in
   let! v := astype_Int64 a in
   Ok (setitem df col (Col_Int64 (Int64_na_where bad v))))%result.

(** [(df["year"] < 1950) | (df["year"] > current_year)] *)
Definition year_out_of_range (v : list (option Z)) : list kleene :=
  zip_with kleene_or (Int64_lt v 1950) (Int64_gt v current_year).

(** [s.map({...})] of the lowered, stripped text of a column. *)
Definition clean_flag (df : DataFrame) (col : string) : result DataFrame :=
  (let! c := getitem df col in
   let s := str_strip (str_lower (astype_string float_repr c)) in
   Ok (setitem df col (series_map bool_vocabulary s)))%result.

Definition when_column (df : DataFrame) (col : string)
  (f : DataFrame -> string -> result DataFrame) : result DataFrame :=
  if has_column df col then f df col else Ok df.

Definition clean_core (df : DataFrame) : result DataFrame :=
  (let! df := drop_duplicates df "listing_id" in
   let! df := coerce_key df in
   let! df := strip_column df "url" in
   dropna df ["listing_id"; "url"])%result.

Definition clean_pricing (df : DataFrame) : result DataFrame :=
  (let! df := drop_duplicates df "listing_id" in
   let! df := coerce_key df in
   let! df := when_column df "price" (clean_number arr_lt0) in
   let! df := when_column df "year" (clean_integer year_out_of_range) in
   let! df := when_column df "mileage"
                (clean_integer (fun v => Int64_lt v 0)) in
   dropna df ["listing_id"])%result.

Definition clean_vehicle (df : DataFrame) : result DataFrame :=
  (let! df := drop_duplicates df "listing_id" in
   let! df := coerce_key df in
   let! df := strip_columns df ["make"; "model"] in
   dropna df ["listing_id"])%result.

Definition clean_specs (df : DataFrame) : result DataFrame :=
  (let! df := drop_duplicates df "listing_id" in
   let! df := coerce_key df in
   let! df := when_column df "engine_size" (clean_number arr_le0) in
   let! df := when_column df "wheel_size" (clean_number arr_le0) in
   let! df := strip_columns df
                ["engine_type"; "transmission"; "drive_type";
                 "steering_wheel"; "comfort"] in
   dropna df ["listing_id"])%result.

Definition clean_appearance (df : DataFrame) : result DataFrame :=
  (let! df := drop_duplicates df "listing_id" in
   let! df := coerce_key df in
   let! df := strip_columns df ["body_type"; "color"; "interior_material"] in
   let! df := when_column df "sunroof" clean_flag in
   dropna df ["listing_id"])%result.

Definition clean_status (df : DataFrame) : result DataFrame :=
  (let! df := drop_duplicates df "listing_id" in
   let! df := coerce_key df in
   let! df := when_column df "cleared_customs" clean_flag in
   let! df := when_column df "condition" strip_column in
   dropna df ["listing_id"])%result.

End Cleaners.

(* ================================================================== *)
(** * The row materializer, lines 202-206 *)
(* ================================================================== *)

(** [zip] over the columns: one tuple per row, as long as every column lasts;
    no tuple at all when there is no column. *)
Fixpoint zip_rows (cols : list (list scalar)) : list (list scalar) :=
  match cols with
  | [] => []
  | c :: rest =>
      match rest with
      | [] => map (fun x => [x]) c
      | _ => zip_with cons c (zip_rows rest)
      end
  end.

(** [df[cols].itertuples(index=False, name=None)]; a column the frame
    lacks raises [KeyError]. *)
Definition itertuples (df : DataFrame) (cols : list string)
  : result (list (list scalar)) :=
  (let! cs := mapM (getitem df) cols in
   Ok (zip_rows (map col_values cs)))%result.

Definition rows_as_tuples (df : DataFrame) (cols : list string)
  : result (list (list scalar)) :=
  (let! rows := itertuples df cols in
   Ok (map (fun row => map to_py row) rows))%result.

(* ================================================================== *)
(** * Effects: the database, the log, and the run so far *)
(* ================================================================== *)

(** The calls the script makes on psycopg2. *)
Inductive db_call :=
| Connect                                   (* psycopg2.connect(...) *)
| SetAutocommit (b : bool)                  (* conn.autocommit = b *)
| Cursor                                    (* conn.cursor() *)
| ExecuteValues (sql : string) (batch : list (list scalar)) (page_size : nat)
| CursorClose                               (* leaving the [with] block *)
| Commit
| Rollback
| Close.

(** The records the script logs, by call site. *)
Inductive log_record :=
| Loaded (name : string) (rows : nat) (path : string)
| AfterCleaning (core pricing vehicle specs appearance status : nat)
| ZeroRows (table : string)                               (* warning *)
| InsertedBatch (table : string) (start stop total : nat)
| Committed
| InsertFailed (e : exn)                                  (* logging.exception *)
| RolledBack.

Inductive event :=
| Call (c : db_call)
| Log (r : log_record).

(** The environment of a run.  [db] tells, from the events so far, which
    error the next database call raises, if any;  [read_file] is [None]
    on a path that does not exist, else what [pd.read_csv] does there. *)
Record world := mk_world {
  getenv : string -> option string;
  read_file : string -> option (result DataFrame);
  db : list event -> db_call -> option exn
}.

(** The state of a run: the events so far, in order, and the local
    variable [conn] of [main]. *)
Record state := mk_state {
  trace : list event;
  conn : bool                                (* [conn is not None] *)
}.

Definition M (A : Type) : Type := state -> state * result A.

Definition ret {A} (a : A) : M A := fun st => (st, Ok a).

Definition raise {A} (e : exn) : M A := fun st => (st, Raise e).

Definition bind {A B} (m : M A) (k : A -> M B) : M B :=
  fun st =>
    match m st with
    | (st', Ok a) => k a st'
    | (st', Raise e) => (st', Raise e)
    end.

Declare Scope run_scope.
Delimit Scope run_scope with run.
Notation "x <- m ;; k" := (bind m (fun x => k))
  (at level 61, m at next level, right associativity) : run_scope.
Notation "m ;; k" := (bind m (fun _ => k))
  (at level 61, right associativity) : run_scope.

Definition lift {A} (r : result A) : M A := fun st => (st, r).

Definition emit (e : event) : M unit :=
  fun st => (mk_state (trace st ++ [e]) (conn st), Ok tt).

Definition log (r : log_record) : M unit := emit (Log r).

Definition get_conn_var : M bool := fun st => (st, Ok (conn st)).

Definition set_conn_var (b : bool) : M unit :=
  fun st => (mk_state (trace st) b, Ok tt).

(** [try: body / except Exception as e: handler e] *)
Definition try_except {A} (body : M A) (handler : exn -> M A) : M A :=
  fun st =>
    match body st with
    | (st', Raise e) => handler e st'
    | r => r
    end.

(** [try: body / finally: fin]: an error of [fin] replaces the outcome. *)
Definition try_finally {A} (body : M A) (fin : M unit) : M A :=
  fun st =>
    match body st with
    | (st', r) =>
        match fin st' with
        | (st'', Ok _) => (st'', r)
        | (st'', Raise e) => (st'', Raise e)
        end
    end.

(** [try: body / except Exception: pass] *)
Definition suppress (body : M unit) : M unit :=
  try_except body (fun _ => ret tt).

Fixpoint for_each {A} (l : list A) (body : A -> M unit) : M unit :=
  match l with
  | [] => ret tt
  | x :: t => (body x ;; for_each t body)%run
  end.

(** A call on the database: recorded, then it returns or raises as the
    world says. *)
Definition call (w : world) (c : db_call) : M unit :=
  fun st =>
    let st' := mk_state (trace st ++ [Call c]) (conn st) in
    match db w (trace st) c with
    | None => (st', Ok tt)
    | Some e => (st', Raise e)
    end.

(* ================================================================== *)
(** * The batch loader, lines 212-226 *)
(* ================================================================== *)

Definition SCHEMA : string := "car_market".
Definition BATCH_SIZE : nat := 5000.

(** [range(start, stop, step)] for a positive step. *)
Fixpoint range_from (fuel start stop step : nat) : list nat :=
  match fuel with
  | O => []
  | S fuel' =>
      if (start <? stop)%nat
      then start :: range_from fuel' (start + step) stop step
      else []
  end.

Definition range (start stop step : nat) : list nat :=
  range_from (stop - start) start stop step.

(** [l[a:b]] *)
Definition slice {A} (l : list A) (a b : nat) : list A :=
  firstn (b - a) (skipn a l).

Fixpoint join (sep : string) (l : list string) : string :=
  match l with
  | [] => ""
  | [x] => x
  | x :: t => x ++ sep ++ join sep t
  end.

(** [repr] of a list of names, none of which holds a quote. *)
Definition list_repr (l : list string) : string :=
  ("[" ++ join ", " (map (fun s => "'" ++ s ++ "'") l) ++ "]")%string.

Definition insert_sql (table : string) (cols : list string) : string :=
  "INSERT INTO " ++ SCHEMA ++ "." ++ table ++ " (" ++ join ", " cols
  ++ ") VALUES %s ON CONFLICT DO NOTHING".

(** The batches of a list of rows, in the order the loop takes them. *)
Definition batches_of (size : nat) (rows : list (list scalar))
  : list (nat * list (list scalar)) :=
  map (fun start => (start, slice rows start (start + size)))
      (range 0 (List.length rows) size).

Definition insert_batches (w : world) (table : string) (cols : list string)
  (rows : list (list scalar)) : M unit :=
  match rows with
  | [] => log (ZeroRows table)
  | _ =>
      let sql := insert_sql table cols in
      let total := List.length rows in
      for_each (range 0 total BATCH_SIZE) (fun start =>
        let batch := slice rows start (start + BATCH_SIZE) in
        (call w (ExecuteValues sql batch (List.length batch)) ;;
         log (InsertedBatch table start (Nat.min (start + BATCH_SIZE) total)
                total))%run)
  end.

(* ================================================================== *)
(** * The orchestrator, lines 57-88 and 229-339 *)
(* ================================================================== *)

Definition BASE_DIR : string := "/home/sergey/Desktop/Project".

Definition CSV_FILES : list (string * string) :=
  [("core", (BASE_DIR ++ "/core.csv")%string);
   ("pricing", (BASE_DIR ++ "/pricing.csv")%string);
   ("vehicle", (BASE_DIR ++ "/vehicle.csv")%string);
   ("specs", (BASE_DIR ++ "/specs.csv")%string);
   ("appearance", (BASE_DIR ++ "/appearance.csv")%string);
   ("status", (BASE_DIR ++ "/status.csv")%string)].

Definition core_cols : list string := ["listing_id"; "url"].
Definition pricing_cols : list string :=
  ["listing_id"; "price"; "year"; "mileage"].
Definition vehicle_cols : list string := ["listing_id"; "make"; "model"].
Definition specs_cols : list string :=
  ["listing_id"; "engine_size"; "engine_type"; "transmission"; "drive_type";
   "steering_wheel"; "wheel_size"; "comfort"].
Definition appearance_cols : list string :=
  ["listing_id"; "body_type"; "color"; "interior_material"; "sunroof"].
Definition status_cols : list string :=
  ["listing_id"; "cleared_customs"; "condition"].

(** [not os.getenv(k)]: unset, or set to the empty string. *)
Definition env_missing (w : world) (k : string) : bool :=
  match getenv w k with
  | None | Some "" => true
  | Some _ => false
  end.

Definition get_conn (w : world) : M unit :=
  let missing :=
    filter (env_missing w) ["PGHOST"; "PGDATABASE"; "PGUSER"; "PGPASSWORD"] in
  match missing with
  | [] => call w Connect
  | _ => raise (mk_exn RuntimeError
                  ("Missing env vars: " ++ list_repr missing
                   ++ ". Please set them before running.")%string)
  end.

Definition read_csv (w : world) (name : string) : M DataFrame :=
  match dict_get CSV_FILES name with
  | None => raise (mk_exn KeyError name)
  | Some path =>
      match read_file w path with
      | None => raise (mk_exn FileNotFoundError
                        ("CSV not found: " ++ path)%string)
      | Some r =>
          (df <- lift r ;;
           log (Loaded name (n_rows df) path) ;;
           ret df)%run
      end
  end.

Definition validate_columns (df : DataFrame) (required_cols : list string)
  (table_name : string) : result unit :=
  let missing := filter (fun c => negb (has_column df c)) required_cols in
  match missing with
  | [] => Ok tt
  | _ => Raise (mk_exn ValueError
                  (table_name ++ ": missing columns "
                   ++ list_repr missing)%string)
  end.

Section Orchestrator.

Variable parse_number : string -> option number.
Variable float_repr : float64 -> string.
Variable current_year : Z.
Variable w : world.

(** One load: the tuples are built, then handed to the batch loader. *)
Definition load (table : string) (cols : list string) (df : DataFrame)
  : M unit :=
  (rows <- lift (rows_as_tuples df cols) ;;
   insert_batches w table cols rows)%run.

(** The body of [with conn.cursor() as cur:], lines 275-319. *)
Definition loads (core pricing vehicle specs appearance status : DataFrame)
  : M unit :=
  (load "core" core_cols core ;;
   load "pricing" pricing_cols pricing ;;
   load "vehicle" vehicle_cols vehicle ;;
   load "specs" specs_cols specs ;;
   load "appearance" appearance_cols appearance ;;
   load "status" status_cols status)%run.

(** The body of the [try], lines 271-322. *)
Definition transacting_body
  (core pricing vehicle specs appearance status : DataFrame) : M unit :=
  (get_conn w ;;
   set_conn_var true ;;
   call w (SetAutocommit false) ;;
   call w Cursor ;;
   try_finally
     (loads core pricing vehicle specs appearance status)
     (call w CursorClose) ;;
   call w Commit ;;
   log Committed)%run.

(** The [except Exception as e] clause, lines 324-332. *)
Definition on_failure (e : exn) : M unit :=
  (log (InsertFailed e) ;;
   c <- get_conn_var ;;
   (if c then suppress (call w Rollback ;; log RolledBack) else ret tt) ;;
   raise e)%run.

(** The [finally] clause, lines 334-339. *)
Definition release : M unit :=
  (c <- get_conn_var ;;
   if c then suppress (call w Close) else ret tt)%run.

(** Lines 269-339. *)
Definition transacting
  (core pricing vehicle specs appearance status : DataFrame) : M unit :=
  (set_conn_var false ;;
   try_finally
     (try_except
        (transacting_body core pricing vehicle specs appearance status)
        on_failure)
     release)%run.

Definition main : M unit :=
  (core <- read_csv w "core" ;;
   pricing <- read_csv w "pricing" ;;
   vehicle <- read_csv w "vehicle" ;;
   specs <- read_csv w "specs" ;;
   appearance <- read_csv w "appearance" ;;
   status <- read_csv w "status" ;;
   lift (validate_columns core ["listing_id"; "url"] "core") ;;
   lift (validate_columns pricing ["listing_id"] "pricing") ;;
   lift (validate_columns vehicle ["listing_id"] "vehicle") ;;
   lift (validate_columns specs ["listing_id"] "specs") ;;
   lift (validate_columns appearance ["listing_id"] "appearance") ;;
   lift (validate_columns status ["listing_id"] "status") ;;
   core <- lift (clean_core parse_number float_repr core) ;;
   pricing <- lift (clean_pricing parse_number current_year pricing) ;;
   vehicle <- lift (clean_vehicle parse_number float_repr vehicle) ;;
   specs <- lift (clean_specs parse_number float_repr specs) ;;
   appearance <- lift (clean_appearance parse_number float_repr appearance) ;;
   status <- lift (clean_status parse_number float_repr status) ;;
   log (AfterCleaning (n_rows core) (n_rows pricing) (n_rows vehicle)
          (n_rows specs) (n_rows appearance) (n_rows status)) ;;
   transacting core pricing vehicle specs appearance status)%run.

End Orchestrator.

Definition initial : state := mk_state [] false.

(* ================================================================== *)
(** * A reader and a printer to run the cleaners on *)
(* ================================================================== *)

(** The cleaners are stated for any reader of numeric literals.  To run
    them, [read_decimal] reads the literals [sign digits . digits] whose
    value is a binary fraction (an integer, 2020.5, 0.25), exactly; the
    runs below use no other numeric text.  [print_decimal] prints a float
    in full, which is its [repr] when the expansion is short. *)

Definition digit_of (c : ascii) : option Z :=
  let n := nat_of_ascii c in
  if ((48 <=? n) && (n <=? 57))%nat then Some (Z.of_nat (n - 48)) else None.

Fixpoint read_digits (s : string) (acc : Z) (n : nat) : Z * nat * string :=
  match s with
  | EmptyString => (acc, n, s)
  | String c t =>
      match digit_of c with
      | Some d => read_digits t (10 * acc + d) (S n)
      | None => (acc, n, s)
      end
  end.

(** [v / 10^k] as a float, when it is one exactly. *)
Definition binary_fraction (neg : bool) (v : Z) (k : nat) : option float64 :=
  let p5 := 5 ^ Z.of_nat k in
  if v =? 0 then Some (S754_zero neg)
  else if v mod p5 =? 0
       then Some (S754_finite neg (Z.to_pos (v / p5)) (- Z.of_nat k))
       else None.

Definition read_unsigned (neg : bool) (s : string) : option number :=
  let '(i, ni, rest) := read_digits s 0 0 in
  match rest with
  | EmptyString =>
      if (ni =? 0)%nat then None else Some (NumInt (signed neg i))
  | String "."%char frac =>
      let '(v, nf, rest') := read_digits frac i 0 in
      match rest' with
      | EmptyString =>
          if (ni + nf =? 0)%nat then None
          else option_map NumFloat (binary_fraction neg v nf)
      | _ => None
      end
  | _ => None
  end.

Definition read_decimal (s : string) : option number :=
  match s with
  | String "-"%char t => read_unsigned true t
  | String "+"%char t => read_unsigned false t
  | _ => read_unsigned false s
  end.

Fixpoint zeros (n : nat) : string :=
  match n with O => "" | S n' => String "0"%char (zeros n') end.

Fixpoint drop_trailing_zeros (s : string) : string :=
  match s with
  | EmptyString => EmptyString
  | String c t =>
      match drop_trailing_zeros t with
      | EmptyString => if Ascii.eqb c "0"%char then EmptyString
                       else String c EmptyString
      | t' => String c t'
      end
  end.

Definition print_fraction (frac : Z) (k : nat) : string :=
  let digits := str_of_Z frac in
  let padded := (zeros (k - String.length digits) ++ digits)%string in
  match drop_trailing_zeros padded with
  | EmptyString => "0"
  | s => s
  end.

Definition print_decimal (f : float64) : string :=
  match f with
  | S754_nan => "nan"
  | S754_infinity s => if s then "-inf" else "inf"
  | S754_zero s => if s then "-0.0" else "0.0"
  | S754_finite s m e =>
      let sign := if s then "-" else "" in
      if 0 <=? e then (sign ++ str_of_Z (Z.pos m * 2 ^ e) ++ ".0")%string
      else
        let k := Z.to_nat (- e) in
        let n := Z.pos m * 5 ^ Z.of_nat k in
        let unit := 10 ^ Z.of_nat k in
        (sign ++ str_of_Z (n / unit) ++ "." ++ print_fraction (n mod unit) k)%string
  end.

(* ================================================================== *)
(** * Notions the statements use *)
(* ================================================================== *)

(** [subseq s l]: [s] is [l] with some elements left out, order kept. *)
Inductive subseq {A : Type} : list A -> list A -> Prop :=
| subseq_nil : subseq [] []
| subseq_keep x s l : subseq s l -> subseq (x :: s) (x :: l)
| subseq_drop x s l : subseq s l -> subseq s (x :: l).

(** The cells of a column with the labels of their rows. *)
Definition labelled (df : DataFrame) (c : column) : list (Z * scalar) :=
  combine (df_index df) (col_values c).

(** The rows of column [name], [[]] when the frame lacks it. *)
Definition cells (df : DataFrame) (name : string) : list (Z * scalar) :=
  match getitem df name with
  | Ok c => labelled df c
  | Raise _ => []
  end.

(** What every step of a cleaner does to the shape of a frame: rows are
    left out, never added or moved, and columns stay as long as the index. *)
Definition shapes (df df' : DataFrame) : Prop :=
  subseq (df_index df') (df_index df)
  /\ (well_formed df -> well_formed df').

(** Every cell of column [name] in [df'] is the cell of a row of [df]
    with the same label, seen through [R]. *)
Definition tracks (R : scalar -> scalar -> Prop) (name : string)
  (df df' : DataFrame) : Prop :=
  forall i c', In (i, c') (cells df' name) ->
               exists c, In (i, c) (cells df name) /\ R c c'.

(** ** What a cleaned cell is to the raw one *)

Definition number_nan (n : number) : bool :=
  match n with NumInt _ => false | NumFloat f => is_nan f end.

Definition number_lt0 (n : number) : bool :=
  match n with NumInt z => z <? 0 | NumFloat f => float_lt0 f end.

Definition number_le0 (n : number) : bool :=
  match n with NumInt z => z <=? 0 | NumFloat f => float_le0 f end.

(** [n'] is [n] as a column holds it once it has another dtype: [n]
    itself, or, when [n] is equal to an integer [k], the integer [k] or
    the float64 nearest to [k].  The three are one number when [k] is at
    most 2^53 in magnitude. *)
Definition upcast_of (n n' : number) : Prop :=
  n' = n
  \/ exists k, number_to_Z n = Some k
               /\ (n' = NumInt k \/ n' = NumFloat (float_of_Z k)).

(** [n'] is [n], or the float [n] converts to. *)
Definition promoted (n n' : number) : Prop :=
  n' = n \/ n' = NumFloat (number_float n).

(** The number in a cell that holds no text; NaN when it is missing. *)
Definition scalar_number (x : scalar) : number :=
  match as_number x with Some n => n | None => NumFloat nan end.

Definition is_text (x : scalar) : bool :=
  match x with PyStr _ => true | _ => false end.

(** A cell is present and [bad]. *)
Definition present_and (bad : number -> bool) (y : scalar) : bool :=
  negb (number_nan (scalar_number y)) && bad (scalar_number y).

(** What the domain mask leaves in a cell: NaN where the cell is present
    and bad, else the number it held. *)
Definition masked (bad : number -> bool) (y z : scalar) : Prop :=
  if present_and bad y
  then isna z = true
  else is_text z = false /\ promoted (scalar_number y) (scalar_number z).

(** A number column with a domain: the cleaned cell [z] of a raw cell
    [x] is absent when [x] is missing, is no number, or is [bad]; else
    it is the number of [x], as an int or as the float64 nearest to it,
    never another. *)
Definition number_rule (parse_number : string -> option number)
  (bad : number -> bool) (x z : scalar) : Prop :=
  let n := object_number parse_number x in
  if number_nan n || bad n then isna z = true
  else isna z = false
       /\ exists n', as_number z = Some n' /\ upcast_of n n'.

(** An integer column with a domain.  The cell is cast from the number
    [n'] the coerced column holds for the raw cell: the number read in
    it, or the float64 nearest to it.  The cleaned cell is [NA] when
    [n'] is missing or is [bad], and else it is the integer [n'] is. *)
Definition integer_rule (parse_number : string -> option number)
  (bad : Z -> bool) (x z : scalar) : Prop :=
  exists n',
    upcast_of (object_number parse_number x) n'
    /\ match number_to_Z n' with
       | Some k => if bad k then z = PdNA else z = NpInt64 k
       | None => z = PdNA
       end.

(** A float [int(x)] turns into an integer that is not below the int64
    range: it is not infinite, and it is -2^63 or more. *)
Definition within_long (f : float64) : bool :=
  match f with
  | S754_infinity _ => false
  | _ => negb (float_ltb f (float_of_Z int64_min))
  end.


Definition year_bad (current_year : Z) (k : Z) : bool :=
  (k <? 1950) || (current_year <? k).

Definition mileage_bad (k : Z) : bool := k <? 0.

(** The text of a cell, as [astype("string")] gives it. *)
Definition cell_text (float_repr : float64 -> string) (x : scalar)
  : option string :=
  if isna x then None else Some (str_of_scalar float_repr x).

(** A flag column: the cleaned cell is the value the vocabulary gives to
    the lowered, stripped text of the raw cell, NaN when it gives none
    or the raw cell is missing. *)
Definition flag_of_text (s : string) : option bool :=
  dict_get bool_vocabulary (strip (lower s)).

Definition flag_rule (float_repr : float64 -> string) (x z : scalar) : Prop :=
  z = match cell_text float_repr x with
      | Some s => match flag_of_text s with
                  | Some b => PyBool b
                  | None => PyFloat nan
                  end
      | None => PyFloat nan
      end.

(** A text column: the cleaned cell is the stripped text of the raw
    cell, [NA] when the raw cell is missing. *)
Definition text_rule (float_repr : float64 -> string) (x z : scalar) : Prop :=
  z = opt_scalar PyStr (option_map strip (cell_text float_repr x)).

(** An url is empty: missing, or text that strips to nothing. *)
Definition url_is_empty (x : scalar) : Prop :=
  isna x = true \/ exists s, x = PyStr s /\ strip s = "".

(** "Every row whose url is empty or absent is excluded from the cleaned
    Core output", on frames read from a file. *)
Definition empty_url_rows_excluded : Prop :=
  forall parse_number float_repr df df' i x,
    well_formed df -> NoDup (df_index df) ->
    clean_core parse_number float_repr df = Ok df' ->
    In (i, x) (cells df "url") -> url_is_empty x ->
    ~ In i (df_index df').

(** The rows [clean_core] keeps, among the rows whose key is the first
    of its raw value: those whose key [v] is present after the cast, and
    whose raw url [u] is not missing. *)
Definition core_kept (v : list (option Z)) (u : list scalar) : list bool :=
  zip_with andb (map (fun o => negb (is_none o)) v)
                (map (fun x => negb (isna x)) u).

(** The keys of a frame, as the loader will send them. *)
Definition keys_of (df : DataFrame) : list scalar :=
  map snd (cells df "listing_id").

(** ** The orchestrator's error path, as the specification words it *)

(** "On any exception during Transacting the orchestrator attempts a
    rollback": whenever the body of the [try] raises, the run holds a
    call of [Rollback]. *)
Definition rollback_always_attempted : Prop :=
  forall w core pricing vehicle specs appearance status st st1 e,
    transacting_body w core pricing vehicle specs appearance status
      (mk_state (trace st) false) = (st1, Raise e) ->
    In (Call Rollback)
       (trace (fst (transacting w core pricing vehicle specs appearance
                      status st))).

(** "A rollback failure is logged": whenever the call of [Rollback]
    raises, a record is logged after it. *)
Definition rollback_failure_logged : Prop :=
  forall w core pricing vehicle specs appearance status st before after e,
    trace (fst (transacting w core pricing vehicle specs appearance
                  status st))
    = before ++ Call Rollback :: after ->
    db w before Rollback = Some e ->
    exists r, In (Log r) after.

(** What [read_csv] finds under a name. *)
Definition source (w : world) (name : string) : option (result DataFrame) :=
  match dict_get CSV_FILES name with
  | Some path => read_file w path
  | None => None
  end.

(** [df] is the table read under [name], cleaned by [clean]. *)
Definition cleaned_from (w : world) (name : string)
  (clean : DataFrame -> result DataFrame) (df : DataFrame) : Prop :=
  exists raw, source w name = Some (Ok raw) /\ clean raw = Ok df.

(** A computation that leaves the variable [conn] as it is. *)
Definition keeps_conn {A} (m : M A) : Prop :=
  forall st st' r, m st = (st', r) -> conn st' = conn st.

(** ** When a cleaner returns *)

(** A cell the cast to "Int64" accepts whatever the other cells make of
    the column: missing or no number, or an integer that float64 holds
    exactly, of magnitude at most 2^53. *)
Definition casts_to_Int64 (parse_number : string -> option number)
  (x : scalar) : Prop :=
  let n := object_number parse_number x in
  number_nan n = true
  \/ exists z, number_to_Z n = Some z /\ - 2 ^ 53 <= z <= 2 ^ 53.


(** A cell [to_numeric] can read: any but a Python int beyond the range
    of float64. *)
Definition readable (x : scalar) : Prop := beyond_float x = false.

(** The frame has column [name], and [P] holds of its cells. *)
Definition column_ok (P : scalar -> Prop) (name : string) (df : DataFrame)
  : Prop :=
  exists c, getitem df name = Ok c /\ Forall P (col_values c).

(** The same for a column the frame may lack. *)
Definition optional_ok (P : scalar -> Prop) (name : string) (df : DataFrame)
  : Prop :=
  has_column df name = false \/ column_ok P name df.

Definition any_cell (x : scalar) : Prop := True.

(** What a cleaner makes of the key column: the raw keys without their
    duplicates, coerced and cast, and then the rows with a key. *)
Definition key_pipeline (parse_number : string -> option number)
  (df df' : DataFrame) : Prop :=
  exists k v m,
    getitem df "listing_id" = Ok k
    /\ astype_Int64
         (to_numeric parse_number
            (col_select (map negb (col_duplicated k)) k)) = Ok v
    /\ getitem df' "listing_id" = Ok (Col_Int64 (select m v)).

(** The six table cleaners. *)
Definition cleaners (parse_number : string -> option number)
  (float_repr : float64 -> string) (current_year : Z)
  : list (DataFrame -> result DataFrame) :=
  [clean_core parse_number float_repr;
   clean_pricing parse_number current_year;
   clean_vehicle parse_number float_repr;
   clean_specs parse_number float_repr;
   clean_appearance parse_number float_repr;
   clean_status parse_number float_repr].

(** The calls of a trace, the log left out. *)
Fixpoint calls_of (tr : list event) : list db_call :=
  match tr with
  | [] => []
  | Call c :: t => c :: calls_of t
  | Log _ :: t => calls_of t
  end.

(** The statements a load of [rows] issues when none fails. *)
Definition statements (table : string) (cols : list string)
  (rows : list (list scalar)) : list db_call :=
  map (fun sb => ExecuteValues (insert_sql table cols) (snd sb)
                   (List.length (snd sb)))
      (batches_of BATCH_SIZE rows).

(** One pass of the loop of [insert_batches], and the statement it
    issues. *)
Definition insert_one (w : world) (table : string) (cols : list string)
  (rows : list (list scalar)) (start : nat) : M unit :=
  let batch := slice rows start (start + BATCH_SIZE) in
  (call w (ExecuteValues (insert_sql table cols) batch (List.length batch)) ;;
   log (InsertedBatch table start
          (Nat.min (start + BATCH_SIZE) (List.length rows))
          (List.length rows)))%run.

Definition statement_at (table : string) (cols : list string)
  (rows : list (list scalar)) (start : nat) : db_call :=
  let batch := slice rows start (start + BATCH_SIZE) in
  ExecuteValues (insert_sql table cols) batch (List.length batch).

(** [ceil(n / d)] *)
Definition ceil_div (n d : nat) : nat := ((n + d - 1) / d)%nat.

(* ================================================================== *)
(** * Frames for the runs *)
(* ================================================================== *)

(** A pricing table with a negative price, a year before 1950 and one
    after the current year, and a negative mileage. *)
Definition pricing_table : DataFrame :=
  mk_df [0; 1; 2; 3]
    [("listing_id", Col_int64 [1; 2; 3; 4]);
     ("price", Col_int64 [-5; 10; 3; 4]);
     ("year", Col_int64 [1899; 2999; 2000; 1950]);
     ("mileage", Col_int64 [-1; 0; 5; 6])].

Definition pricing_cleaned : DataFrame :=
  mk_df [0; 1; 2; 3]
    [("listing_id", Col_Int64 [Some 1; Some 2; Some 3; Some 4]);
     ("price", Col_float64 [nan; float_of_Z 10; float_of_Z 3; float_of_Z 4]);
     ("year", Col_Int64 [None; None; Some 2000; Some 1950]);
     ("mileage", Col_Int64 [None; Some 0; Some 5; Some 6])].

(** An appearance table with the flags of the specification, then a
    flag in mixed case between spaces, one after a space, and a missing
    one. *)
Definition appearance_table : DataFrame :=
  mk_df [0; 1; 2; 3; 4; 5; 6]
    [("listing_id", Col_int64 [1; 2; 3; 4; 5; 6; 7]);
     ("sunroof",
      Col_object [PyStr "Yes"; PyStr "0"; PyStr "TRUE"; PyStr "maybe";
                  PyStr "  yEs "; PyStr " NO"; PyFloat nan])].

Definition appearance_cleaned : DataFrame :=
  mk_df [0; 1; 2; 3; 4; 5; 6]
    [("listing_id",
      Col_Int64 [Some 1; Some 2; Some 3; Some 4; Some 5; Some 6; Some 7]);
     ("sunroof",
      Col_object [PyBool true; PyBool false; PyBool true; PyFloat nan;
                  PyBool true; PyBool false; PyFloat nan])].

(** A core table whose first url is blank and whose second is missing. *)
Definition core_blank_url : DataFrame :=
  mk_df [0; 1]
    [("listing_id", Col_int64 [1; 2]);
     ("url", Col_object [PyStr "   "; PyFloat nan])].

Definition core_blank_url_cleaned : DataFrame :=
  mk_df [0]
    [("listing_id", Col_Int64 [Some 1]);
     ("url", Col_string [Some ""])].

(** A core table whose keys are text: "1" and "1.0" are two keys as read,
    and one key once coerced; "x" keeps the column from being numeric. *)
Definition core_text_keys : DataFrame :=
  mk_df [0; 1; 2]
    [("listing_id", Col_object [PyStr "1"; PyStr "1.0"; PyStr "x"]);
     ("url", Col_object [PyStr "a"; PyStr "b"; PyStr "c"])].

Definition core_text_keys_cleaned : DataFrame :=
  mk_df [0; 1]
    [("listing_id", Col_Int64 [Some 1; Some 1]);
     ("url", Col_string [Some "a"; Some "b"])].

(** A pricing table with the year 2020.5. *)
Definition pricing_half_year : DataFrame :=
  mk_df [0]
    [("listing_id", Col_int64 [1]);
     ("year", Col_float64 [S754_finite false 4041 (-1)])].

(** ** Worlds for the runs *)

Definition empty_frame (cols : list string) : DataFrame :=
  mk_df [] (map (fun c => (c, Col_object [])) cols).

Definition environment (k : string) : option string := Some "set".

(** No database answers: [psycopg2.connect] raises. *)
Definition connection_refused : exn :=
  mk_exn DatabaseError "connection refused".

Definition world_without_database : world :=
  mk_world environment (fun _ => None)
    (fun _ c => match c with Connect => Some connection_refused | _ => None end).

(** The commit raises, and then the rollback raises too. *)
Definition commit_failed : exn := mk_exn DatabaseError "commit failed".
Definition rollback_failed : exn := mk_exn DatabaseError "rollback failed".

Definition world_failing_rollback : world :=
  mk_world environment (fun _ => None)
    (fun _ c => match c with
                | Commit => Some commit_failed
                | Rollback => Some rollback_failed
                | _ => None
                end).

(** A world with the six files, whose database accepts every call. *)
Definition one_row (cols : list string) : DataFrame :=
  mk_df [0] (map (fun c => (c, Col_int64 [1])) cols).

Definition files : list (string * DataFrame) :=
  [((BASE_DIR ++ "/core.csv")%string, core_blank_url);
   ((BASE_DIR ++ "/pricing.csv")%string, pricing_table);
   ((BASE_DIR ++ "/vehicle.csv")%string, one_row vehicle_cols);
   ((BASE_DIR ++ "/specs.csv")%string, one_row specs_cols);
   ((BASE_DIR ++ "/appearance.csv")%string, one_row appearance_cols);
   ((BASE_DIR ++ "/status.csv")%string, one_row status_cols)].

Definition world_with_tables : world :=
  mk_world environment (fun path => option_map Ok (dict_get files path))
    (fun _ _ => None).

Definition run_with_tables : state * result unit :=
  main read_decimal print_decimal 2026 world_with_tables initial.

(** Where the body of the [try] stands when that commit raises. *)
Definition state_at_failed_commit : state :=
  mk_state
    [Call Connect; Call (SetAutocommit false); Call Cursor;
     Log (ZeroRows "core"); Log (ZeroRows "pricing"); Log (ZeroRows "vehicle");
     Log (ZeroRows "specs"); Log (ZeroRows "appearance");
     Log (ZeroRows "status"); Call CursorClose; Call Commit]
    true.

(** The run of [transacting] on empty tables in a world. *)
Definition run_on_empty_tables (w : world) : state * result unit :=
  transacting w (empty_frame core_cols) (empty_frame pricing_cols)
    (empty_frame vehicle_cols) (empty_frame specs_cols)
    (empty_frame appearance_cols) (empty_frame status_cols) initial.

(* ================================================================== *)
(** ** Notions for the cleaners as [main] runs them *)

(** The column labels of a frame, in order ([df.columns]). *)
Definition names (df : DataFrame) : list string := map fst (df_columns df).

(** The five cleaners of the child tables. *)
Definition child_cleaners (parse_number : string -> option number)
  (float_repr : float64 -> string) (current_year : Z)
  : list (DataFrame -> result DataFrame) :=
  [clean_pricing parse_number current_year;
   clean_vehicle parse_number float_repr;
   clean_specs parse_number float_repr;
   clean_appearance parse_number float_repr;
   clean_status parse_number float_repr].

(** The tables of [main], lines 243-258: the name of each, the columns
    [validate_columns] is asked for, and the cleaner that follows. *)
Definition tables (parse_number : string -> option number)
  (float_repr : float64 -> string) (current_year : Z)
  : list (string * list string * (DataFrame -> result DataFrame)) :=
  [("core", ["listing_id"; "url"], clean_core parse_number float_repr);
   ("pricing", ["listing_id"], clean_pricing parse_number current_year);
   ("vehicle", ["listing_id"], clean_vehicle parse_number float_repr);
   ("specs", ["listing_id"], clean_specs parse_number float_repr);
   ("appearance", ["listing_id"], clean_appearance parse_number float_repr);
   ("status", ["listing_id"], clean_status parse_number float_repr)].

(** The keys the cast left present. *)
Definition key_present (v : list (option Z)) : list bool :=
  map (fun o => negb (is_none o)) v.

(** The text columns, each with the cleaner that strips it. *)
Definition text_columns (parse_number : string -> option number)
  (float_repr : float64 -> string)
  : list ((DataFrame -> result DataFrame) * string) :=
  [(clean_vehicle parse_number float_repr, "make");
   (clean_vehicle parse_number float_repr, "model");
   (clean_specs parse_number float_repr, "engine_type");
   (clean_specs parse_number float_repr, "transmission");
   (clean_specs parse_number float_repr, "drive_type");
   (clean_specs parse_number float_repr, "steering_wheel");
   (clean_specs parse_number float_repr, "comfort");
   (clean_appearance parse_number float_repr, "body_type");
   (clean_appearance parse_number float_repr, "color");
   (clean_appearance parse_number float_repr, "interior_material");
   (clean_status parse_number float_repr, "condition")].

(** Text made of whitespace only, and text with none at either end. *)
Fixpoint all_space (s : string) : bool :=
  match s with
  | EmptyString => true
  | String c t => is_space c && all_space t
  end.

Definition first_char (s : string) : option ascii :=
  match s with
  | EmptyString => None
  | String c _ => Some c
  end.

Fixpoint last_char (s : string) : option ascii :=
  match s with
  | EmptyString => None
  | String c EmptyString => Some c
  | String _ t => last_char t
  end.

Definition trimmed (s : string) : Prop :=
  (forall c, first_char s = Some c -> is_space c = false)
  /\ (forall c, last_char s = Some c -> is_space c = false).

(** ** What a load sends *)

(** The kinds of value a column of a cleaned table gives the loader. *)
Inductive kind :=
| Key             (* an int, never None *)
| RequiredText    (* a str, never None *)
| Text            (* a str or None *)
| Number          (* an int, a float that is no NaN, a bool, or None *)
| Integer         (* an int or None *)
| Flag.           (* a bool or None *)

Definition of_kind (k : kind) (x : scalar) : Prop :=
  match k with
  | Key => exists z, x = PyInt z
  | RequiredText => exists s, x = PyStr s
  | Text => x = PyNone \/ exists s, x = PyStr s
  | Number => x = PyNone
              \/ (exists z, x = PyInt z)
              \/ (exists f, x = PyFloat f /\ is_nan f = false)
              \/ (exists b, x = PyBool b)
  | Integer => x = PyNone \/ exists z, x = PyInt z
  | Flag => x = PyNone \/ exists b, x = PyBool b
  end.

(** The six loads of [main], lines 276-319: the cleaner whose table is
    loaded, the columns asked of [rows_as_tuples], and the kind of each. *)
Definition loaded_tables (parse_number : string -> option number)
  (float_repr : float64 -> string) (current_year : Z)
  : list ((DataFrame -> result DataFrame) * list string * list kind) :=
  [(clean_core parse_number float_repr, core_cols, [Key; RequiredText]);
   (clean_pricing parse_number current_year, pricing_cols,
    [Key; Number; Integer; Integer]);
   (clean_vehicle parse_number float_repr, vehicle_cols, [Key; Text; Text]);
   (clean_specs parse_number float_repr, specs_cols,
    [Key; Number; Text; Text; Text; Text; Number; Text]);
   (clean_appearance parse_number float_repr, appearance_cols,
    [Key; Text; Text; Text; Flag]);
   (clean_status parse_number float_repr, status_cols, [Key; Flag; Text])].

(** A specs table with an engine size of zero and a negative one, a
    wheel size of zero and a negative one, and text to strip. *)
Definition specs_table : DataFrame :=
  mk_df [0; 1; 2]
    [("listing_id", Col_int64 [1; 2; 3]);
     ("engine_size",
      Col_float64 [S754_zero false; S754_finite false 5 (-1);
                   S754_finite true 1 0]);
     ("wheel_size", Col_int64 [17; 0; -3]);
     ("comfort",
      Col_object [PyStr " AC "; PyFloat nan; PyStr "heated seats  "])].

Definition specs_cleaned : DataFrame :=
  mk_df [0; 1; 2]
    [("listing_id", Col_Int64 [Some 1; Some 2; Some 3]);
     ("engine_size", Col_float64 [nan; S754_finite false 5 (-1); nan]);
     ("wheel_size", Col_float64 [float_of_Z 17; nan; nan]);
     ("comfort", Col_string [Some "AC"; None; Some "heated seats"])].

(** A vehicle table whose first two rows share a key. *)
Definition vehicle_repeated_key : DataFrame :=
  mk_df [0; 1; 2]
    [("listing_id", Col_int64 [7; 7; 8]);
     ("make", Col_object [PyStr " Audi"; PyStr "BMW"; PyStr "Kia "])].

Definition vehicle_repeated_key_cleaned : DataFrame :=
  mk_df [0; 2]
    [("listing_id", Col_Int64 [Some 7; Some 8]);
     ("make", Col_string [Some "Audi"; Some "Kia"])].

(** ** Notions for the runs *)

(** Every event a computation adds to the run satisfies [P]. *)
Definition emits {A} (P : event -> Prop) (m : M A) : Prop :=
  forall st st' r, m st = (st', r) ->
                   exists tr, trace st' = trace st ++ tr /\ Forall P tr.

(** The events of one batch that went through: its statement, then the
    progress record, which counts the rows up to the end of the batch. *)
Definition batch_events (table : string) (cols : list string) (total : nat)
  (sb : nat * list (list scalar)) : list event :=
  [Call (ExecuteValues (insert_sql table cols) (snd sb)
           (List.length (snd sb)));
   Log (InsertedBatch table (fst sb) (fst sb + List.length (snd sb)) total)].

(** The events of one pass of the loop of [insert_batches]. *)
Definition start_events (table : string) (cols : list string)
  (rows : list (list scalar)) (start : nat) : list event :=
  [Call (statement_at table cols rows start);
   Log (InsertedBatch table start
          (Nat.min (start + BATCH_SIZE) (List.length rows))
          (List.length rows))].

(** A world whose environment is set and whose database accepts every
    call; no file is there. *)
Definition world_accepting : world :=
  mk_world environment (fun _ => None) (fun _ _ => None).

(** The variables [get_conn] asks for, line 64. *)
Definition required_env : list string :=
  ["PGHOST"; "PGDATABASE"; "PGUSER"; "PGPASSWORD"].

(** The assignments to [os.environ] at the head of the script, lines
    26-30. *)
Definition os_environ : list (string * string) :=
  [("PGHOST", "localhost");
   ("PGPORT", "5432");
   ("PGDATABASE", "car_market");
   ("PGUSER", "sergey");
   ("PGPASSWORD", "1111")].

(** A variable is set, and not to the empty string. *)
Definition is_set (w : world) (k : string) : Prop :=
  exists v, getenv w k = Some v /\ v <> "".

(** The world the script makes for itself: its own environment. *)
Definition world_of_script (files : string -> option (result DataFrame))
  (database : list event -> db_call -> option exn) : world :=
  mk_world (dict_get os_environ) files database.

(** The events of a load: a statement, or a record of the loader. *)
Definition load_event (ev : event) : bool :=
  match ev with
  | Call (ExecuteValues _ _ _) => true
  | Log (ZeroRows _) => true
  | Log (InsertedBatch _ _ _ _) => true
  | _ => false
  end.

(** The events between the connection and the commit: the start of the
    transaction, the cursor, and the loads. *)
Definition inner_event (ev : event) : bool :=
  match ev with
  | Call (SetAutocommit _) => true
  | Call Cursor => true
  | Call CursorClose => true
  | _ => load_event ev
  end.

(** What [main] does to a table before it connects: the file is read,
    the columns are checked, the table is cleaned. *)
Definition preflight (w : world) (name : string) (required : list string)
  (clean : DataFrame -> result DataFrame) (df : DataFrame) : Prop :=
  exists raw,
    source w name = Some (Ok raw)
    /\ validate_columns raw required name = Ok tt
    /\ clean raw = Ok df.

(** The record [read_csv] logs for a table it has read, line 81. *)
Definition loaded (name : string) (df : DataFrame) : event :=
  Log (Loaded name (n_rows df)
         match dict_get CSV_FILES name with
         | Some path => path
         | None => EmptyString
         end).

(** The names of the six files, in the order [main] reads them. *)
Definition table_names : list string :=
  ["core"; "pricing"; "vehicle"; "specs"; "appearance"; "status"].

(** A world with the six files, whose core file has no [url] column. *)
Definition core_without_url : DataFrame :=
  mk_df [0] [("listing_id", Col_int64 [1])].

Definition files_without_url : list (string * DataFrame) :=
  [((BASE_DIR ++ "/core.csv")%string, core_without_url);
   ((BASE_DIR ++ "/pricing.csv")%string, pricing_table);
   ((BASE_DIR ++ "/vehicle.csv")%string, one_row vehicle_cols);
   ((BASE_DIR ++ "/specs.csv")%string, one_row specs_cols);
   ((BASE_DIR ++ "/appearance.csv")%string, one_row appearance_cols);
   ((BASE_DIR ++ "/status.csv")%string, one_row status_cols)].

Definition world_without_url : world :=
  mk_world environment
    (fun path => option_map Ok (dict_get files_without_url path))
    (fun _ _ => None).

(** The six loads of the Transacting stage, lines 276-319: the table,
    the columns sent, and the cleaned frame they are taken from. *)
Definition loadings (core pricing vehicle specs appearance status : DataFrame)
  : list (string * list string * DataFrame) :=
  [("core", core_cols, core);
   ("pricing", pricing_cols, pricing);
   ("vehicle", vehicle_cols, vehicle);
   ("specs", specs_cols, specs);
   ("appearance", appearance_cols, appearance);
   ("status", status_cols, status)].

(** Every error a computation raises satisfies [Q]. *)
Definition raises_only {A} (Q : exn -> Prop) (m : M A) : Prop :=
  forall st st' e, m st = (st', Raise e) -> Q e.

(** * Theorems *)
(* ================================================================== *)

(** ** The scalar normalizer *)

Lemma to_py_none_iff (x : scalar) : to_py x = PyNone <-> isna x = true.
Proof.
  unfold to_py.
  destruct x as [| |b|z|f|s|b|z|f]; simpl; try (split; congruence).
  all: destruct (is_nan f); simpl; split; congruence.
Qed.

Lemma to_py_plain (x : scalar) : is_plain (to_py x) = true.
Proof.
  unfold to_py.
  destruct x as [| |b|z|f|s|b|z|f]; simpl; try reflexivity.
  all: destruct (is_nan f); reflexivity.
Qed.

Lemma to_py_idempotent (x : scalar) : to_py (to_py x) = to_py x.
Proof.
  unfold to_py.
  destruct x as [| |b|z|f|s|b|z|f]; simpl; try reflexivity.
  all: destruct (is_nan f) eqn:E; simpl; [reflexivity | now rewrite E].
Qed.

(** C9.  [to_py] is a total function of the scalar.  It returns [None]
    exactly on the missing markers ([None], [NA], NaN); its result is
    always a plain Python value; a present scalar that exposes [item()]
    is replaced by what [item()] returns; and [to_py] applied to its own
    result changes nothing. *)
Theorem to_py_total_idempotent (x : scalar) :
  (to_py x = PyNone <-> isna x = true)
  /\ is_plain (to_py x) = true
  /\ (isna x = false -> hasattr_item x = true ->
      exists v, item x = Some (Ok v) /\ is_plain v = true /\ to_py x = v)
  /\ to_py (to_py x) = to_py x.
Proof.
  split; [apply to_py_none_iff|].
  split; [apply to_py_plain|].
  split.
  - intros Hna Hit. unfold to_py. rewrite Hna, Hit.
    destruct x; simpl in *; try discriminate; eexists; repeat split.
  - apply to_py_idempotent.
Qed.

(** ** Lists under a mask *)

Lemma rbind_ok {A B} (r : result A) (k : A -> result B) (b : B) :
  rbind r k = Ok b -> exists a, r = Ok a /\ k a = Ok b.
Proof. destruct r as [a|e]; simpl; [eauto | discriminate]. Qed.

Lemma subseq_refl {A} (l : list A) : subseq l l.
Proof. induction l; constructor; assumption. Qed.

Lemma subseq_trans {A} (a b c : list A) :
  subseq a b -> subseq b c -> subseq a c.
Proof.
  intros Hab Hbc. revert a Hab.
  induction Hbc as [|x s l _ IH|x s l _ IH]; intros a Hab.
  - assumption.
  - inversion Hab; subst.
    + constructor. now apply IH.
    + apply subseq_drop. now apply IH.
  - apply subseq_drop. now apply IH.
Qed.

Lemma subseq_In {A} (s l : list A) (x : A) : subseq s l -> In x s -> In x l.
Proof.
  induction 1; simpl; intuition.
Qed.

Lemma select_subseq {A} (m : list bool) (l : list A) : subseq (select m l) l.
Proof.
  revert m. induction l as [|x l IH]; intros [|b m]; simpl.
  - constructor.
  - constructor.
  - clear. induction (x :: l); constructor; assumption.
  - destruct b; constructor; apply IH.
Qed.

Lemma select_In {A} (m : list bool) (l : list A) (x : A) :
  In x (select m l) -> In x l.
Proof. apply subseq_In, select_subseq. Qed.

Lemma select_map {A B} (f : A -> B) (m : list bool) (l : list A) :
  select m (map f l) = map f (select m l).
Proof.
  revert m. induction l as [|x l IH]; intros [|b m]; simpl; try reflexivity.
  destruct b; simpl; now rewrite IH.
Qed.

Lemma select_combine {A B} (m : list bool) (a : list A) (b : list B) :
  select m (combine a b) = combine (select m a) (select m b).
Proof.
  revert a b. induction m as [|c m IH]; intros a b; [reflexivity|].
  destruct a as [|x a]; [reflexivity|].
  destruct b as [|y b].
  - simpl. now destruct c, (select m a).
  - simpl. destruct c; simpl; now rewrite IH.
Qed.

Lemma select_length {A B} (m : list bool) (a : list A) (b : list B) :
  List.length a = List.length b ->
  List.length (select m a) = List.length (select m b).
Proof.
  revert m b. induction a as [|x a IH]; intros m [|y b] H;
    try discriminate.
  - now destruct m.
  - destruct m as [|[] m]; simpl; auto.
Qed.

Lemma zip_with_length {A B C} (f : A -> B -> C) (l : list A) (r : list B) :
  List.length l = List.length r ->
  List.length (zip_with f l r) = List.length l.
Proof.
  revert r. induction l as [|x l IH]; intros [|y r] H; try discriminate;
    simpl; auto.
Qed.

Lemma mapM_ok_length {A B} (f : A -> result B) (l : list A) (r : list B) :
  mapM f l = Ok r -> List.length r = List.length l.
Proof.
  revert r. induction l as [|x l IH]; simpl; intros r H.
  - now inversion H.
  - destruct (f x); [|discriminate].
    destruct (mapM f l); [|discriminate].
    inversion H; subst. simpl. f_equal. now apply IH.
Qed.

Lemma mapM_ok_Forall2 {A B} (f : A -> result B) (l : list A) (r : list B) :
  mapM f l = Ok r -> Forall2 (fun x y => f x = Ok y) l r.
Proof.
  revert r. induction l as [|x l IH]; simpl; intros r H.
  - inversion H. constructor.
  - destruct (f x) eqn:E; [|discriminate].
    destruct (mapM f l); [|discriminate].
    inversion H; subst. constructor; auto.
Qed.

(** ** Lengths of columns *)

Lemma col_values_length (c : column) : List.length (col_values c) = col_len c.
Proof.
  destruct c as [[v|v|v|v]|v|v]; simpl; now rewrite ?length_map.
Qed.

Lemma col_select_len {A} (m : list bool) (c : column) (l : list A) :
  col_len c = List.length l ->
  col_len (col_select m c) = List.length (select m l).
Proof.
  destruct c as [[v|v|v|v]|v|v]; simpl; apply select_length.
Qed.

Lemma col_values_select (m : list bool) (c : column) :
  col_values (col_select m c) = select m (col_values c).
Proof.
  destruct c as [[v|v|v|v]|v|v]; simpl; now rewrite ?select_map.
Qed.

Lemma arr_isna_length (a : numeric_array) :
  List.length (arr_isna a) = arr_len a.
Proof. destruct a; simpl; apply length_map. Qed.

Lemma arr_lt0_length (a : numeric_array) :
  List.length (arr_lt0 a) = arr_len a.
Proof. destruct a; simpl; apply length_map. Qed.

Lemma arr_le0_length (a : numeric_array) :
  List.length (arr_le0 a) = arr_len a.
Proof. destruct a; simpl; apply length_map. Qed.

Lemma set_where_length {A} (m : list bool) (x : A) (l : list A) :
  List.length m = List.length l ->
  List.length (set_where m x l) = List.length l.
Proof.
  intros H. unfold set_where. rewrite zip_with_length; assumption.
Qed.

Lemma loc_set_na_len (m : list bool) (a : numeric_array) :
  List.length m = arr_len a -> col_len (loc_set_na m a) = arr_len a.
Proof.
  intros H. unfold loc_set_na.
  destruct m as [|b m]; [reflexivity|].
  destruct a as [v|v|v|v]; cbn [col_len arr_len Col_float64 Col_Int64] in *.
  - rewrite set_where_length; rewrite length_map; auto.
  - now rewrite set_where_length.
  - rewrite set_where_length; rewrite length_map; auto.
  - now rewrite set_where_length.
Qed.

Lemma astype_Int64_length (a : numeric_array) (v : list (option Z)) :
  astype_Int64 a = Ok v -> List.length v = arr_len a.
Proof.
  destruct a as [l|l|l|l]; simpl; intros H.
  - destruct (forallb in_int64 l); inversion H. apply length_map.
  - destruct (float_cast_error l); inversion H. apply length_map.
  - inversion H. apply length_map.
  - now inversion H.
Qed.

(** The cells of [Series.map(d)], whichever dtype the column has. *)
Lemma series_map_values (d : list (string * bool)) (v : list (option string)) :
  col_values (series_map d v) = map (fun o => mapped_cell (mapped d o)) v.
Proof.
  unfold series_map. destruct (forallb is_some (map (mapped d) v)) eqn:E.
  - simpl. rewrite !map_map. apply map_ext_in. intros o Ho.
    rewrite forallb_forall in E.
    specialize (E _ (in_map (mapped d) _ _ Ho)).
    now destruct (mapped d o).
  - simpl. now rewrite map_map.
Qed.

Lemma series_map_len (d : list (string * bool)) (v : list (option string)) :
  col_len (series_map d v) = List.length v.
Proof.
  now rewrite <- col_values_length, series_map_values, length_map.
Qed.

Section Lengths.

Variable parse_number : string -> option number.
Variable float_repr : float64 -> string.

Lemma convert_numeric_len (v : list scalar) :
  arr_len (convert_numeric parse_number v) = List.length v.
Proof.
  unfold convert_numeric.
  destruct (all_int64 v); [simpl; apply length_map|].
  destruct (forallb _ _); [destruct (_ && _); [|destruct (_ || _)]|]; simpl;
    now rewrite !length_map.
Qed.

Lemma to_numeric_len (c : column) :
  arr_len (to_numeric parse_number c) = col_len c.
Proof.
  destruct c as [a|v|v]; simpl; [reflexivity| |].
  - apply convert_numeric_len.
  - rewrite convert_numeric_len. apply length_map.
Qed.

Lemma astype_string_length (c : column) :
  List.length (astype_string float_repr c) = col_len c.
Proof.
  destruct c as [a|v|v]; simpl; rewrite ?length_map;
    [apply (col_values_length (Col_numeric a))|reflexivity|reflexivity].
Qed.

Lemma na_where_len (bad : numeric_array -> list kleene) (a : numeric_array) :
  List.length (bad a) = arr_len a -> col_len (na_where bad a) = arr_len a.
Proof.
  intros H. unfold na_where. apply loc_set_na_len.
  unfold mask_true, arr_notna.
  rewrite length_map, zip_with_length; rewrite length_map, arr_isna_length;
    auto.
Qed.

Lemma Int64_na_where_length (bad : list (option Z) -> list kleene)
  (v : list (option Z)) :
  List.length (bad v) = List.length v ->
  List.length (Int64_na_where bad v) = List.length v.
Proof.
  intros H. unfold Int64_na_where. apply set_where_length.
  unfold mask_true, Int64_notna.
  rewrite length_map, zip_with_length; rewrite length_map; auto.
Qed.

End Lengths.

(** ** The shape of a frame through the steps of a cleaner *)

Lemma shapes_refl (df : DataFrame) : shapes df df.
Proof. split; [apply subseq_refl | auto]. Qed.

Lemma shapes_trans (a b c : DataFrame) : shapes a b -> shapes b c -> shapes a c.
Proof.
  intros [S1 W1] [S2 W2]. split; [eapply subseq_trans; eauto | auto].
Qed.

Lemma dict_get_In {V} (d : list (string * V)) (k : string) (v : V) :
  dict_get d k = Some v -> In (k, v) d.
Proof.
  induction d as [|[k' v'] d IH]; simpl; [discriminate|].
  destruct (String.eqb k k') eqn:E.
  - apply String.eqb_eq in E. intros H. inversion H. subst. now left.
  - intros H. right. now apply IH.
Qed.

Lemma getitem_wf (df : DataFrame) (name : string) (c : column) :
  well_formed df -> getitem df name = Ok c -> col_len c = n_rows df.
Proof.
  unfold well_formed, getitem. intros W H.
  destruct (dict_get (df_columns df) name) eqn:E; inversion H; subst.
  apply dict_get_In in E. rewrite Forall_forall in W. apply (W _ E).
Qed.

Lemma shapes_select (m : list bool) (df : DataFrame) :
  shapes df (df_select m df).
Proof.
  split; [apply select_subseq|].
  unfold well_formed, n_rows. simpl. intros W.
  rewrite Forall_map. eapply Forall_impl; [|exact W].
  intros [n c] H. simpl in *. now apply col_select_len.
Qed.

Lemma shapes_setitem (df : DataFrame) (name : string) (c : column) :
  (well_formed df -> col_len c = n_rows df) -> shapes df (setitem df name c).
Proof.
  intros L. split; [apply subseq_refl|].
  intros W. specialize (L W). revert W.
  unfold well_formed, n_rows in *. simpl.
  induction (df_columns df) as [|[n c'] cols IH]; simpl; intros W.
  - constructor; [assumption|constructor].
  - inversion W; subst. destruct (String.eqb name n); constructor; auto.
Qed.

Lemma drop_duplicates_ok (df : DataFrame) (key : string) (df' : DataFrame) :
  drop_duplicates df key = Ok df' ->
  exists k, getitem df key = Ok k
            /\ df' = df_select (map negb (col_duplicated k)) df.
Proof.
  unfold drop_duplicates. intros H. apply rbind_ok in H as (k & Hk & H).
  inversion H. eauto.
Qed.

Lemma dropna_ok (df : DataFrame) (subset : list string) (df' : DataFrame) :
  dropna df subset = Ok df' ->
  exists m, all_notna df subset = Ok m /\ df' = df_select m df.
Proof.
  unfold dropna. intros H. apply rbind_ok in H as (m & Hm & H).
  inversion H. eauto.
Qed.

Lemma when_column_ok (df : DataFrame) (col : string)
  (f : DataFrame -> string -> result DataFrame) (df' : DataFrame) :
  when_column df col f = Ok df' ->
  (has_column df col = false /\ df' = df)
  \/ (has_column df col = true /\ f df col = Ok df').
Proof.
  unfold when_column. destruct (has_column df col); intros H.
  - now right.
  - left. inversion H. auto.
Qed.

Section Shapes.

Variable parse_number : string -> option number.
Variable float_repr : float64 -> string.
Variable current_year : Z.

Lemma pd_to_numeric_ok (c : column) (a : numeric_array) :
  pd_to_numeric parse_number c = Ok a -> a = to_numeric parse_number c.
Proof.
  unfold pd_to_numeric. destruct c as [n|v|v];
    [| destruct (existsb beyond_float v) |]; intros H; now inversion H.
Qed.

Lemma coerce_key_ok (df df' : DataFrame) :
  coerce_key parse_number df = Ok df' ->
  exists k v, getitem df "listing_id" = Ok k
              /\ astype_Int64 (to_numeric parse_number k) = Ok v
              /\ df' = setitem df "listing_id" (Col_Int64 v).
Proof.
  unfold coerce_key. intros H.
  apply rbind_ok in H as (k & Hk & H).
  apply rbind_ok in H as (a & Ha & H).
  apply pd_to_numeric_ok in Ha. subst a.
  apply rbind_ok in H as (v & Hv & H).
  inversion H. eauto.
Qed.

Lemma strip_column_ok (df : DataFrame) (col : string) (df' : DataFrame) :
  strip_column float_repr df col = Ok df' ->
  exists c, getitem df col = Ok c
            /\ df' = setitem df col
                       (Col_string (str_strip (astype_string float_repr c))).
Proof.
  unfold strip_column. intros H. apply rbind_ok in H as (c & Hc & H).
  inversion H. eauto.
Qed.

Lemma clean_number_ok bad (df : DataFrame) (col : string) (df' : DataFrame) :
  clean_number parse_number bad df col = Ok df' ->
  exists c, getitem df col = Ok c
            /\ df' = setitem df col
                       (na_where bad (to_numeric parse_number c)).
Proof.
  unfold clean_number. intros H. apply rbind_ok in H as (c & Hc & H).
  apply rbind_ok in H as (a & Ha & H).
  apply pd_to_numeric_ok in Ha. subst a.
  inversion H. eauto.
Qed.

Lemma clean_integer_ok bad (df : DataFrame) (col : string) (df' : DataFrame) :
  clean_integer parse_number bad df col = Ok df' ->
  exists c v, getitem df col = Ok c
              /\ astype_Int64 (to_numeric parse_number c) = Ok v
              /\ df' = setitem df col (Col_Int64 (Int64_na_where bad v)).
Proof.
  unfold clean_integer. intros H.
  apply rbind_ok in H as (c & Hc & H).
  apply rbind_ok in H as (a & Ha & H).
  apply pd_to_numeric_ok in Ha. subst a.
  apply rbind_ok in H as (v & Hv & H).
  inversion H. eauto.
Qed.

Lemma clean_flag_ok (df : DataFrame) (col : string) (df' : DataFrame) :
  clean_flag float_repr df col = Ok df' ->
  exists c, getitem df col = Ok c
            /\ df' = setitem df col
                       (series_map bool_vocabulary
                          (str_strip
                             (str_lower (astype_string float_repr c)))).
Proof.
  unfold clean_flag. intros H. apply rbind_ok in H as (c & Hc & H).
  inversion H. eauto.
Qed.

Lemma drop_duplicates_shapes df key df' :
  drop_duplicates df key = Ok df' -> shapes df df'.
Proof.
  intros H. apply drop_duplicates_ok in H as (k & _ & ->).
  apply shapes_select.
Qed.

Lemma dropna_shapes df subset df' :
  dropna df subset = Ok df' -> shapes df df'.
Proof.
  intros H. apply dropna_ok in H as (m & _ & ->). apply shapes_select.
Qed.

Lemma coerce_key_shapes df df' :
  coerce_key parse_number df = Ok df' -> shapes df df'.
Proof.
  intros H. apply coerce_key_ok in H as (k & v & Hk & Hv & ->).
  apply shapes_setitem. intros W. simpl.
  rewrite (astype_Int64_length _ _ Hv), to_numeric_len.
  now apply getitem_wf with (name := "listing_id").
Qed.

Lemma strip_column_shapes df col df' :
  strip_column float_repr df col = Ok df' -> shapes df df'.
Proof.
  intros H. apply strip_column_ok in H as (c & Hc & ->).
  apply shapes_setitem. intros W. simpl. unfold str_strip.
  rewrite length_map, astype_string_length.
  now apply getitem_wf with (name := col).
Qed.

Lemma strip_columns_shapes cols df df' :
  strip_columns float_repr df cols = Ok df' -> shapes df df'.
Proof.
  revert df. induction cols as [|col cols IH]; simpl; intros df H.
  - inversion H. apply shapes_refl.
  - destruct (has_column df col); [|now apply IH].
    apply rbind_ok in H as (df1 & H1 & H).
    eapply shapes_trans; [eapply strip_column_shapes; eauto | now apply IH].
Qed.

Lemma clean_number_shapes bad df col df' :
  (forall a, List.length (bad a) = arr_len a) ->
  clean_number parse_number bad df col = Ok df' -> shapes df df'.
Proof.
  intros B H. apply clean_number_ok in H as (c & Hc & ->).
  apply shapes_setitem. intros W.
  rewrite na_where_len, to_numeric_len; [|apply B].
  now apply getitem_wf with (name := col).
Qed.

Lemma clean_integer_shapes bad df col df' :
  (forall v, List.length (bad v) = List.length v) ->
  clean_integer parse_number bad df col = Ok df' -> shapes df df'.
Proof.
  intros B H. apply clean_integer_ok in H as (c & v & Hc & Hv & ->).
  apply shapes_setitem. intros W. simpl.
  rewrite Int64_na_where_length; [|apply B].
  rewrite (astype_Int64_length _ _ Hv), to_numeric_len.
  now apply getitem_wf with (name := col).
Qed.

Lemma clean_flag_shapes df col df' :
  clean_flag float_repr df col = Ok df' -> shapes df df'.
Proof.
  intros H. apply clean_flag_ok in H as (c & Hc & ->).
  apply shapes_setitem. intros W. rewrite series_map_len.
  unfold str_strip, str_lower.
  rewrite !length_map, astype_string_length.
  now apply getitem_wf with (name := col).
Qed.

Lemma when_column_shapes df col f df' :
  (forall d d', f d col = Ok d' -> shapes d d') ->
  when_column df col f = Ok df' -> shapes df df'.
Proof.
  intros F H. apply when_column_ok in H as [[_ ->]|[_ H]];
    [apply shapes_refl | now apply F].
Qed.

Lemma year_out_of_range_length (v : list (option Z)) :
  List.length (year_out_of_range current_year v) = List.length v.
Proof.
  unfold year_out_of_range, Int64_lt, Int64_gt.
  rewrite zip_with_length; now rewrite !length_map.
Qed.

Lemma Int64_lt_length (k : Z) (v : list (option Z)) :
  List.length (Int64_lt v k) = List.length v.
Proof. apply length_map. Qed.

End Shapes.

Ltac split_steps H :=
  repeat match type of H with
         | rbind _ _ = Ok _ => apply rbind_ok in H; destruct H as (? & ? & H)
         end.

Ltac solve_shape :=
  first
    [ eapply drop_duplicates_shapes; eassumption
    | eapply dropna_shapes; eassumption
    | eapply coerce_key_shapes; eassumption
    | eapply strip_column_shapes; eassumption
    | eapply strip_columns_shapes; eassumption
    | eapply clean_flag_shapes; eassumption
    | eapply clean_number_shapes; [ | eassumption ];
      first [apply arr_lt0_length | apply arr_le0_length]
    | eapply clean_integer_shapes; [ | eassumption ];
      first [apply year_out_of_range_length | intros; apply Int64_lt_length]
    | eapply when_column_shapes; [ | eassumption ]; intros; solve_shape ].

Ltac chain_shapes H :=
  split_steps H;
  repeat (eapply shapes_trans; [solve_shape|]);
  first [solve_shape | apply shapes_refl].

Section CleanerShapes.

Variable parse_number : string -> option number.
Variable float_repr : float64 -> string.
Variable current_year : Z.

Lemma clean_core_shapes df df' :
  clean_core parse_number float_repr df = Ok df' -> shapes df df'.
Proof. unfold clean_core. intros H. chain_shapes H. Qed.

Lemma clean_pricing_shapes df df' :
  clean_pricing parse_number current_year df = Ok df' -> shapes df df'.
Proof. unfold clean_pricing. intros H. chain_shapes H. Qed.

Lemma clean_vehicle_shapes df df' :
  clean_vehicle parse_number float_repr df = Ok df' -> shapes df df'.
Proof. unfold clean_vehicle. intros H. chain_shapes H. Qed.

Lemma clean_specs_shapes df df' :
  clean_specs parse_number float_repr df = Ok df' -> shapes df df'.
Proof. unfold clean_specs. intros H. chain_shapes H. Qed.

Lemma clean_appearance_shapes df df' :
  clean_appearance parse_number float_repr df = Ok df' -> shapes df df'.
Proof. unfold clean_appearance. intros H. chain_shapes H. Qed.

Lemma clean_status_shapes df df' :
  clean_status parse_number float_repr df = Ok df' -> shapes df df'.
Proof. unfold clean_status. intros H. chain_shapes H. Qed.

Lemma cleaners_shapes clean df df' :
  In clean (cleaners parse_number float_repr current_year) ->
  clean df = Ok df' -> shapes df df'.
Proof.
  unfold cleaners. simpl.
  intros [<-|[<-|[<-|[<-|[<-|[<-|[]]]]]]];
    eauto using clean_core_shapes, clean_pricing_shapes,
      clean_vehicle_shapes, clean_specs_shapes, clean_appearance_shapes,
      clean_status_shapes.
Qed.

End CleanerShapes.

(** ** The row materializer *)

Lemma zip_with_cons_length {A} (c : list A) (rows : list (list A)) :
  List.length c = List.length rows ->
  List.length (zip_with cons c rows) = List.length c.
Proof. apply zip_with_length. Qed.

Lemma zip_with_cons_head {A} (d : A) (c : list A) (rows : list (list A)) :
  List.length c = List.length rows ->
  map (fun t => nth 0 t d) (zip_with cons c rows) = c.
Proof.
  revert rows. induction c as [|x c IH]; intros [|r rows] H;
    try discriminate; simpl; [reflexivity|].
  f_equal. apply IH. now inversion H.
Qed.

Lemma zip_with_cons_tail {A} (d : A) (k : nat) (c : list A)
  (rows : list (list A)) :
  List.length c = List.length rows ->
  map (fun t => nth (S k) t d) (zip_with cons c rows)
  = map (fun t => nth k t d) rows.
Proof.
  revert rows. induction c as [|x c IH]; intros [|r rows] H;
    try discriminate; simpl; [reflexivity|].
  f_equal. apply IH. now inversion H.
Qed.

(** [zip_rows] transposes: as many tuples as the columns are long, and
    the [k]-th components of the tuples are the [k]-th column. *)
Lemma zip_rows_transposes (n : nat) (cs : list (list scalar)) :
  cs <> [] ->
  Forall (fun c => List.length c = n) cs ->
  List.length (zip_rows cs) = n
  /\ forall k c, nth_error cs k = Some c ->
                 map (fun t => nth k t PyNone) (zip_rows cs) = c.
Proof.
  induction cs as [|c cs IH]; [congruence|].
  intros _ F. inversion F as [|? ? Hc Hcs]; subst.
  destruct cs as [|c2 cs].
  - simpl. split; [apply length_map|].
    intros [|k] c' Hk; simpl in Hk.
    + inversion Hk; subst. rewrite map_map. simpl. apply map_id.
    + now destruct k.
  - destruct IH as [L T]; [congruence|assumption|].
    change (zip_rows (c :: c2 :: cs))
      with (zip_with cons c (zip_rows (c2 :: cs))).
    split.
    + rewrite zip_with_cons_length; congruence.
    + intros [|k] c' Hk; simpl in Hk.
      * inversion Hk; subst. apply zip_with_cons_head. congruence.
      * rewrite zip_with_cons_tail by congruence. now apply T.
Qed.

Lemma Forall2_nth_error {A B} (R : A -> B -> Prop) (l : list A) (r : list B)
  (k : nat) (x : A) :
  Forall2 R l r -> nth_error l k = Some x ->
  exists y, nth_error r k = Some y /\ R x y.
Proof.
  intros F. revert k. induction F as [|a b l r Hab F IH]; intros [|k] H;
    simpl in *; try discriminate.
  - inversion H; subst. eauto.
  - now apply IH.
Qed.

(** The tuples of a well-formed frame: one per row, in row order, their
    [k]-th components the normalised cells of the [k]-th column asked. *)
Lemma rows_as_tuples_rows (df : DataFrame) (cols : list string)
  (rows : list (list scalar)) :
  well_formed df -> cols <> [] ->
  rows_as_tuples df cols = Ok rows ->
  List.length rows = n_rows df
  /\ forall k name, nth_error cols k = Some name ->
       exists c, getitem df name = Ok c
                 /\ map (fun t => nth k t PyNone) rows
                    = map to_py (col_values c).
Proof.
  intros W NE H. unfold rows_as_tuples, itertuples in H.
  apply rbind_ok in H as (zs & H & E). inversion E; subst; clear E.
  apply rbind_ok in H as (cs & Hcs & E). inversion E; subst; clear E.
  pose proof (mapM_ok_Forall2 _ _ _ Hcs) as F.
  assert (Hlen : Forall (fun c => List.length c = n_rows df)
                   (map col_values cs)).
  { rewrite Forall_map. clear -F W.
    induction F as [|n c l r Hn F IH]; constructor; auto.
    rewrite col_values_length. eapply getitem_wf; eauto. }
  assert (Hne : map col_values cs <> []).
  { destruct cols; [congruence|]. inversion F. discriminate. }
  destruct (zip_rows_transposes _ _ Hne Hlen) as [L T].
  split; [now rewrite length_map|].
  intros k name Hk.
  destruct (Forall2_nth_error _ _ _ _ _ F Hk) as (c & Hc & Hget).
  exists c. split; [assumption|].
  rewrite <- (T k (col_values c)) at 1
    by (rewrite nth_error_map, Hc; reflexivity).
  rewrite !map_map. apply map_ext. intros t.
  change PyNone with (to_py PyNone) at 1. apply map_nth.
Qed.


(** ** Cells through the steps of a cleaner *)

Lemma dict_get_map {V W} (f : V -> W) (d : list (string * V)) (k : string) :
  dict_get (map (fun kv => (fst kv, f (snd kv))) d) k
  = option_map f (dict_get d k).
Proof.
  induction d as [|[k' v] d IH]; simpl; [reflexivity|].
  destruct (String.eqb k k'); [reflexivity | exact IH].
Qed.

Lemma dict_get_replace_same (cols : list (string * column)) (n : string)
  (c : column) : dict_get (replace_column cols n c) n = Some c.
Proof.
  induction cols as [|[n' c'] cols IH]; simpl.
  - now rewrite String.eqb_refl.
  - destruct (String.eqb n n') eqn:E; simpl; rewrite E; [reflexivity|exact IH].
Qed.

Lemma dict_get_replace_other (cols : list (string * column)) (n name : string)
  (c : column) :
  name <> n -> dict_get (replace_column cols n c) name = dict_get cols name.
Proof.
  intros NE. apply String.eqb_neq in NE.
  induction cols as [|[n' c'] cols IH]; simpl.
  - now rewrite NE.
  - destruct (String.eqb n n') eqn:E; simpl.
    + apply String.eqb_eq in E. subst n'. now rewrite NE.
    + destruct (String.eqb name n'); [reflexivity | exact IH].
Qed.

Lemma getitem_setitem_same (df : DataFrame) (n : string) (c : column) :
  getitem (setitem df n c) n = Ok c.
Proof. unfold getitem, setitem. simpl. now rewrite dict_get_replace_same. Qed.

Lemma getitem_setitem_other (df : DataFrame) (n name : string) (c : column) :
  name <> n -> getitem (setitem df n c) name = getitem df name.
Proof.
  intros NE. unfold getitem, setitem. simpl.
  now rewrite dict_get_replace_other.
Qed.

Lemma getitem_select (m : list bool) (df : DataFrame) (name : string) :
  getitem (df_select m df) name
  = rbind (getitem df name) (fun c => Ok (col_select m c)).
Proof.
  unfold getitem, df_select. simpl. rewrite dict_get_map.
  now destruct (dict_get (df_columns df) name).
Qed.

Lemma cells_select (m : list bool) (df : DataFrame) (name : string) :
  cells (df_select m df) name = select m (cells df name).
Proof.
  unfold cells. rewrite getitem_select.
  destruct (getitem df name) as [c|e]; simpl.
  - unfold labelled. simpl. now rewrite col_values_select, select_combine.
  - now destruct m.
Qed.

Lemma cells_setitem_same (df : DataFrame) (n : string) (c : column) :
  cells (setitem df n c) n = combine (df_index df) (col_values c).
Proof. unfold cells. now rewrite getitem_setitem_same. Qed.

Lemma cells_setitem_other (df : DataFrame) (n name : string) (c : column) :
  name <> n -> cells (setitem df n c) name = cells df name.
Proof.
  intros NE. unfold cells. now rewrite getitem_setitem_other.
Qed.

Lemma has_column_false_cells (df : DataFrame) (name : string) :
  has_column df name = false -> cells df name = [].
Proof.
  unfold has_column, cells, getitem.
  now destruct (dict_get (df_columns df) name).
Qed.

Lemma Forall2_combine_In {A B C} (R : B -> C -> Prop) (idx : list A)
  (l : list B) (r : list C) (i : A) (z : C) :
  Forall2 R l r -> In (i, z) (combine idx r) ->
  exists x, In (i, x) (combine idx l) /\ R x z.
Proof.
  intros F. revert idx. induction F as [|x y l r Hxy F IH]; intros idx H.
  - destruct idx; contradiction.
  - destruct idx as [|j idx]; [contradiction|]. simpl in H.
    destruct H as [H|H].
    + inversion H; subst. exists x. split; [now left | assumption].
    + destruct (IH _ H) as (x' & Hin & HR). exists x'. split;
        [now right | assumption].
Qed.

Lemma tracks_same (name : string) (df : DataFrame) : tracks eq name df df.
Proof. intros i z H. eauto. Qed.

Lemma tracks_select (m : list bool) (name : string) (df : DataFrame) :
  tracks eq name df (df_select m df).
Proof.
  intros i z H. rewrite cells_select in H. apply select_In in H. eauto.
Qed.

Lemma tracks_setitem_other (n name : string) (c : column) (df : DataFrame) :
  name <> n -> tracks eq name df (setitem df n c).
Proof.
  intros NE i z H. rewrite cells_setitem_other in H by assumption. eauto.
Qed.

Lemma tracks_setitem_same (R : scalar -> scalar -> Prop) (name : string)
  (c c' : column) (df : DataFrame) :
  getitem df name = Ok c ->
  Forall2 R (col_values c) (col_values c') ->
  tracks R name df (setitem df name c').
Proof.
  intros G F i z H. rewrite cells_setitem_same in H.
  unfold cells, labelled. rewrite G.
  eapply Forall2_combine_In; eauto.
Qed.

Lemma tracks_before (R : scalar -> scalar -> Prop) (name : string)
  (a b c : DataFrame) :
  tracks eq name a b -> tracks R name b c -> tracks R name a c.
Proof.
  intros T1 T2 i z H.
  destruct (T2 _ _ H) as (y & Hy & HR).
  destruct (T1 _ _ Hy) as (x & Hx & <-). eauto.
Qed.

Lemma tracks_after (R : scalar -> scalar -> Prop) (name : string)
  (a b c : DataFrame) :
  tracks R name a b -> tracks eq name b c -> tracks R name a c.
Proof.
  intros T1 T2 i z H.
  destruct (T2 _ _ H) as (y & Hy & <-). eauto.
Qed.

Lemma tracks_absent (R : scalar -> scalar -> Prop) (name : string)
  (df : DataFrame) :
  has_column df name = false -> tracks R name df df.
Proof.
  intros H i z Hin. rewrite (has_column_false_cells _ _ H) in Hin.
  contradiction.
Qed.

Lemma Forall2_map_In {A B C} (R : B -> C -> Prop) (f : A -> B) (g : A -> C)
  (l : list A) :
  (forall y, In y l -> R (f y) (g y)) -> Forall2 R (map f l) (map g l).
Proof.
  induction l as [|y l IH]; simpl; intros H; constructor.
  - apply H. now left.
  - apply IH. intros z Hz. apply H. now right.
Qed.

Lemma Forall2_map_of {A B} (g : A -> B) (l : list A) :
  Forall2 (fun x z => z = g x) l (map g l).
Proof. induction l; simpl; constructor; auto. Qed.

Lemma Forall2_chain {A B C} (R : A -> B -> Prop) (S : B -> C -> Prop)
  (T : A -> C -> Prop) (l1 : list A) (l2 : list B) (l3 : list C) :
  (forall x y z, R x y -> S y z -> T x z) ->
  Forall2 R l1 l2 -> Forall2 S l2 l3 -> Forall2 T l1 l3.
Proof.
  intros H F. revert l3. induction F as [|x y l1 l2 Hxy F IH]; intros l3 G.
  - inversion G. constructor.
  - inversion G; subst. constructor; eauto.
Qed.

Section Steps.

Variable parse_number : string -> option number.
Variable float_repr : float64 -> string.
Variable current_year : Z.

Lemma drop_duplicates_tracks name df key df' :
  drop_duplicates df key = Ok df' -> tracks eq name df df'.
Proof.
  intros H. apply drop_duplicates_ok in H as (k & _ & ->).
  apply tracks_select.
Qed.

Lemma dropna_tracks name df subset df' :
  dropna df subset = Ok df' -> tracks eq name df df'.
Proof.
  intros H. apply dropna_ok in H as (m & _ & ->). apply tracks_select.
Qed.

Lemma coerce_key_tracks name df df' :
  name <> "listing_id" ->
  coerce_key parse_number df = Ok df' -> tracks eq name df df'.
Proof.
  intros NE H. apply coerce_key_ok in H as (k & v & _ & _ & ->).
  now apply tracks_setitem_other.
Qed.

Lemma strip_column_tracks name df col df' :
  name <> col ->
  strip_column float_repr df col = Ok df' -> tracks eq name df df'.
Proof.
  intros NE H. apply strip_column_ok in H as (c & _ & ->).
  now apply tracks_setitem_other.
Qed.

Lemma strip_columns_tracks name cols df df' :
  ~ In name cols ->
  strip_columns float_repr df cols = Ok df' -> tracks eq name df df'.
Proof.
  revert df. induction cols as [|col cols IH]; simpl; intros df NI H.
  - inversion H. apply tracks_same.
  - assert (N1 : name <> col) by (intros ->; apply NI; now left).
    assert (N2 : ~ In name cols) by (intros Hin; apply NI; now right).
    destruct (has_column df col); [|now apply IH].
    apply rbind_ok in H as (df1 & H1 & H).
    eapply tracks_before;
      [eapply strip_column_tracks; eassumption | now apply IH].
Qed.

Lemma clean_number_tracks name bad df col df' :
  name <> col ->
  clean_number parse_number bad df col = Ok df' -> tracks eq name df df'.
Proof.
  intros NE H. apply clean_number_ok in H as (c & _ & ->).
  now apply tracks_setitem_other.
Qed.

Lemma clean_integer_tracks name bad df col df' :
  name <> col ->
  clean_integer parse_number bad df col = Ok df' -> tracks eq name df df'.
Proof.
  intros NE H. apply clean_integer_ok in H as (c & v & _ & _ & ->).
  now apply tracks_setitem_other.
Qed.

Lemma clean_flag_tracks name df col df' :
  name <> col ->
  clean_flag float_repr df col = Ok df' -> tracks eq name df df'.
Proof.
  intros NE H. apply clean_flag_ok in H as (c & _ & ->).
  now apply tracks_setitem_other.
Qed.

(** A step under [if col in df.columns], on the column it rewrites and
    on any other. *)
Lemma when_column_rule R df col f df' :
  (forall d d', f d col = Ok d' -> tracks R col d d') ->
  when_column df col f = Ok df' -> tracks R col df df'.
Proof.
  intros F H. apply when_column_ok in H as [[A ->]|[_ H]];
    [now apply tracks_absent | now apply F].
Qed.

Lemma when_column_tracks name df col f df' :
  (forall d d', f d col = Ok d' -> tracks eq name d d') ->
  when_column df col f = Ok df' -> tracks eq name df df'.
Proof.
  intros F H. apply when_column_ok in H as [[_ ->]|[_ H]];
    [apply tracks_same | now apply F].
Qed.

(** *** Text and flags *)

Lemma astype_string_values (c : column) :
  astype_string float_repr c = map (cell_text float_repr) (col_values c).
Proof.
  destruct c as [a|v|v]; try reflexivity.
  simpl. rewrite map_map. rewrite <- (map_id v) at 1.
  apply map_ext. now intros [s|].
Qed.

Lemma strip_column_rule df col df' :
  strip_column float_repr df col = Ok df' ->
  tracks (text_rule float_repr) col df df'.
Proof.
  intros H. apply strip_column_ok in H as (c & Hc & ->).
  eapply tracks_setitem_same; [exact Hc|].
  simpl. unfold str_strip. rewrite astype_string_values, !map_map.
  apply Forall2_map_of.
Qed.

Lemma clean_flag_rule df col df' :
  clean_flag float_repr df col = Ok df' ->
  tracks (flag_rule float_repr) col df df'.
Proof.
  intros H. apply clean_flag_ok in H as (c & Hc & ->).
  eapply tracks_setitem_same; [exact Hc|].
  rewrite series_map_values. unfold str_strip, str_lower.
  rewrite astype_string_values, !map_map.
  rewrite <- (map_id (col_values c)) at 1.
  apply Forall2_map_In. intros x _. unfold flag_rule, flag_of_text.
  destruct (cell_text float_repr x); [|reflexivity]. simpl.
  now destruct (dict_get bool_vocabulary (strip (lower s))).
Qed.

End Steps.

(** ** Numbers through [to_numeric], the cast and the domain mask *)

Lemma zip_with_map {A B C D} (f : B -> C -> D) (a : A -> B) (b : A -> C)
  (l : list A) :
  zip_with f (map a l) (map b l) = map (fun y => f (a y) (b y)) l.
Proof. induction l; simpl; congruence. Qed.

Lemma set_where_map {A B} (t : A -> bool) (g : A -> B) (x : B) (l : list A) :
  set_where (map t l) x (map g l) = map (fun y => if t y then x else g y) l.
Proof. unfold set_where. apply zip_with_map. Qed.

(** The float of an integer: zero, the integer itself up to 2^53, and
    beyond a float of magnitude at least 2^53, or infinity; the sign is
    kept. *)
Lemma float_of_Z_cases (z : Z) :
  (z = 0 /\ float_of_Z z = S754_zero false)
  \/ (z <> 0 /\ Z.abs z <= 2 ^ 53
      /\ float_of_Z z = S754_finite (z <? 0) (Z.to_pos (Z.abs z)) 0)
  \/ (2 ^ 53 < Z.abs z
      /\ ((exists m e, float_of_Z z = S754_finite (z <? 0) m e
                       /\ 0 < e /\ 2 ^ 53 <= Z.pos m * 2 ^ e)
          \/ float_of_Z z = S754_infinity (z <? 0))).
Proof.
  unfold float_of_Z. cbv zeta.
  destruct (Z.eqb_spec (Z.abs z) 0) as [E|E]; [left; split; [lia|reflexivity]|].
  destruct (Z.leb_spec (Z.abs z) (2 ^ 53)) as [L|L];
    [right; left; repeat split; [lia|assumption]|].
  right. right. split; [assumption|].
  set (a := Z.abs z) in *. set (sh := Z.log2 a - 52).
  assert (Hsh : 1 <= sh).
  { assert (53 <= Z.log2 a); [|unfold sh; lia].
    change 53 with (Z.log2 (2 ^ 53)). apply Z.log2_le_mono. lia. }
  assert (Hp : 0 < 2 ^ sh) by (apply Z.pow_pos_nonneg; lia).
  assert (Hq : 2 ^ 52 <= a / 2 ^ sh).
  { apply Z.div_le_lower_bound; [assumption|].
    rewrite <- Z.pow_add_r by lia.
    replace (sh + 52) with (Z.log2 a) by (unfold sh; lia).
    apply Z.log2_spec. lia. }
  set (q := a / 2 ^ sh) in *.
  set (q' := if (a mod 2 ^ sh <? 2 ^ (sh - 1))
                || (a mod 2 ^ sh =? 2 ^ (sh - 1)) && Z.even q
             then q else q + 1).
  assert (Hq' : q <= q') by (unfold q'; destruct (_ || _); lia).
  destruct (2 ^ 1024 <=? q' * 2 ^ sh); [now right|].
  left. exists (Z.to_pos q'), sh. split; [reflexivity|]. split; [lia|].
  rewrite Z2Pos.id by (change (2 ^ 52) with 4503599627370496 in Hq; lia).
  assert (Hp2 : 2 <= 2 ^ sh).
  { change 2 with (2 ^ 1) at 1. apply Z.pow_le_mono_r; lia. }
  change (2 ^ 53) with (2 ^ 52 * 2). 
  apply Z.mul_le_mono_nonneg; 
    change (2 ^ 52) with 4503599627370496 in *; lia.
Qed.

Lemma float_lt0_of_Z (z : Z) : float_lt0 (float_of_Z z) = (z <? 0).
Proof.
  destruct (float_of_Z_cases z)
    as [[-> ->]|[(_ & _ & ->)|(_ & [(m & e & -> & _)| ->])]];
    simpl; try reflexivity; now destruct (z <? 0).
Qed.

Lemma float_le0_of_Z (z : Z) : float_le0 (float_of_Z z) = (z <=? 0).
Proof.
  destruct (float_of_Z_cases z)
    as [[-> ->]|[(N & _ & ->)|(N & [(m & e & -> & _)| ->])]];
    try reflexivity; simpl;
    destruct (Z.ltb_spec z 0), (Z.leb_spec z 0); try reflexivity;
    change (2 ^ 53) with 9007199254740992 in *; lia.
Qed.

Lemma is_nan_of_Z (z : Z) : is_nan (float_of_Z z) = false.
Proof.
  destruct (float_of_Z_cases z)
    as [[-> ->]|[(_ & _ & ->)|(_ & [(m & e & -> & _)| ->])]]; reflexivity.
Qed.

Lemma float_to_Z_finite (s : bool) (m : positive) (e : Z) :
  0 <= e -> float_to_Z (S754_finite s m e) = Some (signed s (Z.pos m * 2 ^ e)).
Proof.
  intros H. unfold float_to_Z. now destruct (Z.leb_spec 0 e); [|lia].
Qed.

(** Up to 2^53 the conversion is exact. *)
Lemma float_to_Z_of_Z (z : Z) :
  - 2 ^ 53 <= z <= 2 ^ 53 -> float_to_Z (float_of_Z z) = Some z.
Proof.
  intros B.
  destruct (float_of_Z_cases z)
    as [[-> ->]|[(N & _ & ->)|(N & _)]]; [reflexivity| |lia].
  rewrite float_to_Z_finite by lia.
  f_equal. rewrite Z2Pos.id by lia. change (2 ^ 0) with 1.
  destruct (Z.ltb_spec z 0); unfold signed; lia.
Qed.

(** Beyond 2^53 the float is an integer of the same sign, of magnitude
    at least 2^53, or it is infinite. *)
Lemma float_to_Z_of_big (z k : Z) :
  2 ^ 53 < Z.abs z -> float_to_Z (float_of_Z z) = Some k ->
  (0 < z -> 2 ^ 53 <= k) /\ (z < 0 -> k <= - 2 ^ 53).
Proof.
  intros B H.
  destruct (float_of_Z_cases z)
    as [[-> _]|[(_ & N & _)|(_ & [(m & e & E & He & Hm)|E])]];
    [simpl in B; lia | lia | | rewrite E in H; discriminate].
  rewrite E, float_to_Z_finite in H by lia.
  remember (Z.pos m * 2 ^ e) as v eqn:V. clear V E.
  assert (K : k = signed (z <? 0) v) by congruence. subst k.
  destruct (Z.ltb_spec z 0); unfold signed; split; intros; lia.
Qed.

(** The sign of a float that is an integer. *)
Lemma float_to_Z_sign (f : float64) (k : Z) :
  float_to_Z f = Some k ->
  is_nan f = false
  /\ float_lt0 f = (k <? 0) /\ float_le0 f = (k <=? 0).
Proof.
  destruct f as [s|s| |s m e]; simpl; try discriminate.
  - intros H. inversion H; subst. auto.
  - assert (P : forall q, 0 < q ->
                  false = false
                  /\ (if s then true else false) = (signed s q <? 0)
                  /\ (if s then true else false) = (signed s q <=? 0)).
    { intros q Hq. split; [reflexivity|].
      destruct s; simpl;
        [destruct (Z.ltb_spec (- q) 0), (Z.leb_spec (- q) 0)
        |destruct (Z.ltb_spec q 0), (Z.leb_spec q 0)];
        (split; [reflexivity || lia | reflexivity || lia]). }
    destruct (0 <=? e) eqn:E.
    + intros H. inversion H; subst.
      replace (match s with true => true | false => false end)
        with (if s then true else false) by now destruct s.
      assert (0 < 2 ^ e) by (apply Z.pow_pos_nonneg; lia).
      destruct s; apply (P (Z.pos m * 2 ^ e)); lia.
    + destruct (Z.eqb_spec (Z.pos m mod 2 ^ (- e)) 0) as [D|D];
        [|discriminate].
      intros H. inversion H; subst.
      assert (Hp : 0 < 2 ^ (- e)) by (apply Z.pow_pos_nonneg; lia).
      assert (Hq : 0 < Z.pos m / 2 ^ (- e)).
      { pose proof (Z.div_mod (Z.pos m) (2 ^ (- e)) ltac:(lia)) as DM.
        rewrite D in DM.
        destruct (Z.lt_trichotomy (Z.pos m / 2 ^ (- e)) 0) as [N|[N|N]];
          [nia | rewrite N in DM; lia | assumption]. }
      destruct s; apply (P _ Hq).
Qed.

Lemma number_to_Z_sign (n : number) (k : Z) :
  number_to_Z n = Some k ->
  number_nan n = false
  /\ number_lt0 n = (k <? 0) /\ number_le0 n = (k <=? 0).
Proof.
  destruct n as [z|f]; simpl.
  - intros H. inversion H; subst. auto.
  - apply float_to_Z_sign.
Qed.

Lemma small_in_int64 (z : Z) : - 2 ^ 53 <= z <= 2 ^ 53 -> in_int64 z = true.
Proof.
  intros [A B]. unfold in_int64, int64_min, int64_max.
  apply andb_true_iff; split; apply Z.leb_le.
  - apply Z.le_trans with (- 2 ^ 53); [vm_compute; discriminate | exact A].
  - apply Z.le_trans with (2 ^ 53); [exact B | vm_compute; discriminate].
Qed.

Lemma upcast_refl (n : number) : upcast_of n n.
Proof. now left. Qed.

Lemma promoted_upcast (a b : number) : promoted a b -> upcast_of a b.
Proof.
  intros [->| ->]; [now left|].
  destruct a as [z|f]; [right; exists z; auto | now left].
Qed.

(** A coerced number, promoted: still the raw number in another dtype. *)
Lemma upcast_promoted (a b c : number) :
  upcast_of a b -> promoted b c -> upcast_of a c.
Proof.
  intros U [->| ->]; [exact U|].
  destruct U as [->|(k & K & [->| ->])].
  - apply promoted_upcast. now right.
  - right. exists k. auto.
  - right. exists k. auto.
Qed.

Lemma upcast_sign (a b : number) :
  upcast_of a b ->
  number_nan b = number_nan a
  /\ number_lt0 b = number_lt0 a /\ number_le0 b = number_le0 a.
Proof.
  intros [->|(k & K & [->| ->])]; [auto| |];
    destruct (number_to_Z_sign _ _ K) as (N & L & E); simpl;
    rewrite N, L, E; auto.
  rewrite is_nan_of_Z, float_lt0_of_Z, float_le0_of_Z. auto.
Qed.

Lemma upcast_nan (a b : number) :
  upcast_of a b -> number_nan b = number_nan a.
Proof. intros U. apply (upcast_sign _ _ U). Qed.

Lemma upcast_lt0 (a b : number) :
  upcast_of a b -> number_lt0 b = number_lt0 a.
Proof. intros U. apply (upcast_sign _ _ U). Qed.

Lemma upcast_le0 (a b : number) :
  upcast_of a b -> number_le0 b = number_le0 a.
Proof. intros U. apply (upcast_sign _ _ U). Qed.

(** What the cast reads in a coerced number: the integer of the raw one
    when that is at most 2^53 in magnitude, and beyond an integer of the
    same sign and at least 2^53 in magnitude, if any. *)
Lemma upcast_to_Z (a b : number) (k : Z) :
  upcast_of a b -> number_to_Z a = Some k ->
  (- 2 ^ 53 <= k <= 2 ^ 53 -> number_to_Z b = Some k)
  /\ (forall k', number_to_Z b = Some k' ->
        k' = k
        \/ ((2 ^ 53 < k -> 2 ^ 53 <= k') /\ (k < - 2 ^ 53 -> k' <= - 2 ^ 53)
            /\ 2 ^ 53 < Z.abs k)).
Proof.
  intros [->|(j & J & [->| ->])] K; [| |]; try (rewrite K in J; inversion J; subst j).
  - split; [auto|]. intros k' H. left. congruence.
  - split; [auto|]. intros k' H. left. cbn [number_to_Z] in H. congruence.
  - split; [intros B; now apply float_to_Z_of_Z|].
    intros k' H. cbn [number_to_Z] in H.
    destruct (Z.le_gt_cases (Z.abs k) (2 ^ 53)) as [B|B].
    + left. rewrite float_to_Z_of_Z in H by lia. congruence.
    + right. destruct (float_to_Z_of_big _ _ B H) as [P N].
      repeat split; [intros; apply P; lia | intros; apply N; lia | lia].
Qed.

Lemma isna_scalar_number (x : scalar) :
  is_text x = false -> isna x = number_nan (scalar_number x).
Proof. destruct x; intros H; try reflexivity; discriminate. Qed.

Lemma as_number_present (x : scalar) :
  is_text x = false -> isna x = false ->
  as_number x = Some (scalar_number x).
Proof. destruct x; intros H1 H2; try reflexivity; discriminate. Qed.

Lemma arr_values_not_text (a : numeric_array) :
  Forall (fun x => is_text x = false) (arr_values a).
Proof.
  destruct a as [v|v|v|v]; simpl; rewrite Forall_map, Forall_forall; auto.
  now intros [z|] _.
Qed.

Section Numbers.

Variable parse_number : string -> option number.

Lemma object_number_scalar (x : scalar) :
  is_text x = false -> object_number parse_number x = scalar_number x.
Proof. destruct x; intros H; try reflexivity; discriminate. Qed.

Lemma as_int64_number (x : scalar) (z : Z) :
  as_int64 x = Some z ->
  number_to_Z (object_number parse_number x) = Some z.
Proof.
  unfold as_int64, number_to_int64.
  destruct x; simpl; try discriminate;
    match goal with
    | |- context [float_to_Z ?f] => destruct (float_to_Z f); [|discriminate]
    | _ => idtac
    end;
    match goal with
    | |- context [in_int64 ?k] => destruct (in_int64 k); [|discriminate]
    end; intros H; now inversion H.
Qed.

Lemma convert_numeric_values (v : list scalar) :
  Forall2 (fun x y => is_text y = false
                      /\ upcast_of (object_number parse_number x)
                           (scalar_number y))
    v (arr_values (convert_numeric parse_number v)).
Proof.
  unfold convert_numeric. destruct (all_int64 v) eqn:A.
  { assert (F : forall x, In x v -> exists z, as_int64 x = Some z).
    { destruct v as [|x0 v]; [discriminate|]. unfold all_int64 in A.
      apply andb_true_iff in A as [_ A]. rewrite forallb_forall in A.
      intros x Hx. specialize (A _ Hx).
      destruct (as_int64 x); [eauto|discriminate]. }
    simpl. rewrite map_map. rewrite <- (map_id v) at 1.
    apply Forall2_map_In. intros x Hx. destruct (F _ Hx) as [z Hz].
    rewrite Hz. split; [reflexivity|]. right. exists z.
    split; [now apply as_int64_number | now left]. }
  destruct (forallb number_is_int _) eqn:I.
  - rewrite forallb_forall in I.
    assert (Hint : forall x, In x v ->
              exists z, object_number parse_number x = NumInt z).
    { intros x Hx.
      specialize (I _ (in_map (object_number parse_number) _ _ Hx)).
      destruct (object_number parse_number x); [eauto|discriminate]. }
    destruct (_ && _) eqn:B; [|destruct (_ || _)]; simpl; rewrite !map_map;
      rewrite <- (map_id v) at 1; apply Forall2_map_In; intros x Hx.
    + apply andb_true_iff in B as [_ B]. rewrite forallb_forall in B.
      specialize (B _ Hx). split; [reflexivity|].
      destruct x; try discriminate; simpl; left; now destruct b.
    + destruct (Hint _ Hx) as (z & ->). split; [reflexivity|now left].
    + destruct (Hint _ Hx) as (z & ->). split; [reflexivity|].
      right. exists z. auto.
  - simpl. rewrite !map_map. rewrite <- (map_id v) at 1.
    apply Forall2_map_In. intros x _. split; [reflexivity|].
    apply promoted_upcast. now right.
Qed.

(** The number in a cell of [to_numeric(c)] is the number read in the
    raw cell, as an int or as a float. *)
Lemma to_numeric_values (c : column) :
  Forall2 (fun x y => is_text y = false
                      /\ upcast_of (object_number parse_number x)
                           (scalar_number y))
    (col_values c) (arr_values (to_numeric parse_number c)).
Proof.
  destruct c as [a|v|v]; simpl.
  - pose proof (arr_values_not_text a) as T.
    induction T as [|x l Hx T IH]; constructor; auto.
    split; [assumption|]. rewrite object_number_scalar by assumption.
    apply upcast_refl.
  - apply convert_numeric_values.
  - apply convert_numeric_values.
Qed.

End Numbers.

(** ** The cast of a float64 column *)

Lemma nanmax_In (l : list float64) (x : float64) :
  nanmax l = Some x -> In x l /\ is_nan x = false.
Proof.
  revert x. induction l as [|f l IH]; simpl; intros x H; [discriminate|].
  destruct (is_nan f) eqn:N.
  - destruct (IH _ H). auto.
  - destruct (nanmax l) as [g|].
    + destruct (float_ltb f g); inversion H; subst.
      * destruct (IH _ eq_refl). auto.
      * auto.
    + inversion H; subst. auto.
Qed.

Lemma nanmax_none (l : list float64) :
  nanmax l = None -> Forall (fun f => is_nan f = true) l.
Proof.
  induction l as [|f l IH]; simpl; intros H; [constructor|].
  destruct (is_nan f) eqn:N.
  - constructor; auto.
  - destruct (nanmax l) as [g|]; [destruct (float_ltb f g)|]; discriminate.
Qed.

Lemma fits_int64_to_Z (f : float64) :
  fits_int64 f = true -> exists z, float_to_Z f = Some z /\ in_int64 z = true.
Proof.
  unfold fits_int64. destruct (float_to_Z f) as [z|]; [eauto|discriminate].
Qed.

(** The cast passes exactly on the columns whose cells are missing or
    equal to an int64. *)
Lemma float_cast_passes (v : list float64) :
  Forall (fun f => is_nan f = true \/ fits_int64 f = true) v ->
  float_cast_error v = None.
Proof.
  intros F. unfold float_cast_error.
  destruct (nanmax v) as [x|] eqn:M; [|reflexivity].
  destruct (nanmax_In _ _ M) as [Hin N].
  rewrite Forall_forall in F.
  destruct (F _ Hin) as [C|C]; [congruence|].
  destruct (fits_int64_to_Z _ C) as (z & Hz & _).
  assert (A : forallb (fun f => is_nan f || fits_int64 f) v = true).
  { apply forallb_forall. intros f Hf. apply orb_true_iff. auto. }
  destruct x; try discriminate; rewrite Hz, A; reflexivity.
Qed.

Lemma float_cast_fails (v : list float64) :
  Exists (fun f => is_nan f = false /\ fits_int64 f = false) v ->
  exists e, float_cast_error v = Some e.
Proof.
  intros E. unfold float_cast_error.
  destruct (nanmax v) as [x|] eqn:M.
  - assert (A : forallb (fun f => is_nan f || fits_int64 f) v = false).
    { apply Exists_exists in E as (f & Hf & N & C).
      destruct (forallb _ v) eqn:A; [|reflexivity].
      rewrite forallb_forall in A. specialize (A _ Hf).
      rewrite N, C in A. discriminate. }
    rewrite A.
    destruct x; try (destruct (float_to_Z _));
      try destruct (first_error object_cast_error v); eauto.
  - apply nanmax_none in M. apply Exists_exists in E as (f & Hf & N & _).
    rewrite Forall_forall in M. rewrite (M _ Hf) in N. discriminate.
Qed.

Lemma first_error_In {A} (f : A -> option exn) (l : list A) (e : exn) :
  first_error f l = Some e -> exists x, In x l /\ f x = Some e.
Proof.
  induction l as [|x l IH]; simpl; [discriminate|].
  destruct (f x) as [e'|] eqn:E.
  - intros H. inversion H; subst. eauto.
  - intros H. destruct (IH H) as (y & Hy & Fy). eauto.
Qed.

Lemma object_cast_error_class (f : float64) (e : exn) :
  object_cast_error f = Some e ->
  exn_cls e = OverflowError /\ within_long f = false.
Proof.
  unfold object_cast_error, within_long.
  destruct f; try discriminate;
    try (destruct (float_ltb _ _); [|discriminate]);
    intros H; inversion H; auto.
Qed.

(** The errors of the cast: [TypeError], or [OverflowError] from
    [int(x)]. *)
Lemma float_cast_error_class (v : list float64) (e : exn) :
  float_cast_error v = Some e ->
  (exn_cls e = TypeError \/ exn_cls e = OverflowError)
  /\ (Forall (fun f => within_long f = true) v -> exn_cls e = TypeError).
Proof.
  unfold float_cast_error. intros H.
  destruct (nanmax v) as [x|] eqn:M; [|discriminate].
  destruct (nanmax_In _ _ M) as [Hin _].
  assert (O : forall e', first_error object_cast_error v = Some e' ->
                exn_cls e' = OverflowError
                /\ (Forall (fun f => within_long f = true) v -> False)).
  { intros e' F. apply first_error_In in F as (y & Hy & Fy).
    apply object_cast_error_class in Fy as [C W]. split; [exact C|].
    intros A. rewrite Forall_forall in A. rewrite (A _ Hy) in W.
    discriminate. }
  destruct x as [s|s| |s m ex].
  - simpl in H. destruct (forallb _ v); inversion H; auto.
  - inversion H; subst. split; [auto|]. intros A.
    rewrite Forall_forall in A. specialize (A _ Hin). discriminate.
  - simpl in H. destruct (first_error object_cast_error v) as [e'|] eqn:F.
    + inversion H; subst. destruct (O _ eq_refl) as [C A].
      split; [auto|]. intros W. destruct (A W).
    + inversion H; auto.
  - destruct (float_to_Z (S754_finite s m ex)).
    + destruct (forallb _ v); inversion H; auto.
    + destruct (first_error object_cast_error v) as [e'|] eqn:F.
      * inversion H; subst. destruct (O _ eq_refl) as [C A].
        split; [auto|]. intros W. destruct (A W).
      * inversion H; auto.
Qed.

Lemma astype_Int64_class (a : numeric_array) (e : exn) :
  astype_Int64 a = Raise e ->
  exn_cls e = TypeError \/ exn_cls e = OverflowError.
Proof.
  destruct a as [l|l|l|l]; simpl; try discriminate.
  - destruct (forallb in_int64 l); [discriminate|].
    intros H. inversion H. auto.
  - destruct (float_cast_error l) as [e'|] eqn:E; [|discriminate].
    intros H. inversion H; subst. apply (float_cast_error_class _ _ E).
Qed.

Lemma set_where_same {A} (t : A -> bool) (x : A) (l : list A) :
  set_where (map t l) x l = map (fun y => if t y then x else y) l.
Proof.
  rewrite <- (map_id l) at 2. rewrite set_where_map. reflexivity.
Qed.

Lemma mask_lt0 (a : numeric_array) :
  mask_true (zip_with kleene_and (arr_notna a) (arr_lt0 a))
  = map (present_and number_lt0) (arr_values a).
Proof.
  destruct a as [v|v|v|v]; unfold arr_notna, mask_true; simpl;
    rewrite !map_map, zip_with_map, map_map; apply map_ext; intros y;
    unfold present_and; simpl.
  - now destruct (y <? 0).
  - now destruct (is_nan y), (float_lt0 y).
  - now destruct y.
  - destruct y as [z|]; simpl; [now destruct (z <? 0) | reflexivity].
Qed.

Lemma mask_le0 (a : numeric_array) :
  mask_true (zip_with kleene_and (arr_notna a) (arr_le0 a))
  = map (present_and number_le0) (arr_values a).
Proof.
  destruct a as [v|v|v|v]; unfold arr_notna, mask_true; simpl;
    rewrite !map_map, zip_with_map, map_map; apply map_ext; intros y;
    unfold present_and; simpl.
  - now destruct (y <=? 0).
  - now destruct (is_nan y), (float_le0 y).
  - now destruct y.
  - destruct y as [z|]; simpl; [now destruct (z <=? 0) | reflexivity].
Qed.

Lemma loc_set_na_values (t : scalar -> bool) (a : numeric_array) :
  Forall2 (fun y z => if t y then isna z = true
                      else is_text z = false
                           /\ promoted (scalar_number y) (scalar_number z))
    (arr_values a) (col_values (loc_set_na (map t (arr_values a)) a)).
Proof.
  unfold loc_set_na.
  destruct (map t (arr_values a)) as [|b m] eqn:E.
  - apply map_eq_nil in E. simpl. rewrite E. constructor.
  - rewrite <- E. clear E b m.
    destruct a as [v|v|v|v]; simpl;
      rewrite map_map, ?set_where_map, ?set_where_same, ?map_map;
      apply Forall2_map_In; intros y _.
    + destruct (t (PyInt y)); [reflexivity|]. split; [reflexivity|now right].
    + destruct (t (PyFloat y)); [reflexivity|]. split; [reflexivity|now left].
    + destruct (t (PyBool y)); [reflexivity|]. split; [reflexivity|now left].
    + destruct (t (opt_scalar NpInt64 y)); [reflexivity|].
      split; [now destruct y | now left].
Qed.

Lemma na_where_values (bad : numeric_array -> list kleene)
  (nbad : number -> bool) (a : numeric_array) :
  (bad = arr_lt0 /\ nbad = number_lt0) \/ (bad = arr_le0 /\ nbad = number_le0) ->
  Forall2 (masked nbad) (arr_values a) (col_values (na_where bad a)).
Proof.
  intros [[-> ->]|[-> ->]]; unfold na_where;
    rewrite ?mask_lt0, ?mask_le0; apply loc_set_na_values.
Qed.

Section NumberRules.

Variable parse_number : string -> option number.
Variable current_year : Z.

Lemma number_rule_compose (nbad : number -> bool) (x y z : scalar) :
  (forall a b, upcast_of a b -> nbad b = nbad a) ->
  is_text y = false
  /\ upcast_of (object_number parse_number x) (scalar_number y) ->
  masked nbad y z ->
  number_rule parse_number nbad x z.
Proof.
  intros Hbad [Ty Uy] M.
  unfold masked, present_and in M. unfold number_rule.
  rewrite (upcast_nan _ _ Uy), (Hbad _ _ Uy) in M.
  destruct (number_nan (object_number parse_number x)) eqn:N; simpl in *.
  - destruct M as [Tz Uz]. apply promoted_upcast in Uz.
    rewrite (isna_scalar_number _ Tz), (upcast_nan _ _ Uz),
      (upcast_nan _ _ Uy). exact N.
  - destruct (nbad (object_number parse_number x)); [exact M|].
    destruct M as [Tz Uz].
    assert (Hz : isna z = false).
    { rewrite (isna_scalar_number _ Tz),
        (upcast_nan _ _ (promoted_upcast _ _ Uz)),
        (upcast_nan _ _ Uy). exact N. }
    split; [exact Hz|].
    exists (scalar_number z). split; [now apply as_number_present|].
    eapply upcast_promoted; eauto.
Qed.

(** [clean_number] on the column it rewrites. *)
Lemma clean_number_rule bad nbad df col df' :
  (bad = arr_lt0 /\ nbad = number_lt0)
  \/ (bad = arr_le0 /\ nbad = number_le0) ->
  clean_number parse_number bad df col = Ok df' ->
  tracks (number_rule parse_number nbad) col df df'.
Proof.
  intros B H. apply clean_number_ok in H as (c & Hc & ->).
  eapply tracks_setitem_same; [exact Hc|].
  eapply Forall2_chain;
    [ | apply to_numeric_values | apply (na_where_values _ _ _ B) ].
  intros x y z. apply number_rule_compose.
  destruct B as [[_ ->]|[_ ->]]; intros a b U;
    [apply (upcast_lt0 _ _ U) | apply (upcast_le0 _ _ U)].
Qed.

(** The cast to "Int64", when it passes: the integer of each cell. *)
Lemma astype_Int64_values (a : numeric_array) (v : list (option Z)) :
  astype_Int64 a = Ok v ->
  Forall2 (fun y w => w = number_to_Z (scalar_number y)) (arr_values a) v.
Proof.
  destruct a as [l|l|l|l]; simpl; intros H.
  - destruct (forallb in_int64 l); [|discriminate].
    inversion H. apply Forall2_map_In. intros y _. reflexivity.
  - destruct (float_cast_error l); [discriminate|].
    inversion H. apply Forall2_map_In. intros y _. reflexivity.
  - inversion H. apply Forall2_map_In. intros y _. reflexivity.
  - inversion H; subst. rewrite <- (map_id v) at 2.
    apply Forall2_map_In. now intros [z|] _.
Qed.

Lemma Int64_mask (kbad : list (option Z) -> list kleene) (bad : Z -> bool)
  (v : list (option Z)) :
  (forall u, kbad u = map (option_map bad) u) ->
  mask_true (zip_with kleene_and (Int64_notna v) (kbad v))
  = map (fun w => match w with Some k => bad k | None => false end) v.
Proof.
  intros K. rewrite K. unfold mask_true, Int64_notna.
  rewrite zip_with_map, map_map. apply map_ext.
  intros [k|]; simpl; [now destruct (bad k) | reflexivity].
Qed.

Lemma year_out_of_range_cells (v : list (option Z)) :
  year_out_of_range current_year v
  = map (option_map (year_bad current_year)) v.
Proof.
  unfold year_out_of_range, Int64_lt, Int64_gt. rewrite zip_with_map.
  apply map_ext. intros [k|]; [|reflexivity]. unfold year_bad. simpl.
  now destruct (k <? 1950), (current_year <? k).
Qed.

(** [clean_integer] on the column it rewrites. *)
Lemma clean_integer_rule kbad bad df col df' :
  (forall u, kbad u = map (option_map bad) u) ->
  clean_integer parse_number kbad df col = Ok df' ->
  tracks (integer_rule parse_number bad) col df df'.
Proof.
  intros K H. apply clean_integer_ok in H as (c & v & Hc & Hv & ->).
  eapply tracks_setitem_same; [exact Hc|].
  simpl. unfold Int64_na_where.
  rewrite (Int64_mask _ _ _ K), set_where_same, map_map.
  assert (F : Forall2 (fun x w =>
                         exists n', upcast_of (object_number parse_number x) n'
                                    /\ w = number_to_Z n')
                (col_values c) v).
  { eapply Forall2_chain;
      [ | apply to_numeric_values | apply (astype_Int64_values _ _ Hv) ].
    intros x y w [_ U] ->. eauto. }
  clear -F.
  induction F as [|x w l v (n' & U & Hw) F IH]; simpl; constructor; auto.
  unfold integer_rule. exists n'. split; [exact U|]. rewrite <- Hw.
  destruct w as [k|]; [|reflexivity]. now destruct (bad k).
Qed.





End NumberRules.

(** ** The cleaners, column by column *)

Ltac other_column :=
  first
    [ eapply drop_duplicates_tracks; eassumption
    | eapply dropna_tracks; eassumption
    | eapply coerce_key_tracks; [ | eassumption ]; discriminate
    | eapply strip_column_tracks; [ | eassumption ]; discriminate
    | eapply strip_columns_tracks; [ | eassumption ];
      simpl; intuition discriminate
    | eapply clean_number_tracks; [ | eassumption ]; discriminate
    | eapply clean_integer_tracks; [ | eassumption ]; discriminate
    | eapply clean_flag_tracks; [ | eassumption ]; discriminate
    | eapply when_column_tracks; [ | eassumption ]; intros; other_column ].

(** Brings a goal [tracks R name df df'] down to the one step that
    rewrites [name]. *)
Ltac to_the_step H :=
  split_steps H;
  repeat (eapply tracks_before; [other_column|]);
  repeat (eapply tracks_after; [|other_column]).

Lemma flag_true_iff (s : string) :
  flag_of_text s = Some true <-> In (strip (lower s)) ["true"; "1"; "yes"].
Proof.
  unfold flag_of_text. generalize (strip (lower s)). intros t. simpl.
  repeat match goal with
         | |- context [String.eqb ?a ?b] =>
             destruct (String.eqb_spec a b); subst
         end;
    split; intros H; try reflexivity; try discriminate; auto;
    intuition congruence.
Qed.

Lemma flag_false_iff (s : string) :
  flag_of_text s = Some false <-> In (strip (lower s)) ["false"; "0"; "no"].
Proof.
  unfold flag_of_text. generalize (strip (lower s)). intros t. simpl.
  repeat match goal with
         | |- context [String.eqb ?a ?b] =>
             destruct (String.eqb_spec a b); subst
         end;
    split; intros H; try reflexivity; try discriminate; auto;
    intuition congruence.
Qed.


(** ** Rows the core cleaner leaves out *)

Lemma col_isna_values (c : column) : col_isna c = map isna (col_values c).
Proof.
  destruct c as [[v|v|v|v]|v|v]; simpl; rewrite ?map_map; try reflexivity;
    apply map_ext; now intros [x|].
Qed.

Lemma combine_NoDup_fun {A B} (idx : list A) (l : list B) (i : A) (a b : B) :
  NoDup idx -> In (i, a) (combine idx l) -> In (i, b) (combine idx l) -> a = b.
Proof.
  intros N. revert l. induction N as [|j idx Hj N IH]; intros [|y l] Ha Hb;
    simpl in *; try contradiction.
  destruct Ha as [Ha|Ha], Hb as [Hb|Hb].
  - congruence.
  - inversion Ha; subst. apply in_combine_l in Hb. contradiction.
  - inversion Hb; subst. apply in_combine_l in Ha. contradiction.
  - eauto.
Qed.

(** A label the mask keeps comes with a cell the mask keeps. *)
Lemma select_keeps_cell {A B} (P : B -> Prop) (m : list bool) (idx : list A)
  (vals : list B) (i : A) :
  List.length idx = List.length vals ->
  Forall2 (fun (b : bool) z => b = true -> P z) m vals ->
  In i (select m idx) ->
  exists z, In (i, z) (select m (combine idx vals)) /\ P z.
Proof.
  intros L F. revert idx L.
  induction F as [|b z m vals Hb F IH]; intros idx L H.
  - now destruct idx.
  - destruct idx as [|j idx]; [contradiction|]. simpl in L.
    simpl in *. destruct b.
    + destruct H as [->|H].
      * exists z. split; [now left | auto].
      * destruct (IH idx ltac:(lia) H) as (z' & Hz & Pz).
        exists z'. split; [now right | assumption].
    + apply IH; [lia | assumption].
Qed.

Lemma notna_mask_cells (f : scalar -> bool) (l1 l3 : list bool)
  (vals : list scalar) :
  List.length l1 = List.length vals -> List.length l3 = List.length vals ->
  Forall2 (fun (b : bool) z => b = true -> f z = false)
    (zip_with andb l1 (zip_with andb (map negb (map f vals)) l3)) vals.
Proof.
  revert l1 l3. induction vals as [|z vals IH]; intros [|a l1] [|c l3] L1 L3;
    try discriminate; simpl; constructor.
  - intros H. apply andb_true_iff in H as [_ H].
    apply andb_true_iff in H as [H _]. now destruct (f z).
  - apply IH; simpl in *; lia.
Qed.

Lemma cells_NoDup_fun (df : DataFrame) (name : string) (i : Z) (a b : scalar) :
  NoDup (df_index df) ->
  In (i, a) (cells df name) -> In (i, b) (cells df name) -> a = b.
Proof.
  unfold cells, labelled. destruct (getitem df name); [|contradiction].
  apply combine_NoDup_fun.
Qed.

Lemma text_rule_absent (float_repr : float64 -> string) (x z : scalar) :
  text_rule float_repr x z -> isna x = true -> isna z = true.
Proof.
  unfold text_rule, cell_text. intros -> ->. reflexivity.
Qed.

(** The labels [dropna] keeps, on a column of its subset: each comes with
    a present cell. *)
Lemma dropna_core_keeps_present (df df' : DataFrame) (i : Z) :
  well_formed df ->
  dropna df ["listing_id"; "url"] = Ok df' ->
  In i (df_index df') ->
  exists z, In (i, z) (cells df' "url") /\ isna z = false.
Proof.
  intros W H Hin. apply dropna_ok in H as (m & Hm & ->).
  simpl in Hm.
  apply rbind_ok in Hm as (k & Hk & Hm).
  apply rbind_ok in Hm as (m1 & Hm & E). inversion E; subst; clear E.
  apply rbind_ok in Hm as (u & Hu & Hm).
  inversion Hm; subst; clear Hm.
  rewrite cells_select. unfold cells, labelled. rewrite Hu.
  simpl in Hin.
  apply select_keeps_cell with (P := fun z => isna z = false);
    [ | | exact Hin ].
  - rewrite col_values_length. symmetry. eapply getitem_wf; eauto.
  - unfold col_notna. rewrite (col_isna_values u).
    apply notna_mask_cells.
    + rewrite length_map, col_isna_values, length_map, !col_values_length.
      rewrite (getitem_wf _ _ _ W Hk), (getitem_wf _ _ _ W Hu). reflexivity.
    + rewrite length_map, col_values_length.
      symmetry. eapply getitem_wf; eauto.
Qed.

(** ** Keys that meet after coercion *)

(** C2, at a failing input.  The keys "1" and "1.0" of [core_text_keys]
    are two values for [drop_duplicates], which runs first, and the one
    integer 1 after the coercion that follows: the cleaned table holds
    two rows with the key 1.  This holds for every reader that reads "1"
    as the integer 1, "1.0" as a float equal to 1, and rejects "x". *)
Theorem text_keys_meet_after_coercion
  (parse_number : string -> option number) (float_repr : float64 -> string) :
  parse_number "1" = Some (NumInt 1) ->
  (exists f, parse_number "1.0" = Some (NumFloat f)
             /\ float_to_Z f = Some 1) ->
  parse_number "x" = None ->
  clean_core parse_number float_repr core_text_keys
  = Ok core_text_keys_cleaned
  /\ keys_of core_text_keys_cleaned = [NpInt64 1; NpInt64 1]
  /\ ~ NoDup (keys_of core_text_keys_cleaned).
Proof.
  intros H1 (f & H2 & Hf) H3.
  split; [|split; [reflexivity|]].
  - unfold clean_core, core_text_keys, drop_duplicates, coerce_key.
    cbn -[astype_Int64 convert_numeric].
    unfold convert_numeric. cbn -[astype_Int64 float_of_Z].
    rewrite H1, H2, H3. cbn -[astype_Int64 float_of_Z].
    assert (C : astype_Int64 (Arr_float64 [float_of_Z 1; f; nan])
                = Ok [Some 1; Some 1; None]).
    { unfold astype_Int64. rewrite float_cast_passes.
      - simpl. now rewrite Hf.
      - constructor; [right; reflexivity|].
        constructor; [right; unfold fits_int64; now rewrite Hf|].
        constructor; [left; reflexivity | constructor]. }
    rewrite C. reflexivity.
  - intros N. inversion N as [|? ? Hin _]. apply Hin. now left.
Qed.

Lemma text_keys_meet_witness :
  clean_core read_decimal print_decimal core_text_keys
  = Ok core_text_keys_cleaned.
Proof.
  refine (proj1 (text_keys_meet_after_coercion read_decimal print_decimal
                   eq_refl _ eq_refl)).
  exists (S754_finite false 2 (-1)). split; reflexivity.
Defined.

(** ** A year that is no integer *)

Lemma cast_raises_on_fraction (l : list float64) :
  Exists (fun f => is_nan f = false /\ float_to_Z f = None) l ->
  exists e, astype_Int64 (Arr_float64 l) = Raise e
            /\ (exn_cls e = TypeError \/ exn_cls e = OverflowError)
            /\ (Forall (fun f => within_long f = true) l ->
                exn_cls e = TypeError).
Proof.
  intros E.
  destruct (float_cast_fails l) as [e He].
  { eapply Exists_impl; [|exact E]. intros f [N Z]. split; [exact N|].
    unfold fits_int64. now rewrite Z. }
  exists e. simpl. rewrite He. split; [reflexivity|].
  apply (float_cast_error_class _ _ He).
Qed.

(** C3, at a failing input.  The cast to "Int64" raises on a float64
    column as soon as one cell is a number that is no integer, a
    fraction or an infinity: with [TypeError], or with [OverflowError]
    where [int(x)] overflows, and with [TypeError] when no cell is
    infinite or below -2^63.  On [pricing_half_year], whose year column
    holds 2020.5, the cast of the year raises [TypeError], and the
    pricing cleaner with it: no cleaned table comes out. *)
Theorem fractional_year_raises
  (parse_number : string -> option number) (current_year : Z) :
  (forall l,
      Exists (fun f => is_nan f = false /\ float_to_Z f = None) l ->
      exists e, astype_Int64 (Arr_float64 l) = Raise e
                /\ (exn_cls e = TypeError \/ exn_cls e = OverflowError)
                /\ (Forall (fun f => within_long f = true) l ->
                    exn_cls e = TypeError))
  /\ clean_pricing parse_number current_year pricing_half_year
     = Raise (mk_exn TypeError
                "cannot safely cast non-equivalent object to int64").
Proof.
  split; [apply cast_raises_on_fraction | reflexivity].
Qed.

(** ** The batch loader *)

Lemma ceil_div_step (n d : nat) :
  (0 < d)%nat -> (0 < n)%nat -> ceil_div n d = S (ceil_div (n - d) d).
Proof.
  intros Hd Hn. unfold ceil_div.
  destruct (Nat.le_gt_cases d n) as [L|G].
  - replace (n + d - 1)%nat with ((n - d + d - 1) + 1 * d)%nat by lia.
    rewrite Nat.div_add by lia. lia.
  - replace (n - d)%nat with 0%nat by lia. simpl.
    rewrite (Nat.div_small (d - 1) d) by lia.
    assert (H : ((n + d - 1) / d = 1)%nat); [|lia].
    replace (n + d - 1)%nat with ((n - 1) + 1 * d)%nat by lia.
    rewrite Nat.div_add by lia. rewrite Nat.div_small; lia.
Qed.

Lemma range_from_length (fuel start stop step : nat) :
  (0 < step)%nat -> (stop - start <= fuel)%nat ->
  List.length (range_from fuel start stop step) = ceil_div (stop - start) step.
Proof.
  intros Hs. revert start.
  induction fuel as [|fuel IH]; intros start Hf; simpl.
  - replace (stop - start)%nat with 0%nat by lia. unfold ceil_div.
    simpl. symmetry. apply Nat.div_small. lia.
  - destruct (start <? stop)%nat eqn:E.
    + apply Nat.ltb_lt in E. simpl. rewrite IH by lia.
      rewrite (ceil_div_step (stop - start) step) by lia.
      do 2 f_equal. lia.
    + apply Nat.ltb_ge in E. replace (stop - start)%nat with 0%nat by lia.
      unfold ceil_div. simpl. symmetry. apply Nat.div_small. lia.
Qed.

Lemma range_from_lt (fuel start stop step s : nat) :
  In s (range_from fuel start stop step) -> (s < stop)%nat.
Proof.
  revert start. induction fuel as [|fuel IH]; intros start H; simpl in H;
    [contradiction|].
  destruct (start <? stop)%nat eqn:E; [|contradiction].
  apply Nat.ltb_lt in E. destruct H as [<-|H]; eauto.
Qed.

Lemma slices_cover {A} (rows : list A) (size fuel start : nat) :
  (0 < size)%nat -> (List.length rows - start <= fuel)%nat ->
  List.concat (map (fun s => slice rows s (s + size))
            (range_from fuel start (List.length rows) size))
  = skipn start rows.
Proof.
  intros Hs. revert start.
  induction fuel as [|fuel IH]; intros start Hf; simpl.
  - symmetry. apply skipn_all2. lia.
  - destruct (start <? List.length rows)%nat eqn:E.
    + simpl. rewrite IH by lia. unfold slice.
      replace (start + size - start)%nat with size by lia.
      rewrite Nat.add_comm, <- skipn_skipn. apply firstn_skipn.
    + apply Nat.ltb_ge in E. symmetry. now apply skipn_all2.
Qed.

Lemma slice_length {A} (rows : list A) (size s : nat) :
  (0 < size)%nat -> (s < List.length rows)%nat ->
  (0 < List.length (slice rows s (s + size)) <= size)%nat.
Proof.
  intros Hs Hl. unfold slice.
  rewrite length_firstn, length_skipn. lia.
Qed.

(** The batches are a partition of the rows into runs of at most [size]
    rows, in order. *)
Lemma batches_of_partition (size : nat) (rows : list (list scalar)) :
  (0 < size)%nat ->
  List.length (batches_of size rows) = ceil_div (List.length rows) size
  /\ List.concat (map snd (batches_of size rows)) = rows
  /\ Forall (fun sb => (0 < List.length (snd sb) <= size)%nat)
       (batches_of size rows).
Proof.
  intros Hs. unfold batches_of, range. repeat split.
  - rewrite length_map, range_from_length by lia. f_equal. lia.
  - rewrite map_map. simpl.
    rewrite (slices_cover rows size _ 0 Hs) by lia. reflexivity.
  - rewrite Forall_map, Forall_forall. intros s Hin. simpl.
    apply slice_length; [assumption|]. eapply range_from_lt; eauto.
Qed.

Lemma calls_of_app (a b : list event) :
  calls_of (a ++ b) = calls_of a ++ calls_of b.
Proof.
  induction a as [|[c|r] a IH]; simpl; [reflexivity| |assumption].
  now rewrite IH.
Qed.

Section Loader.

Variable w : world.

(** The loop issues the statements of its starts in order, and stops
    at the first that raises. *)
Lemma insert_loop_calls table cols rows (starts : list nat) (st : state) :
  exists st' r k,
    for_each starts (insert_one w table cols rows) st = (st', r)
    /\ conn st' = conn st
    /\ calls_of (trace st')
       = calls_of (trace st)
         ++ firstn k (map (statement_at table cols rows) starts)
    /\ (r = Ok tt -> k = List.length starts).
Proof.
  revert st. induction starts as [|s starts IH]; intros st; simpl.
  - exists st, (Ok tt), 0%nat. unfold ret. simpl.
    rewrite app_nil_r. auto.
  - unfold bind at 1. unfold insert_one at 1. unfold bind at 1.
    unfold call at 1.
    destruct (db w (trace st) _) as [e|] eqn:E.
    + eexists _, (Raise e), 1%nat. split; [reflexivity|]. simpl.
      rewrite calls_of_app. simpl. unfold statement_at.
      repeat split; discriminate.
    + unfold log, emit. simpl.
      match goal with
      | |- context [for_each starts _ ?s] =>
          destruct (IH s) as (st' & r & k & Hrun & Hc & Hcalls & Hk)
      end.
      exists st', r, (S k). split; [exact Hrun|]. simpl in *.
      split; [exact Hc|]. split.
      * rewrite Hcalls, !calls_of_app. simpl.
        rewrite <- !app_assoc. reflexivity.
      * intros R. f_equal. auto.
Qed.

End Loader.

Lemma BATCH_SIZE_pos : (0 < BATCH_SIZE)%nat.
Proof. unfold BATCH_SIZE. lia. Qed.

Lemma statements_starts (table : string) (cols : list string)
  (rows : list (list scalar)) :
  statements table cols rows
  = map (statement_at table cols rows)
      (range 0 (List.length rows) BATCH_SIZE).
Proof. unfold statements, batches_of. now rewrite map_map. Qed.

Lemma insert_batches_loop (w : world) (table : string) (cols : list string)
  (rows : list (list scalar)) :
  rows <> [] ->
  insert_batches w table cols rows
  = for_each (range 0 (List.length rows) BATCH_SIZE)
      (insert_one w table cols rows).
Proof. destruct rows; [congruence | reflexivity]. Qed.

Lemma insert_loop_returns (w : world) table cols rows (starts : list nat)
  (st : state) :
  (forall tr c, db w tr c = None) ->
  exists st', for_each starts (insert_one w table cols rows) st = (st', Ok tt).
Proof.
  intros Hdb. revert st. induction starts as [|s starts IH]; intros st; simpl.
  - now exists st.
  - unfold bind at 1. unfold insert_one at 1. unfold bind at 1.
    unfold call at 1. rewrite Hdb. unfold log, emit. simpl. apply IH.
Qed.

(** C7.  For a non-empty list of [n] rows, the batches of the loader are
    [ceil(n / 5000)] in number, each of 1 to 5000 rows, and laid end to
    end in order they are the input: every row is in exactly one batch.
    A run of the loader issues one insert statement per batch, in that
    order, each with its batch as one page: up to the first statement
    that raises in any world, and all of them when the load returns, as
    it does when no call on the database raises. *)
Theorem insert_batches_partitions_rows (w : world) (table : string)
  (cols : list string) (rows : list (list scalar)) (st : state) :
  rows <> [] ->
  BATCH_SIZE = 5000%nat
  /\ List.length (batches_of BATCH_SIZE rows)
     = ceil_div (List.length rows) BATCH_SIZE
  /\ List.concat (map snd (batches_of BATCH_SIZE rows)) = rows
  /\ Forall (fun sb => (0 < List.length (snd sb) <= BATCH_SIZE)%nat)
       (batches_of BATCH_SIZE rows)
  /\ (exists st' r k,
        insert_batches w table cols rows st = (st', r)
        /\ calls_of (trace st')
           = calls_of (trace st) ++ firstn k (statements table cols rows)
        /\ (r = Ok tt -> k = List.length (statements table cols rows)))
  /\ ((forall tr c, db w tr c = None) ->
      exists st',
        insert_batches w table cols rows st = (st', Ok tt)
        /\ calls_of (trace st')
           = calls_of (trace st) ++ statements table cols rows).
Proof.
  intros NE.
  destruct (batches_of_partition BATCH_SIZE rows BATCH_SIZE_pos)
    as (L & C & F).
  split; [reflexivity|]. split; [exact L|]. split; [exact C|].
  split; [exact F|].
  rewrite (insert_batches_loop _ _ _ _ NE), statements_starts.
  destruct (insert_loop_calls w table cols rows
              (range 0 (List.length rows) BATCH_SIZE) st)
    as (st' & r & k & Hrun & _ & Hcalls & Hk).
  split.
  - exists st', r, k. rewrite length_map. auto.
  - intros Hdb.
    destruct (insert_loop_returns w table cols rows
                (range 0 (List.length rows) BATCH_SIZE) st Hdb)
      as (st2 & Hok).
    rewrite Hok in Hrun. inversion Hrun; subst.
    exists st'. split; [exact Hok|].
    rewrite Hcalls, (Hk eq_refl), <- (length_map (statement_at table cols rows)).
    now rewrite firstn_all.
Qed.

Lemma insert_batches_partitions_witness :
  List.concat (map snd (batches_of BATCH_SIZE [[PyInt 1; PyStr "a"]]))
  = [[PyInt 1; PyStr "a"]].
Proof.
  refine (proj1 (proj2 (proj2
            (insert_batches_partitions_rows
               (mk_world (fun _ => None) (fun _ => None) (fun _ _ => None))
               "core" core_cols [[PyInt 1; PyStr "a"]] initial _)))).
  discriminate.
Defined.

(** ** Runs of the orchestrator *)

Lemma bind_ok {A B} (m : M A) (k : A -> M B) (st st' : state) (b : B) :
  bind m k st = (st', Ok b) ->
  exists a st1, m st = (st1, Ok a) /\ k a st1 = (st', Ok b).
Proof.
  unfold bind. destruct (m st) as [st1 [a|e]]; intros H;
    [eauto | discriminate].
Qed.

Lemma bind_raise {A B} (m : M A) (k : A -> M B) (st st' : state) (e : exn) :
  bind m k st = (st', Raise e) ->
  m st = (st', Raise e)
  \/ exists a st1, m st = (st1, Ok a) /\ k a st1 = (st', Raise e).
Proof.
  unfold bind. destruct (m st) as [st1 [a|e']]; intros H.
  - right. eauto.
  - left. now inversion H.
Qed.

Lemma call_ok (w : world) (c : db_call) (st st' : state) (u : unit) :
  call w c st = (st', Ok u) ->
  trace st' = trace st ++ [Call c] /\ conn st' = conn st.
Proof.
  unfold call. destruct (db w (trace st) c); intros H; inversion H.
  auto.
Qed.

Lemma keeps_conn_ret {A} (a : A) : keeps_conn (ret a).
Proof. intros st st' r H. now inversion H. Qed.

Lemma keeps_conn_raise {A} (e : exn) : keeps_conn (@raise A e).
Proof. intros st st' r H. now inversion H. Qed.

Lemma keeps_conn_lift {A} (x : result A) : keeps_conn (lift x).
Proof. intros st st' r H. now inversion H. Qed.

Lemma keeps_conn_log (r : log_record) : keeps_conn (log r).
Proof. intros st st' r' H. now inversion H. Qed.

Lemma keeps_conn_call (w : world) (c : db_call) : keeps_conn (call w c).
Proof.
  intros st st' r. unfold call.
  destruct (db w (trace st) c); intros H; now inversion H.
Qed.

Lemma keeps_conn_bind {A B} (m : M A) (k : A -> M B) :
  keeps_conn m -> (forall a, keeps_conn (k a)) -> keeps_conn (bind m k).
Proof.
  intros Hm Hk st st' r. unfold bind.
  destruct (m st) as [st1 [a|e]] eqn:E; intros H.
  - rewrite (Hk a _ _ _ H). eapply Hm; eauto.
  - inversion H; subst. eapply Hm; eauto.
Qed.

Lemma keeps_conn_try_finally {A} (m : M A) (fin : M unit) :
  keeps_conn m -> keeps_conn fin -> keeps_conn (try_finally m fin).
Proof.
  intros Hm Hf st st' r. unfold try_finally.
  destruct (m st) as [st1 r1] eqn:E.
  destruct (fin st1) as [st2 [u|e]] eqn:F; intros H; inversion H; subst;
    rewrite (Hf _ _ _ F); eapply Hm; eauto.
Qed.

Lemma keeps_conn_for_each {A} (l : list A) (body : A -> M unit) :
  (forall x, keeps_conn (body x)) -> keeps_conn (for_each l body).
Proof.
  intros Hb. induction l as [|x l IH]; simpl.
  - apply keeps_conn_ret.
  - apply keeps_conn_bind; auto.
Qed.

Lemma keeps_conn_insert_batches (w : world) table cols rows :
  keeps_conn (insert_batches w table cols rows).
Proof.
  unfold insert_batches. destruct rows; [apply keeps_conn_log|].
  apply keeps_conn_for_each. intros start.
  apply keeps_conn_bind; [apply keeps_conn_call|].
  intros _. apply keeps_conn_log.
Qed.

Lemma keeps_conn_load (w : world) table cols df :
  keeps_conn (load w table cols df).
Proof.
  unfold load. apply keeps_conn_bind; [apply keeps_conn_lift|].
  intros rows. apply keeps_conn_insert_batches.
Qed.

Lemma keeps_conn_loads (w : world) core pricing vehicle specs appearance
  status :
  keeps_conn (loads w core pricing vehicle specs appearance status).
Proof.
  unfold loads.
  repeat (apply keeps_conn_bind; [apply keeps_conn_load | intros _]).
  apply keeps_conn_load.
Qed.

Lemma keeps_conn_get_conn (w : world) : keeps_conn (get_conn w).
Proof.
  unfold get_conn. destruct (filter _ _);
    [apply keeps_conn_call | apply keeps_conn_raise].
Qed.

(** After the connection is made the variable [conn] is set, and stays. *)
Lemma transacting_body_conn (w : world) core pricing vehicle specs appearance
  status (st st1 : state) (r : result unit) :
  transacting_body w core pricing vehicle specs appearance status st
  = (st1, r) ->
  (exists e, get_conn w st = (st1, Raise e) /\ r = Raise e
             /\ conn st1 = conn st)
  \/ ((exists st', get_conn w st = (st', Ok tt)) /\ conn st1 = true).
Proof.
  unfold transacting_body. unfold bind at 1.
  destruct (get_conn w st) as [st0 [[]|e]] eqn:G; intros H.
  - right. split; [eauto|].
    unfold bind at 1 in H. unfold set_conn_var at 1 in H.
    match type of H with
    | ?m ?s = _ =>
        assert (K : keeps_conn m);
        [ | exact (K _ _ _ H) ]
    end.
    repeat (apply keeps_conn_bind; [apply keeps_conn_call | intros _]).
    apply keeps_conn_bind;
      [apply keeps_conn_try_finally;
       [apply keeps_conn_loads | apply keeps_conn_call] | intros _].
    apply keeps_conn_bind; [apply keeps_conn_call | intros _].
    apply keeps_conn_log.
  - left. inversion H; subst. exists e.
    repeat split. eapply keeps_conn_get_conn; eauto.
Qed.

(** C1, as the code has it.  When the body of the [try] raises [e], the
    run of [transacting] raises that same [e].  What it does first
    depends on [conn]: if the connection was made, it logs the failure,
    calls [Rollback] once, logs "rolled back" only if that call returned
    (an error of the rollback is dropped without a record), and calls
    [Close]; if [get_conn] itself raised, it logs the failure and calls
    neither [Rollback] nor [Close]. *)
Theorem transacting_failure_reraises (w : world)
  (core pricing vehicle specs appearance status : DataFrame)
  (st st1 : state) (e : exn) :
  transacting_body w core pricing vehicle specs appearance status
    (mk_state (trace st) false) = (st1, Raise e) ->
  exists st2,
    transacting w core pricing vehicle specs appearance status st
    = (st2, Raise e)
    /\ (conn st1 = false
        <-> get_conn w (mk_state (trace st) false) = (st1, Raise e))
    /\ trace st2
       = trace st1 ++ Log (InsertFailed e)
           :: (if conn st1
               then Call Rollback
                      :: match db w (trace st1 ++ [Log (InsertFailed e)])
                                 Rollback with
                         | None => [Log RolledBack; Call Close]
                         | Some _ => [Call Close]
                         end
               else []).
Proof.
  intros Hbody.
  assert (Hconn : conn st1 = false
                  <-> get_conn w (mk_state (trace st) false)
                      = (st1, Raise e)).
  { destruct (transacting_body_conn _ _ _ _ _ _ _ _ _ _ Hbody)
      as [(e' & G & R & C)|[(st' & G) C]].
    - inversion R; subst. split; auto.
    - split; [congruence|]. intros G'. rewrite G' in G. discriminate. }
  cbv beta iota delta [transacting bind set_conn_var try_finally try_except].
  rewrite Hbody.
  cbv beta iota delta [on_failure release bind log emit get_conn_var
                         suppress try_except call ret raise].
  cbn [trace conn].
  destruct (conn st1); cbn [trace conn].
  - destruct (db w (trace st1 ++ [Log (InsertFailed e)]) Rollback) as [e'|];
      cbn [trace conn];
      match goal with
      | |- context [db w ?t Close] => destruct (db w t Close)
      end;
      eexists; (split; [reflexivity|]); (split; [exact Hconn|]);
      cbn [trace]; rewrite <- ?app_assoc; reflexivity.
  - eexists. split; [reflexivity|]. split; [exact Hconn|]. reflexivity.
Qed.

Lemma transacting_failure_witness :
  snd (run_on_empty_tables world_failing_rollback) = Raise commit_failed.
Proof.
  destruct (transacting_failure_reraises world_failing_rollback
              (empty_frame core_cols) (empty_frame pricing_cols)
              (empty_frame vehicle_cols) (empty_frame specs_cols)
              (empty_frame appearance_cols) (empty_frame status_cols)
              initial state_at_failed_commit commit_failed eq_refl)
    as (st2 & H & _).
  unfold run_on_empty_tables. rewrite H. reflexivity.
Defined.

(** C1, as stated, fails twice.  Where [psycopg2.connect] raises, no
    rollback is attempted; and where the rollback raises, nothing is
    logged after it. *)
Lemma rollback_not_always_attempted_nor_logged :
  ~ rollback_always_attempted /\ ~ rollback_failure_logged.
Proof.
  split; intros C.
  - specialize (C world_without_database
                  (empty_frame core_cols) (empty_frame pricing_cols)
                  (empty_frame vehicle_cols) (empty_frame specs_cols)
                  (empty_frame appearance_cols) (empty_frame status_cols)
                  initial (mk_state [Call Connect] false) connection_refused
                  eq_refl).
    simpl in C. intuition discriminate.
  - destruct (C world_failing_rollback
                (empty_frame core_cols) (empty_frame pricing_cols)
                (empty_frame vehicle_cols) (empty_frame specs_cols)
                (empty_frame appearance_cols) (empty_frame status_cols)
                initial
                (trace state_at_failed_commit ++ [Log (InsertFailed commit_failed)])
                [Call Close] rollback_failed eq_refl eq_refl)
      as (r & Hr).
    simpl in Hr. intuition discriminate.
Qed.

(** ** A run that commits *)

Ltac split_run H :=
  repeat match type of H with
         | bind _ _ _ = (_, Ok _) =>
             apply bind_ok in H; destruct H as (? & ? & ? & H);
             cbv beta in H
         end.

Lemma lift_ok {A} (r : result A) (st st' : state) (a : A) :
  lift r st = (st', Ok a) -> st' = st /\ r = Ok a.
Proof. unfold lift. intros H. now inversion H. Qed.

Lemma log_ok (r : log_record) (st st' : state) (u : unit) :
  log r st = (st', Ok u) ->
  calls_of (trace st') = calls_of (trace st) /\ conn st' = conn st.
Proof.
  unfold log, emit. intros H. inversion H; subst. simpl.
  rewrite calls_of_app. simpl. now rewrite app_nil_r.
Qed.

Lemma call_ok_calls (w : world) (c : db_call) (st st' : state) (u : unit) :
  call w c st = (st', Ok u) ->
  calls_of (trace st') = calls_of (trace st) ++ [c].
Proof.
  intros H. apply call_ok in H as [-> _]. now rewrite calls_of_app.
Qed.

Lemma try_finally_ok {A} (m : M A) (fin : M unit) (st st' : state) (a : A) :
  try_finally m fin st = (st', Ok a) ->
  exists st1, m st = (st1, Ok a) /\ fin st1 = (st', Ok tt).
Proof.
  unfold try_finally. destruct (m st) as [st1 r].
  destruct (fin st1) as [st2 [[]|e]] eqn:F; intros H; inversion H; subst.
  exists st1. split; [reflexivity | exact F].
Qed.

Lemma get_conn_ok (w : world) (st st' : state) (u : unit) :
  get_conn w st = (st', Ok u) ->
  calls_of (trace st') = calls_of (trace st) ++ [Connect].
Proof.
  unfold get_conn. destruct (filter _ _); [apply call_ok_calls|].
  discriminate.
Qed.

Lemma read_csv_ok (w : world) (name : string) (st st' : state)
  (df : DataFrame) :
  read_csv w name st = (st', Ok df) ->
  source w name = Some (Ok df)
  /\ calls_of (trace st') = calls_of (trace st).
Proof.
  unfold read_csv, source. destruct (dict_get CSV_FILES name) as [path|];
    [|discriminate].
  destruct (read_file w path) as [r|]; [|discriminate].
  intros H. split_run H.
  apply lift_ok in H0 as [-> ->]. apply log_ok in H1 as [L _].
  inversion H; subst. split; [reflexivity | exact L].
Qed.

Lemma statements_nil (table : string) (cols : list string) :
  statements table cols [] = [].
Proof. reflexivity. Qed.

Lemma insert_batches_ok (w : world) table cols rows (st st' : state) :
  insert_batches w table cols rows st = (st', Ok tt) ->
  calls_of (trace st') = calls_of (trace st) ++ statements table cols rows.
Proof.
  destruct rows as [|r rows].
  - intros H. apply log_ok in H as [-> _].
    now rewrite statements_nil, app_nil_r.
  - rewrite insert_batches_loop by discriminate. intros H.
    destruct (insert_loop_calls w table cols (r :: rows)
                (range 0 (List.length (r :: rows)) BATCH_SIZE) st)
      as (st2 & r2 & k & Hrun & _ & Hcalls & Hk).
    rewrite H in Hrun. inversion Hrun; subst.
    rewrite Hcalls, (Hk eq_refl), statements_starts.
    rewrite <- (length_map (statement_at table cols (r :: rows))).
    now rewrite firstn_all.
Qed.

Lemma load_ok (w : world) table cols df (st st' : state) :
  load w table cols df st = (st', Ok tt) ->
  exists rows, rows_as_tuples df cols = Ok rows
               /\ calls_of (trace st')
                  = calls_of (trace st) ++ statements table cols rows.
Proof.
  unfold load. intros H. split_run H.
  apply lift_ok in H0 as [-> R]. apply insert_batches_ok in H. eauto.
Qed.

Lemma on_failure_raises (w : world) (e : exn) (st st' : state) (u : unit) :
  on_failure w e st <> (st', Ok u).
Proof.
  cbv beta iota delta [on_failure bind log emit get_conn_var suppress
                         try_except call ret raise].
  cbn [trace conn]. destruct (conn st); [|discriminate].
  destruct (db w _ Rollback); discriminate.
Qed.

Lemma release_ok (w : world) (st st' : state) (r : result unit) :
  release w st = (st', r) ->
  r = Ok tt
  /\ calls_of (trace st')
     = calls_of (trace st) ++ (if conn st then [Close] else []).
Proof.
  cbv beta iota delta [release bind get_conn_var suppress try_except call
                         ret].
  cbn [trace conn]. destruct (conn st).
  - destruct (db w (trace st) Close); intros H; inversion H; subst;
      cbn [trace]; rewrite calls_of_app; auto.
  - intros H. inversion H; subst. now rewrite app_nil_r.
Qed.

(** The calls of a run of [transacting] that returns. *)
Lemma transacting_ok (w : world)
  (core pricing vehicle specs appearance status : DataFrame)
  (st st' : state) :
  transacting w core pricing vehicle specs appearance status st
  = (st', Ok tt) ->
  exists rc rp rv rs ra rt,
    rows_as_tuples core core_cols = Ok rc
    /\ rows_as_tuples pricing pricing_cols = Ok rp
    /\ rows_as_tuples vehicle vehicle_cols = Ok rv
    /\ rows_as_tuples specs specs_cols = Ok rs
    /\ rows_as_tuples appearance appearance_cols = Ok ra
    /\ rows_as_tuples status status_cols = Ok rt
    /\ calls_of (trace st')
       = calls_of (trace st)
         ++ [Connect; SetAutocommit false; Cursor]
         ++ statements "core" core_cols rc
         ++ statements "pricing" pricing_cols rp
         ++ statements "vehicle" vehicle_cols rv
         ++ statements "specs" specs_cols rs
         ++ statements "appearance" appearance_cols ra
         ++ statements "status" status_cols rt
         ++ [CursorClose; Commit; Close].
Proof.
  unfold transacting. intros H. split_run H.
  unfold set_conn_var in H0. inversion H0; subst; clear H0.
  apply try_finally_ok in H as (st1 & Hbody & Hrel).
  unfold try_except in Hbody.
  destruct (transacting_body w core pricing vehicle specs appearance status
              {| trace := trace st; conn := false |})
    as [st2 [[]|e]] eqn:B.
  2: { exfalso. eapply on_failure_raises; eauto. }
  inversion Hbody; subst; clear Hbody.
  destruct (transacting_body_conn _ _ _ _ _ _ _ _ _ _ B)
    as [(e & _ & R & _)|[_ C]]; [discriminate|].
  apply release_ok in Hrel as [_ Hrel]. rewrite C in Hrel.
  unfold transacting_body in B. split_run B.
  repeat match goal with
         | H : try_finally _ _ _ = (_, Ok _) |- _ =>
             apply try_finally_ok in H; destruct H as (? & H & ?)
         end.
  repeat match goal with u : unit |- _ => destruct u end.
  unfold loads in *.
  match goal with
  | H : bind (load _ _ _ _) _ _ = (_, Ok _) |- _ => split_run H
  end.
  repeat match goal with u : unit |- _ => destruct u end.
  repeat match goal with
         | H : load _ _ _ _ _ = (_, Ok tt) |- _ =>
             apply load_ok in H; destruct H as (? & ? & H)
         | H : call _ _ _ = (_, Ok _) |- _ => apply call_ok_calls in H
         | H : get_conn _ _ = (_, Ok _) |- _ => apply get_conn_ok in H
         | H : log _ _ = (_, Ok _) |- _ => apply log_ok in H; destruct H as [H _]
         | H : set_conn_var _ _ = (_, Ok _) |- _ =>
             unfold set_conn_var in H; inversion H; subst; clear H
         end.
  do 6 eexists. repeat (split; [eassumption|]).
  cbn [trace] in *.
  repeat match goal with
         | H : calls_of _ = _ |- _ => rewrite H; clear H
         end.
  rewrite <- !app_assoc. reflexivity.
Qed.

(** C8.  In a run of [main] that returns, the calls on the database are,
    in order: one [Connect], autocommit set to false, one cursor; the
    insert statements of Core, all of them, then those of Pricing, of
    Vehicle, of Specs, of Appearance, of Status, each table's statements
    being the batches of its cleaned rows; then the cursor is closed, one
    [Commit], and [Close].  So every statement of Core is issued before
    the first of a child table, inside one connection and one
    transaction. *)
Theorem committed_run_loads_in_order
  (parse_number : string -> option number) (float_repr : float64 -> string)
  (current_year : Z) (w : world) (st : state) :
  main parse_number float_repr current_year w initial = (st, Ok tt) ->
  exists core pricing vehicle specs appearance status rc rp rv rs ra rt,
    cleaned_from w "core" (clean_core parse_number float_repr) core
    /\ cleaned_from w "pricing" (clean_pricing parse_number current_year)
         pricing
    /\ cleaned_from w "vehicle" (clean_vehicle parse_number float_repr)
         vehicle
    /\ cleaned_from w "specs" (clean_specs parse_number float_repr) specs
    /\ cleaned_from w "appearance"
         (clean_appearance parse_number float_repr) appearance
    /\ cleaned_from w "status" (clean_status parse_number float_repr) status
    /\ rows_as_tuples core core_cols = Ok rc
    /\ rows_as_tuples pricing pricing_cols = Ok rp
    /\ rows_as_tuples vehicle vehicle_cols = Ok rv
    /\ rows_as_tuples specs specs_cols = Ok rs
    /\ rows_as_tuples appearance appearance_cols = Ok ra
    /\ rows_as_tuples status status_cols = Ok rt
    /\ calls_of (trace st)
       = [Connect; SetAutocommit false; Cursor]
         ++ statements "core" core_cols rc
         ++ statements "pricing" pricing_cols rp
         ++ statements "vehicle" vehicle_cols rv
         ++ statements "specs" specs_cols rs
         ++ statements "appearance" appearance_cols ra
         ++ statements "status" status_cols rt
         ++ [CursorClose; Commit; Close].
Proof.
  unfold main. intros H. split_run H.
  repeat match goal with
         | H : read_csv _ _ _ = (_, Ok _) |- _ =>
             apply read_csv_ok in H; destruct H as [? H]
         | H : lift _ _ = (_, Ok _) |- _ =>
             apply lift_ok in H; destruct H as [-> H]
         | H : log _ _ = (_, Ok _) |- _ =>
             apply log_ok in H; destruct H as [H _]
         end.
  apply transacting_ok in H
    as (rc & rp & rv & rs & ra & rt & Hc & Hp & Hv & Hs & Ha & Ht & Hcalls).
  do 12 eexists.
  repeat match goal with
         | |- cleaned_from _ _ _ _ /\ _ =>
             split; [eexists; split; eassumption|]
         end.
  repeat (split; [eassumption|]).
  rewrite Hcalls.
  repeat match goal with
         | H : calls_of _ = calls_of _ |- _ => rewrite H; clear H
         end.
  reflexivity.
Qed.

Lemma run_with_tables_returns :
  main read_decimal print_decimal 2026 world_with_tables initial
  = (fst run_with_tables, Ok tt).
Proof. vm_compute. reflexivity. Qed.

Lemma committed_run_witness :
  exists rc rp rv rs ra rt,
    calls_of (trace (fst run_with_tables))
    = [Connect; SetAutocommit false; Cursor]
      ++ statements "core" core_cols rc
      ++ statements "pricing" pricing_cols rp
      ++ statements "vehicle" vehicle_cols rv
      ++ statements "specs" specs_cols rs
      ++ statements "appearance" appearance_cols ra
      ++ statements "status" status_cols rt
      ++ [CursorClose; Commit; Close].
Proof.
  destruct (committed_run_loads_in_order read_decimal print_decimal 2026
              world_with_tables (fst run_with_tables) run_with_tables_returns)
    as (core & pricing & vehicle & specs & appearance & status
        & rc & rp & rv & rs & ra & rt & H).
  exists rc, rp, rv, rs, ra, rt. apply H.
Defined.

(** ** When a cleaner returns *)

Lemma Forall_select {A} (P : A -> Prop) (m : list bool) (l : list A) :
  Forall P l -> Forall P (select m l).
Proof.
  rewrite !Forall_forall. intros H x Hx. apply H. eapply select_In; eauto.
Qed.

Lemma mapM_returns {A B} (f : A -> result B) (l : list A) :
  Forall (fun x => exists y, f x = Ok y) l -> exists r, mapM f l = Ok r.
Proof.
  induction 1 as [|x l [y Hy] _ [r IH]]; simpl; [eauto|].
  rewrite Hy, IH. eauto.
Qed.

Lemma has_column_getitem (df : DataFrame) (name : string) :
  has_column df name = true -> exists c, getitem df name = Ok c.
Proof.
  unfold has_column, getitem.
  destruct (dict_get (df_columns df) name); [eauto | discriminate].
Qed.

Lemma column_ok_has (P : scalar -> Prop) (name : string) (df : DataFrame) :
  column_ok P name df -> has_column df name = true.
Proof.
  intros (c & G & _). unfold has_column, getitem in *.
  now destruct (dict_get (df_columns df) name).
Qed.

Lemma column_ok_any (P : scalar -> Prop) (name : string) (df : DataFrame) :
  column_ok P name df -> column_ok any_cell name df.
Proof.
  intros (c & G & _). exists c. split; [assumption|].
  rewrite Forall_forall. intros x _. exact I.
Qed.

Lemma column_ok_select (P : scalar -> Prop) (m : list bool) (name : string)
  (df : DataFrame) :
  column_ok P name df -> column_ok P name (df_select m df).
Proof.
  intros (c & G & F). exists (col_select m c). rewrite getitem_select, G.
  split; [reflexivity|]. rewrite col_values_select. now apply Forall_select.
Qed.

Lemma column_ok_setitem_other (P : scalar -> Prop) (n name : string)
  (c : column) (df : DataFrame) :
  name <> n -> column_ok P name df -> column_ok P name (setitem df n c).
Proof.
  intros NE (c' & G & F). exists c'.
  now rewrite getitem_setitem_other.
Qed.

Lemma column_ok_setitem_same (n : string) (c : column) (df : DataFrame) :
  column_ok any_cell n (setitem df n c).
Proof.
  exists c. rewrite getitem_setitem_same. split; [reflexivity|].
  rewrite Forall_forall. intros x _. exact I.
Qed.

Lemma has_column_select (m : list bool) (name : string) (df : DataFrame) :
  has_column (df_select m df) name = has_column df name.
Proof.
  unfold has_column, df_select. simpl. rewrite dict_get_map.
  now destruct (dict_get (df_columns df) name).
Qed.

Lemma has_column_setitem_other (n name : string) (c : column)
  (df : DataFrame) :
  name <> n -> has_column (setitem df n c) name = has_column df name.
Proof.
  intros NE. unfold has_column, setitem. simpl.
  now rewrite dict_get_replace_other.
Qed.

Lemma optional_ok_select (P : scalar -> Prop) (m : list bool) (name : string)
  (df : DataFrame) :
  optional_ok P name df -> optional_ok P name (df_select m df).
Proof.
  intros [H|H]; [left; now rewrite has_column_select |
                 right; now apply column_ok_select].
Qed.

Lemma optional_ok_setitem_other (P : scalar -> Prop) (n name : string)
  (c : column) (df : DataFrame) :
  name <> n -> optional_ok P name df -> optional_ok P name (setitem df n c).
Proof.
  intros NE [H|H]; [left; now rewrite has_column_setitem_other |
                    right; now apply column_ok_setitem_other].
Qed.

Lemma drop_duplicates_returns (P : scalar -> Prop) (df : DataFrame)
  (key : string) :
  column_ok P key df -> exists df', drop_duplicates df key = Ok df'.
Proof.
  intros (c & G & _). unfold drop_duplicates. rewrite G. simpl. eauto.
Qed.

Lemma dropna_returns (df : DataFrame) (subset : list string) :
  Forall (fun name => column_ok any_cell name df) subset ->
  exists df', dropna df subset = Ok df'.
Proof.
  intros F. unfold dropna.
  assert (M : exists m, all_notna df subset = Ok m).
  { induction F as [|name rest (c & G & _) _ [m IH]]; simpl; [eauto|].
    rewrite G, IH. simpl. eauto. }
  destruct M as [m ->]. simpl. eauto.
Qed.

Section Returns.

Variable parse_number : string -> option number.
Variable float_repr : float64 -> string.
Variable current_year : Z.

(** The cast passes on a column whose cells it accepts. *)
Lemma astype_Int64_returns (c : column) :
  Forall (casts_to_Int64 parse_number) (col_values c) ->
  exists v, astype_Int64 (to_numeric parse_number c) = Ok v.
Proof.
  intros F. pose proof (to_numeric_values parse_number c) as T.
  assert (G : Forall (fun y =>
                        number_nan (scalar_number y) = true
                        \/ exists z, number_to_Z (scalar_number y) = Some z
                                     /\ in_int64 z = true)
                (arr_values (to_numeric parse_number c))).
  { revert F T.
    generalize (col_values c) (arr_values (to_numeric parse_number c)).
    intros xs ys F T. induction T as [|x y xs ys [_ U] T IH]; constructor.
    - inversion F as [|? ? Hx _]; subst. destruct Hx as [N|(z & Hz & B)].
      + left. now rewrite (upcast_nan _ _ U).
      + right. exists z. split; [|now apply small_in_int64].
        now apply (upcast_to_Z _ _ _ U Hz).
    - apply IH. now inversion F. }
  destruct (to_numeric parse_number c) as [l|l|l|l]; simpl in *; eauto.
  - assert (A : forallb in_int64 l = true).
    { apply forallb_forall. intros z Hz. rewrite Forall_forall in G.
      destruct (G _ (in_map PyInt _ _ Hz)) as [N|(k & K & R)];
        [discriminate|].
      simpl in K. now inversion K; subst. }
    rewrite A. eauto.
  - rewrite float_cast_passes; [eauto|].
    rewrite Forall_forall in *. intros f Hf.
    destruct (G _ (in_map PyFloat _ _ Hf)) as [N|(k & K & R)];
      [left; exact N|]. right. simpl in K. unfold fits_int64. now rewrite K.
Qed.

Lemma pd_to_numeric_returns (c : column) :
  Forall readable (col_values c) ->
  pd_to_numeric parse_number c = Ok (to_numeric parse_number c).
Proof.
  unfold pd_to_numeric. destruct c as [n|v|v]; try reflexivity.
  simpl. intros F. destruct (existsb beyond_float v) eqn:E; [|reflexivity].
  apply existsb_exists in E as (x & Hx & B).
  rewrite Forall_forall in F. rewrite (F _ Hx) in B. discriminate.
Qed.

Lemma casts_readable (x : scalar) :
  casts_to_Int64 parse_number x -> readable x.
Proof.
  unfold casts_to_Int64, readable.
  destruct x as [| |b|z|f|s|b|z|f]; try reflexivity. simpl.
  intros [N|(k & K & B)]; [discriminate|]. inversion K; subst k.
  destruct (float_of_Z_cases z)
    as [[_ ->]|[(_ & _ & ->)|(A & _)]]; try reflexivity.
  lia.
Qed.

Lemma coerce_key_returns (df : DataFrame) :
  column_ok (casts_to_Int64 parse_number) "listing_id" df ->
  exists df', coerce_key parse_number df = Ok df'.
Proof.
  intros (c & G & F). unfold coerce_key. rewrite G. cbn [rbind].
  rewrite pd_to_numeric_returns
    by (eapply Forall_impl; [apply casts_readable | exact F]).
  cbn [rbind].
  destruct (astype_Int64_returns c F) as [v ->]. simpl. eauto.
Qed.

Lemma strip_column_returns (P : scalar -> Prop) (df : DataFrame)
  (col : string) :
  column_ok P col df -> exists df', strip_column float_repr df col = Ok df'.
Proof.
  intros (c & G & _). unfold strip_column. rewrite G. simpl. eauto.
Qed.

Lemma strip_columns_returns (cols : list string) (df : DataFrame) :
  exists df', strip_columns float_repr df cols = Ok df'.
Proof.
  revert df. induction cols as [|col cols IH]; intros df; simpl; [eauto|].
  destruct (has_column df col) eqn:E; [|apply IH].
  destruct (has_column_getitem _ _ E) as [c G].
  unfold strip_column. rewrite G. simpl. apply IH.
Qed.

Lemma strip_columns_column_ok (P : scalar -> Prop) (name : string)
  (cols : list string) (df df' : DataFrame) :
  ~ In name cols ->
  strip_columns float_repr df cols = Ok df' ->
  column_ok P name df -> column_ok P name df'.
Proof.
  revert df. induction cols as [|col cols IH]; simpl; intros df NI H K.
  - now inversion H; subst.
  - assert (N1 : name <> col) by (intros ->; apply NI; now left).
    assert (N2 : ~ In name cols) by (intros Hin; apply NI; now right).
    destruct (has_column df col); [|eapply IH; eauto].
    apply rbind_ok in H as (df1 & H1 & H).
    apply strip_column_ok in H1 as (c & _ & ->).
    eapply IH; eauto. now apply column_ok_setitem_other.
Qed.

Lemma when_number_returns bad (df : DataFrame) (col : string) :
  optional_ok readable col df ->
  exists df', when_column df col (clean_number parse_number bad) = Ok df'.
Proof.
  unfold when_column. intros [H|H]; [rewrite H; eauto|].
  rewrite (column_ok_has _ _ _ H). destruct H as (c & G & F).
  unfold clean_number. rewrite G. cbn [rbind].
  rewrite (pd_to_numeric_returns c F). cbn [rbind]. eauto.
Qed.

Lemma when_flag_returns (df : DataFrame) (col : string) :
  exists df', when_column df col (clean_flag float_repr) = Ok df'.
Proof.
  unfold when_column. destruct (has_column df col) eqn:E; [|eauto].
  destruct (has_column_getitem _ _ E) as [c G].
  unfold clean_flag. rewrite G. simpl. eauto.
Qed.

Lemma when_strip_returns (df : DataFrame) (col : string) :
  exists df', when_column df col (strip_column float_repr) = Ok df'.
Proof.
  unfold when_column. destruct (has_column df col) eqn:E; [|eauto].
  destruct (has_column_getitem _ _ E) as [c G].
  unfold strip_column. rewrite G. simpl. eauto.
Qed.


(** What a guarded step leaves of the other columns. *)
Lemma when_column_column_ok (P : scalar -> Prop) (name col : string) f
  (df df' : DataFrame) :
  name <> col ->
  (forall d d', f d col = Ok d' -> exists c, d' = setitem d col c) ->
  when_column df col f = Ok df' ->
  column_ok P name df -> column_ok P name df'.
Proof.
  intros NE F H K. apply when_column_ok in H as [[_ ->]|[_ H]]; [exact K|].
  destruct (F _ _ H) as [c ->]. now apply column_ok_setitem_other.
Qed.

Lemma when_column_optional_ok (P : scalar -> Prop) (name col : string) f
  (df df' : DataFrame) :
  name <> col ->
  (forall d d', f d col = Ok d' -> exists c, d' = setitem d col c) ->
  when_column df col f = Ok df' ->
  optional_ok P name df -> optional_ok P name df'.
Proof.
  intros NE F H K. apply when_column_ok in H as [[_ ->]|[_ H]]; [exact K|].
  destruct (F _ _ H) as [c ->]. now apply optional_ok_setitem_other.
Qed.

Lemma clean_number_sets bad d col d' :
  clean_number parse_number bad d col = Ok d' ->
  exists c, d' = setitem d col c.
Proof. intros H. apply clean_number_ok in H as (c & _ & ->). eauto. Qed.

Lemma clean_integer_sets bad d col d' :
  clean_integer parse_number bad d col = Ok d' ->
  exists c, d' = setitem d col c.
Proof. intros H. apply clean_integer_ok in H as (c & v & _ & _ & ->). eauto. Qed.

Lemma clean_flag_sets d col d' :
  clean_flag float_repr d col = Ok d' -> exists c, d' = setitem d col c.
Proof. intros H. apply clean_flag_ok in H as (c & _ & ->). eauto. Qed.

Lemma strip_column_sets d col d' :
  strip_column float_repr d col = Ok d' -> exists c, d' = setitem d col c.
Proof. intros H. apply strip_column_ok in H as (c & _ & ->). eauto. Qed.

End Returns.

Section Carried.

Variable parse_number : string -> option number.
Variable float_repr : float64 -> string.

Lemma drop_duplicates_column_ok P name df key df' :
  drop_duplicates df key = Ok df' ->
  column_ok P name df -> column_ok P name df'.
Proof.
  intros H. apply drop_duplicates_ok in H as (k & _ & ->).
  apply column_ok_select.
Qed.

Lemma drop_duplicates_optional_ok P name df key df' :
  drop_duplicates df key = Ok df' ->
  optional_ok P name df -> optional_ok P name df'.
Proof.
  intros H. apply drop_duplicates_ok in H as (k & _ & ->).
  apply optional_ok_select.
Qed.

Lemma coerce_key_column_ok P name df df' :
  name <> "listing_id" ->
  coerce_key parse_number df = Ok df' ->
  column_ok P name df -> column_ok P name df'.
Proof.
  intros NE H. apply coerce_key_ok in H as (k & v & _ & _ & ->).
  now apply column_ok_setitem_other.
Qed.

Lemma coerce_key_optional_ok P name df df' :
  name <> "listing_id" ->
  coerce_key parse_number df = Ok df' ->
  optional_ok P name df -> optional_ok P name df'.
Proof.
  intros NE H. apply coerce_key_ok in H as (k & v & _ & _ & ->).
  now apply optional_ok_setitem_other.
Qed.

Lemma coerce_key_key df df' :
  coerce_key parse_number df = Ok df' -> column_ok any_cell "listing_id" df'.
Proof.
  intros H. apply coerce_key_ok in H as (k & v & _ & _ & ->).
  apply column_ok_setitem_same.
Qed.

Lemma strip_column_column_ok P name df col df' :
  name <> col ->
  strip_column float_repr df col = Ok df' ->
  column_ok P name df -> column_ok P name df'.
Proof.
  intros NE H. apply strip_column_ok in H as (c & _ & ->).
  now apply column_ok_setitem_other.
Qed.

Lemma strip_column_same df col df' :
  strip_column float_repr df col = Ok df' -> column_ok any_cell col df'.
Proof.
  intros H. apply strip_column_ok in H as (c & _ & ->).
  apply column_ok_setitem_same.
Qed.

End Carried.

Ltac sets_column :=
  let d := fresh "d" in
  let d' := fresh "d'" in
  let Hf := fresh "Hf" in
  intros d d' Hf;
  first [ eapply clean_number_sets; exact Hf
        | eapply clean_integer_sets; exact Hf
        | eapply clean_flag_sets; exact Hf
        | eapply strip_column_sets; exact Hf ].

(** Carries a fact on a column of the raw frame to the frame a step
    returned. *)
Ltac carried :=
  first
    [ assumption
    | match goal with
      | H : coerce_key _ _ = Ok ?d |- column_ok any_cell "listing_id" ?d =>
          eapply coerce_key_key; exact H
      | H : strip_column _ _ ?col = Ok ?d |- column_ok any_cell ?col ?d =>
          eapply strip_column_same; exact H
      | H : drop_duplicates _ _ = Ok ?d |- column_ok _ _ ?d =>
          eapply drop_duplicates_column_ok; [exact H | carried]
      | H : drop_duplicates _ _ = Ok ?d |- optional_ok _ _ ?d =>
          eapply drop_duplicates_optional_ok; [exact H | carried]
      | H : coerce_key _ _ = Ok ?d |- column_ok _ _ ?d =>
          eapply coerce_key_column_ok; [ | exact H | ];
          [discriminate | carried]
      | H : coerce_key _ _ = Ok ?d |- optional_ok _ _ ?d =>
          eapply coerce_key_optional_ok; [ | exact H | ];
          [discriminate | carried]
      | H : strip_column _ _ _ = Ok ?d |- column_ok _ _ ?d =>
          eapply strip_column_column_ok; [ | exact H | ];
          [discriminate | carried]
      | H : strip_columns _ _ _ = Ok ?d |- column_ok _ _ ?d =>
          eapply strip_columns_column_ok; [ | exact H | ];
          [simpl; intuition discriminate | carried]
      | H : when_column _ _ _ = Ok ?d |- column_ok _ _ ?d =>
          eapply when_column_column_ok; [ | | exact H | ];
          [discriminate | sets_column | carried]
      | H : when_column _ _ _ = Ok ?d |- optional_ok _ _ ?d =>
          eapply when_column_optional_ok; [ | | exact H | ];
          [discriminate | sets_column | carried]
      | |- column_ok any_cell _ _ => eapply column_ok_any; eassumption
      end ].

Ltac run_steps :=
  repeat match goal with
         | H : ?r = Ok _ |- context [rbind ?r _] => rewrite H; cbn [rbind]
         end.

Section CleanersReturn.

Variable parse_number : string -> option number.
Variable float_repr : float64 -> string.
Variable current_year : Z.

Lemma clean_core_returns (df : DataFrame) :
  column_ok (casts_to_Int64 parse_number) "listing_id" df ->
  column_ok any_cell "url" df ->
  exists df', clean_core parse_number float_repr df = Ok df'.
Proof.
  intros K U.
  destruct (drop_duplicates_returns _ df "listing_id" K) as [d1 H1].
  destruct (coerce_key_returns parse_number d1) as [d2 H2]; [carried|].
  destruct (strip_column_returns float_repr any_cell d2 "url") as [d3 H3];
    [carried|].
  destruct (dropna_returns d3 ["listing_id"; "url"]) as [d4 H4];
    [repeat (apply Forall_cons; [cbv beta; carried|]); apply Forall_nil|].
  exists d4. unfold clean_core. run_steps. exact H4.
Qed.


Lemma clean_appearance_returns (df : DataFrame) :
  column_ok (casts_to_Int64 parse_number) "listing_id" df ->
  exists df', clean_appearance parse_number float_repr df = Ok df'.
Proof.
  intros K.
  destruct (drop_duplicates_returns _ df "listing_id" K) as [d1 H1].
  destruct (coerce_key_returns parse_number d1) as [d2 H2]; [carried|].
  destruct (strip_columns_returns float_repr
              ["body_type"; "color"; "interior_material"] d2) as [d3 H3].
  destruct (when_flag_returns float_repr d3 "sunroof") as [d4 H4].
  destruct (dropna_returns d4 ["listing_id"]) as [d5 H5];
    [repeat (apply Forall_cons; [cbv beta; carried|]); apply Forall_nil|].
  exists d5. unfold clean_appearance. run_steps. exact H5.
Qed.

Lemma clean_status_returns (df : DataFrame) :
  column_ok (casts_to_Int64 parse_number) "listing_id" df ->
  exists df', clean_status parse_number float_repr df = Ok df'.
Proof.
  intros K.
  destruct (drop_duplicates_returns _ df "listing_id" K) as [d1 H1].
  destruct (coerce_key_returns parse_number d1) as [d2 H2]; [carried|].
  destruct (when_flag_returns float_repr d2 "cleared_customs") as [d3 H3].
  destruct (when_strip_returns float_repr d3 "condition") as [d4 H4].
  destruct (dropna_returns d4 ["listing_id"]) as [d5 H5];
    [repeat (apply Forall_cons; [cbv beta; carried|]); apply Forall_nil|].
  exists d5. unfold clean_status. run_steps. exact H5.
Qed.

End CleanersReturn.


(** ** The cleaners, table by table *)



Lemma lstrip_spec (s : string) :
  exists a, s = (a ++ lstrip s)%string
            /\ all_space a = true
            /\ (forall c, first_char (lstrip s) = Some c ->
                          is_space c = false).
Proof.
  induction s as [|c t (a & E & A & F)]; simpl.
  - exists EmptyString. repeat split. discriminate.
  - destruct (is_space c) eqn:S.
    + exists (String c a). simpl. rewrite S, A. repeat split; auto.
      now rewrite <- E.
    + exists EmptyString. repeat split. simpl. intros c' H.
      inversion H. now subst.
Qed.

Lemma rstrip_spec (s : string) :
  exists b, s = (rstrip s ++ b)%string
            /\ all_space b = true
            /\ (forall c, last_char (rstrip s) = Some c ->
                          is_space c = false)
            /\ (rstrip s = EmptyString
                \/ first_char (rstrip s) = first_char s).
Proof.
  induction s as [|c t (b & E & B & L & F)]; simpl.
  - exists EmptyString. repeat split; [discriminate | now left].
  - destruct (rstrip t) as [|c' t'] eqn:R.
    + simpl in E. subst t. destruct (is_space c) eqn:S.
      * exists (String c b). simpl. rewrite S, B.
        repeat split; [discriminate | now left].
      * exists b. simpl. repeat split; auto.
        intros c0 H. inversion H. now subst.
    + exists b. split; [simpl; f_equal; exact E|].
      repeat split; auto.
Qed.

Lemma strip_spec (s : string) :
  exists a b, s = (a ++ strip s ++ b)%string
              /\ all_space a = true /\ all_space b = true
              /\ trimmed (strip s).
Proof.
  destruct (lstrip_spec s) as (a & Ea & A & Fa).
  destruct (rstrip_spec (lstrip s)) as (b & Eb & B & Lb & Fb).
  exists a, b. unfold strip. split; [now rewrite <- Eb|].
  split; [exact A|]. split; [exact B|]. split; [|exact Lb].
  intros c H. destruct Fb as [Fb|Fb].
  - rewrite Fb in H. discriminate.
  - apply Fa. now rewrite <- Fb.
Qed.

Lemma lstrip_all_space (a : string) :
  all_space a = true -> lstrip a = EmptyString.
Proof.
  induction a as [|c a IH]; simpl; [reflexivity|].
  intros H. apply andb_true_iff in H as [C A]. rewrite C. auto.
Qed.

Lemma rstrip_all_space (b : string) :
  all_space b = true -> rstrip b = EmptyString.
Proof.
  induction b as [|c b IH]; simpl; [reflexivity|].
  intros H. apply andb_true_iff in H as [C B]. now rewrite (IH B), C.
Qed.

Lemma lstrip_pad (a t : string) :
  all_space a = true -> lstrip (a ++ t) = lstrip t.
Proof.
  induction a as [|c a IH]; simpl; [reflexivity|].
  intros H. apply andb_true_iff in H as [C A]. rewrite C. auto.
Qed.

Lemma rstrip_pad (t b : string) :
  all_space b = true -> rstrip (t ++ b) = rstrip t.
Proof.
  intros B. induction t as [|c t IH]; simpl.
  - now apply rstrip_all_space.
  - now rewrite IH.
Qed.

Lemma lstrip_app (s b : string) :
  lstrip (s ++ b)
  = (if all_space s then lstrip b else lstrip s ++ b)%string.
Proof.
  induction s as [|c s IH]; simpl; [reflexivity|].
  destruct (is_space c); simpl; [exact IH | reflexivity].
Qed.

(** Whitespace around a text is lost in [strip]. *)
Lemma strip_pad (a s b : string) :
  all_space a = true -> all_space b = true ->
  strip (a ++ s ++ b) = strip s.
Proof.
  intros A B. unfold strip. rewrite (lstrip_pad _ _ A), lstrip_app.
  destruct (all_space s) eqn:S.
  - now rewrite (lstrip_all_space _ B), (lstrip_all_space _ S).
  - now apply rstrip_pad.
Qed.

Lemma lower_app (a b : string) : lower (a ++ b) = (lower a ++ lower b)%string.
Proof. induction a as [|c a IH]; simpl; congruence. Qed.

Lemma lower_space (c : ascii) : is_space c = true -> lower_char c = c.
Proof.
  destruct c as [[] [] [] [] [] [] [] []]; vm_compute; intros H;
    try reflexivity; discriminate.
Qed.

Lemma lower_all_space (a : string) : all_space a = true -> lower a = a.
Proof.
  induction a as [|c a IH]; simpl; [reflexivity|].
  intros H. apply andb_true_iff in H as [C A].
  now rewrite (lower_space _ C), (IH A).
Qed.

Lemma lower_char_lower (c : ascii) : lower_char (lower_char c) = lower_char c.
Proof.
  destruct c as [[] [] [] [] [] [] [] []]; reflexivity.
Qed.

Lemma lower_lower (s : string) : lower (lower s) = lower s.
Proof.
  induction s as [|c s IH]; simpl; [reflexivity|].
  now rewrite lower_char_lower, IH.
Qed.

(** Whitespace around a flag never changes what it maps to. *)
Lemma flag_of_text_pad (a s b : string) :
  all_space a = true -> all_space b = true ->
  flag_of_text (a ++ s ++ b) = flag_of_text s.
Proof.
  intros A B. unfold flag_of_text.
  rewrite !lower_app, (lower_all_space _ A), (lower_all_space _ B).
  now rewrite strip_pad.
Qed.

(** C6.  The appearance and status cleaners return a table whenever the
    raw table has a [listing_id] column whose cells are missing, no
    numbers, or integers of magnitude at most 2^53.  In the table the
    appearance cleaner returns every [sunroof] cell, and in the one the
    status cleaner returns every [cleared_customs] cell, is what the
    vocabulary gives to the lowered, stripped text of the raw cell of
    that row: [True] for "true", "1", "yes", [False] for "false", "0",
    "no", and absent (NaN) for any other text or a missing cell.  The
    stripped text is the lowered text without the whitespace at its two
    ends, so whitespace around a flag never changes what it maps to, and
    neither does its case.  "Yes" gives true, "0" false, "TRUE" true,
    "maybe" absent; "  yEs " gives true, and so does "1" after a tab and
    a line feed. *)
Theorem flags_follow_vocabulary
  (parse_number : string -> option number) (float_repr : float64 -> string)
  (df : DataFrame) :
  (column_ok (casts_to_Int64 parse_number) "listing_id" df ->
   (exists df', clean_appearance parse_number float_repr df = Ok df')
   /\ (exists df', clean_status parse_number float_repr df = Ok df'))
  /\ (forall df', clean_appearance parse_number float_repr df = Ok df' ->
                  tracks (flag_rule float_repr) "sunroof" df df')
  /\ (forall df', clean_status parse_number float_repr df = Ok df' ->
                  tracks (flag_rule float_repr) "cleared_customs" df df')
  /\ (forall s z, flag_rule float_repr (PyStr s) z ->
        z = match flag_of_text s with
            | Some b => PyBool b
            | None => PyFloat nan
            end)
  /\ (forall s, flag_of_text s = Some true
                <-> In (strip (lower s)) ["true"; "1"; "yes"])
  /\ (forall s, flag_of_text s = Some false
                <-> In (strip (lower s)) ["false"; "0"; "no"])
  /\ (forall s, exists a b,
        lower s = (a ++ strip (lower s) ++ b)%string
        /\ all_space a = true /\ all_space b = true
        /\ trimmed (strip (lower s)))
  /\ (forall a s b, all_space a = true -> all_space b = true ->
                    flag_of_text (a ++ s ++ b) = flag_of_text s)
  /\ (forall s, flag_of_text (lower s) = flag_of_text s)
  /\ flag_of_text "Yes" = Some true
  /\ flag_of_text "0" = Some false
  /\ flag_of_text "TRUE" = Some true
  /\ flag_of_text "maybe" = None
  /\ flag_of_text "  yEs " = Some true
  /\ flag_of_text " NO" = Some false
  /\ flag_of_text (String "009" (String "010" "1  ")) = Some true
  /\ flag_of_text "y es" = None.
Proof.
  split; [|split; [|split; [|split; [|split; [|split;
    [|split; [|split; [|split]]]]]]]].
  - intros K. split;
      [now apply clean_appearance_returns | now apply clean_status_returns].
  - intros df' H. unfold clean_appearance in H. to_the_step H.
    eapply when_column_rule; [|eassumption]. intros d d'.
    apply clean_flag_rule.
  - intros df' H. unfold clean_status in H. to_the_step H.
    eapply when_column_rule; [|eassumption]. intros d d'.
    apply clean_flag_rule.
  - intros s z R. exact R.
  - apply flag_true_iff.
  - apply flag_false_iff.
  - intros s. apply strip_spec.
  - apply flag_of_text_pad.
  - intros s. unfold flag_of_text. now rewrite lower_lower.
  - repeat split; reflexivity.
Qed.

Lemma flags_follow_vocabulary_witness :
  clean_appearance read_decimal print_decimal appearance_table
  = Ok appearance_cleaned
  /\ tracks (flag_rule print_decimal) "sunroof"
       appearance_table appearance_cleaned.
Proof.
  split; [reflexivity|].
  exact (proj1 (proj2 (flags_follow_vocabulary read_decimal print_decimal
                         appearance_table))
           appearance_cleaned eq_refl).
Defined.

Lemma zip_with_andb_true {A} (b : list bool) (l : list A) :
  List.length b = List.length l ->
  zip_with andb b (map (fun _ => true) l) = b.
Proof.
  revert l. induction b as [|x b IH]; intros [|y l] H; try discriminate;
    simpl; [reflexivity|].
  rewrite andb_true_r. f_equal. apply IH. now inversion H.
Qed.

Lemma cell_text_absent (float_repr : float64 -> string) (x : scalar) :
  is_none (option_map strip (cell_text float_repr x)) = isna x.
Proof. unfold cell_text. now destruct (isna x). Qed.

(** Which rows the core cleaner keeps. *)
Lemma clean_core_keeps (parse_number : string -> option number)
  (float_repr : float64 -> string) (df df' : DataFrame) :
  well_formed df ->
  clean_core parse_number float_repr df = Ok df' ->
  exists k u v,
    getitem df "listing_id" = Ok k
    /\ getitem df "url" = Ok u
    /\ astype_Int64
         (to_numeric parse_number
            (col_select (map negb (col_duplicated k)) k)) = Ok v
    /\ df_index df'
       = select
           (core_kept v (select (map negb (col_duplicated k)) (col_values u)))
           (select (map negb (col_duplicated k)) (df_index df)).
Proof.
  intros W H. unfold clean_core in H. split_steps H.
  match goal with
  | H1 : drop_duplicates _ _ = Ok _, H2 : coerce_key _ _ = Ok _,
    H3 : strip_column _ _ _ = Ok _ |- _ =>
      apply drop_duplicates_ok in H1 as (k & G & ->);
      apply coerce_key_ok in H2 as (k1 & v & G1 & C & ->);
      apply strip_column_ok in H3 as (c & Gc & ->)
  end.
  rewrite getitem_select, G in G1. simpl in G1.
  inversion G1; subst k1; clear G1.
  rewrite getitem_setitem_other, getitem_select in Gc by discriminate.
  destruct (getitem df "url") as [u|e] eqn:Gu; [|discriminate].
  simpl in Gc. inversion Gc; subst c; clear Gc.
  exists k, u, v. repeat split; auto.
  apply dropna_ok in H as (m & Hm & ->).
  simpl in Hm.
  rewrite getitem_setitem_other, getitem_setitem_same in Hm by discriminate.
  rewrite getitem_setitem_same in Hm. simpl in Hm.
  inversion Hm; subst m; clear Hm. simpl. f_equal.
  unfold core_kept, col_notna, str_strip. simpl.
  rewrite astype_string_values, col_values_select, !map_map.
  rewrite zip_with_andb_true.
  - f_equal. apply map_ext. intros x. now rewrite cell_text_absent.
  - rewrite length_map.
    apply select_length. rewrite col_values_length.
    apply (getitem_wf _ _ _ W Gu).
Qed.

(** C4, as the code has it.  On a raw Core table read from a file, the
    core cleaner returns a table whenever there is an [url] column and a
    [listing_id] column whose cells are missing, no numbers, or integers
    of magnitude at most 2^53, which a float64 column holds exactly.
    A row whose url is absent (a missing value) is not in the table it
    returns, whatever its key; the url of every row of that table is the
    stripped text of the raw url of that row, so the empty string where
    the raw url is blank; and among the rows whose key is the first of
    its raw value, the rows kept are those whose key is present after the
    cast and whose raw url is not a missing value, whatever its text. *)
Theorem absent_url_rows_excluded
  (parse_number : string -> option number) (float_repr : float64 -> string)
  (df : DataFrame) :
  well_formed df -> NoDup (df_index df) ->
  (column_ok (casts_to_Int64 parse_number) "listing_id" df ->
   column_ok any_cell "url" df ->
   exists df', clean_core parse_number float_repr df = Ok df')
  /\ forall df',
       clean_core parse_number float_repr df = Ok df' ->
       (forall i x, In (i, x) (cells df "url") -> isna x = true ->
                    ~ In i (df_index df'))
       /\ tracks (text_rule float_repr) "url" df df'
       /\ exists k u v,
            getitem df "listing_id" = Ok k
            /\ getitem df "url" = Ok u
            /\ astype_Int64
                 (to_numeric parse_number
                    (col_select (map negb (col_duplicated k)) k)) = Ok v
            /\ df_index df'
               = select
                   (core_kept v
                      (select (map negb (col_duplicated k)) (col_values u)))
                   (select (map negb (col_duplicated k)) (df_index df)).
Proof.
  intros W N. split; [apply clean_core_returns|].
  intros df' H. pose proof (clean_core_keeps _ _ _ _ W H) as K.
  unfold clean_core in H. split_steps H.
  assert (T : tracks (text_rule float_repr) "url" df df').
  { to_the_step H. now apply strip_column_rule. }
  split; [|split; [exact T|exact K]].
  intros i u Hu Hna Hin.
  assert (W2 : well_formed x1).
  { eapply strip_column_shapes; [eassumption|].
    eapply coerce_key_shapes; [eassumption|].
    eapply drop_duplicates_shapes; eassumption. }
  destruct (dropna_core_keeps_present _ _ _ W2 H Hin) as (z & Hz & Pz).
  destruct (T _ _ Hz) as (u' & Hu' & R).
  rewrite (cells_NoDup_fun _ _ _ _ _ N Hu Hu') in Hna.
  rewrite (text_rule_absent _ _ _ R Hna) in Pz. discriminate.
Qed.

Lemma core_blank_url_well_formed : well_formed core_blank_url.
Proof. repeat constructor. Qed.

Lemma core_blank_url_labels : NoDup (df_index core_blank_url).
Proof.
  repeat constructor; simpl; intuition discriminate.
Qed.

Lemma absent_url_rows_excluded_witness :
  ~ In 1 (df_index core_blank_url_cleaned).
Proof.
  refine (proj1 (proj2 (absent_url_rows_excluded read_decimal print_decimal
                          core_blank_url
                          core_blank_url_well_formed core_blank_url_labels)
                   core_blank_url_cleaned eq_refl)
            1 (PyFloat nan) _ eq_refl).
  simpl. right. left. reflexivity.
Defined.

(** C4, as stated, fails: the row of [core_blank_url] whose url is three
    spaces has a valid key and is kept, with the empty string as url. *)
Lemma blank_url_row_is_kept : ~ empty_url_rows_excluded.
Proof.
  intros C.
  apply (C read_decimal print_decimal core_blank_url core_blank_url_cleaned
           0 (PyStr "   ")).
  - apply core_blank_url_well_formed.
  - apply core_blank_url_labels.
  - reflexivity.
  - simpl. left. reflexivity.
  - right. exists "   ". split; reflexivity.
  - simpl. left. reflexivity.
Qed.

(** ** Keys of an int64 column stay apart *)

Section KeyColumn.

Variable parse_number : string -> option number.
Variable float_repr : float64 -> string.
Variable current_year : Z.

Lemma strip_columns_getitem name cols df df' :
  ~ In name cols ->
  strip_columns float_repr df cols = Ok df' ->
  getitem df' name = getitem df name.
Proof.
  revert df. induction cols as [|col cols IH]; simpl; intros df NI H.
  - now inversion H.
  - assert (N1 : name <> col) by (intros ->; apply NI; now left).
    assert (N2 : ~ In name cols) by (intros Hin; apply NI; now right).
    destruct (has_column df col); [|now apply IH].
    apply rbind_ok in H as (df1 & H1 & H).
    apply strip_column_ok in H1 as (c & _ & ->).
    rewrite (IH _ N2 H). now apply getitem_setitem_other.
Qed.

Lemma when_column_getitem name col f df df' :
  name <> col ->
  (forall d d', f d col = Ok d' -> exists c, d' = setitem d col c) ->
  when_column df col f = Ok df' ->
  getitem df' name = getitem df name.
Proof.
  intros NE F H. apply when_column_ok in H as [[_ ->]|[_ H]]; [reflexivity|].
  destruct (F _ _ H) as [c ->]. now apply getitem_setitem_other.
Qed.

Lemma strip_column_getitem name col df df' :
  name <> col ->
  strip_column float_repr df col = Ok df' ->
  getitem df' name = getitem df name.
Proof.
  intros NE H. apply strip_column_ok in H as (c & _ & ->).
  now apply getitem_setitem_other.
Qed.

End KeyColumn.

(** Rewrites [getitem d "listing_id"] back through the steps that leave
    the key column alone. *)
Ltac key_untouched :=
  repeat match goal with
         | H : when_column ?d0 ?col ?f = Ok ?d
           |- context [getitem ?d "listing_id"] =>
             rewrite (when_column_getitem "listing_id" col f d0 d
                        ltac:(discriminate) ltac:(sets_column) H)
         | H : strip_columns ?r ?d0 ?cols = Ok ?d
           |- context [getitem ?d "listing_id"] =>
             rewrite (strip_columns_getitem r "listing_id" cols d0 d
                        ltac:(simpl; intuition discriminate) H)
         | H : strip_column ?r ?d0 ?col = Ok ?d
           |- context [getitem ?d "listing_id"] =>
             rewrite (strip_column_getitem r "listing_id" col d0 d
                        ltac:(discriminate) H)
         end.

Ltac key_pipeline_steps H :=
  split_steps H;
  match goal with
  | H1 : drop_duplicates ?df _ = Ok ?d1, H2 : coerce_key _ ?d1 = Ok ?d2 |- _ =>
      let k := fresh "k" in
      let k1 := fresh "k1" in
      let v := fresh "v" in
      let G := fresh "G" in
      let G1 := fresh "G1" in
      let C := fresh "C" in
      let m := fresh "m" in
      destruct (drop_duplicates_ok _ _ _ H1) as (k & G & ?);
      destruct (coerce_key_ok _ _ _ H2) as (k1 & v & G1 & C & ?);
      destruct (dropna_ok _ _ _ H) as (m & _ & ?);
      subst d1; rewrite getitem_select, G in G1; simpl in G1;
      inversion G1; subst k1; clear G1;
      exists k, v, m; split; [exact G|]; split; [exact C|];
      subst; rewrite getitem_select; key_untouched;
      rewrite getitem_setitem_same; reflexivity
  end.

Section KeyPipeline.

Variable parse_number : string -> option number.
Variable float_repr : float64 -> string.
Variable current_year : Z.

Lemma cleaners_key_pipeline clean df df' :
  In clean (cleaners parse_number float_repr current_year) ->
  clean df = Ok df' -> key_pipeline parse_number df df'.
Proof.
  unfold cleaners. simpl.
  intros [<-|[<-|[<-|[<-|[<-|[<-|[]]]]]]] H.
  - unfold clean_core in H. key_pipeline_steps H.
  - unfold clean_pricing in H. key_pipeline_steps H.
  - unfold clean_vehicle in H. key_pipeline_steps H.
  - unfold clean_specs in H. key_pipeline_steps H.
  - unfold clean_appearance in H. key_pipeline_steps H.
  - unfold clean_status in H. key_pipeline_steps H.
Qed.

End KeyPipeline.

Lemma subseq_NoDup {A} (s l : list A) : subseq s l -> NoDup l -> NoDup s.
Proof.
  induction 1 as [|x s l S IH|x s l S IH]; intros N.
  - constructor.
  - inversion N; subst. constructor; [|auto].
    intros Hin. eapply subseq_In in Hin; eauto.
  - inversion N; subst. auto.
Qed.

Lemma existsb_eqb_In (x : Z) (seen : list Z) :
  existsb (Z.eqb x) seen = true <-> In x seen.
Proof.
  rewrite existsb_exists. split.
  - intros (y & Hy & E). apply Z.eqb_eq in E. now subst.
  - intros H. exists x. split; [assumption | apply Z.eqb_refl].
Qed.

(** [drop_duplicates] on integers leaves no two equal. *)
Lemma duplicated_from_NoDup (seen l : list Z) :
  NoDup (select (map negb (duplicated_from Z.eqb seen l)) l)
  /\ forall x, In x (select (map negb (duplicated_from Z.eqb seen l)) l) ->
               ~ In x seen.
Proof.
  revert seen. induction l as [|x l IH]; intros seen; simpl.
  - split; [constructor | contradiction].
  - destruct (IH (x :: seen)) as [N F].
    destruct (existsb (Z.eqb x) seen) eqn:E; simpl.
    + split; [exact N|]. intros y Hy Hs. apply (F y Hy). now right.
    + split.
      * constructor; [|exact N]. intros Hin. apply (F x Hin). now left.
      * intros y [<-|Hy] Hs.
        -- apply existsb_eqb_In in Hs. congruence.
        -- apply (F y Hy). now right.
Qed.

Lemma NoDup_map_snd_combine {A B} (a : list A) (b : list B) :
  NoDup b -> NoDup (map snd (combine a b)).
Proof.
  intros N. revert a. induction N as [|y b Hy N IH]; intros [|x a]; simpl;
    try constructor; auto.
  intros Hin. apply Hy. apply in_map_iff in Hin as ([i z] & <- & Hz).
  now apply in_combine_r in Hz.
Qed.

Lemma NoDup_map_injective {A B} (f : A -> B) (l : list A) :
  (forall a b, f a = f b -> a = b) -> NoDup l -> NoDup (map f l).
Proof.
  intros I. induction 1 as [|x l Hx N IH]; simpl; constructor; auto.
  intros Hin. apply in_map_iff in Hin as (y & E & Hy).
  apply I in E. now subst.
Qed.

(** Where the raw key column is an int64 column, no two rows of a
    cleaned table share a key. *)
Lemma int64_keys_unique (parse_number : string -> option number)
  (float_repr : float64 -> string) (current_year : Z)
  (clean : DataFrame -> result DataFrame) (df df' : DataFrame)
  (l : list Z) :
  In clean (cleaners parse_number float_repr current_year) ->
  getitem df "listing_id" = Ok (Col_int64 l) ->
  clean df = Ok df' ->
  NoDup (keys_of df').
Proof.
  intros Hin G H.
  destruct (cleaners_key_pipeline _ _ _ _ _ _ Hin H) as (k & v & m & Gk & C & G').
  rewrite G in Gk. inversion Gk; subst k; clear Gk.
  simpl in C. destruct (forallb in_int64 _); [|discriminate].
  inversion C; subst v; clear C.
  unfold keys_of, cells, labelled. rewrite G'. simpl.
  apply NoDup_map_snd_combine.
  rewrite !select_map, map_map. simpl.
  apply NoDup_map_injective; [intros a b E; now inversion E|].
  eapply subseq_NoDup; [apply select_subseq|].
  apply (duplicated_from_NoDup [] l).
Qed.

(** ** Column labels through the steps of a cleaner *)

Lemma names_select (m : list bool) (df : DataFrame) :
  names (df_select m df) = names df.
Proof. unfold names, df_select. simpl. now rewrite map_map. Qed.

Lemma replace_column_names (cols : list (string * column)) (n : string)
  (c c0 : column) :
  dict_get cols n = Some c0 ->
  map fst (replace_column cols n c) = map fst cols.
Proof.
  induction cols as [|[n' c'] cols IH]; simpl; [discriminate|].
  destruct (String.eqb n n') eqn:E; intros H; simpl; [reflexivity|].
  f_equal. now apply IH.
Qed.

Lemma names_setitem (df : DataFrame) (n : string) (c c0 : column) :
  getitem df n = Ok c0 -> names (setitem df n c) = names df.
Proof.
  unfold getitem, names, setitem. simpl.
  destruct (dict_get (df_columns df) n) as [c1|] eqn:E; [|discriminate].
  intros _. eapply replace_column_names; eauto.
Qed.

Lemma has_column_of_names (df : DataFrame) (n : string) :
  has_column df n = existsb (String.eqb n) (names df).
Proof.
  unfold has_column, names.
  induction (df_columns df) as [|[n' c'] cols IH]; simpl; [reflexivity|].
  destruct (String.eqb n n'); [reflexivity | exact IH].
Qed.

Lemma drop_duplicates_names df key df' :
  drop_duplicates df key = Ok df' -> names df' = names df.
Proof.
  intros H. apply drop_duplicates_ok in H as (k & _ & ->).
  apply names_select.
Qed.

Lemma dropna_names df subset df' :
  dropna df subset = Ok df' -> names df' = names df.
Proof.
  intros H. apply dropna_ok in H as (m & _ & ->). apply names_select.
Qed.

Section Names.

Variable parse_number : string -> option number.
Variable float_repr : float64 -> string.
Variable current_year : Z.

Lemma coerce_key_names df df' :
  coerce_key parse_number df = Ok df' -> names df' = names df.
Proof.
  intros H. apply coerce_key_ok in H as (k & v & Hk & _ & ->).
  eapply names_setitem; eauto.
Qed.

Lemma strip_column_names df col df' :
  strip_column float_repr df col = Ok df' -> names df' = names df.
Proof.
  intros H. apply strip_column_ok in H as (c & Hc & ->).
  eapply names_setitem; eauto.
Qed.

Lemma strip_columns_names cols df df' :
  strip_columns float_repr df cols = Ok df' -> names df' = names df.
Proof.
  revert df. induction cols as [|col cols IH]; simpl; intros df H.
  - now inversion H.
  - destruct (has_column df col); [|now apply IH].
    apply rbind_ok in H as (df1 & H1 & H).
    rewrite (IH _ H). eapply strip_column_names; eauto.
Qed.

Lemma clean_number_names bad df col df' :
  clean_number parse_number bad df col = Ok df' -> names df' = names df.
Proof.
  intros H. apply clean_number_ok in H as (c & Hc & ->).
  eapply names_setitem; eauto.
Qed.

Lemma clean_integer_names bad df col df' :
  clean_integer parse_number bad df col = Ok df' -> names df' = names df.
Proof.
  intros H. apply clean_integer_ok in H as (c & v & Hc & _ & ->).
  eapply names_setitem; eauto.
Qed.

Lemma clean_flag_names df col df' :
  clean_flag float_repr df col = Ok df' -> names df' = names df.
Proof.
  intros H. apply clean_flag_ok in H as (c & Hc & ->).
  eapply names_setitem; eauto.
Qed.

Lemma when_column_names df col f df' :
  (forall d d', f d col = Ok d' -> names d' = names d) ->
  when_column df col f = Ok df' -> names df' = names df.
Proof.
  intros F H. apply when_column_ok in H as [[_ ->]|[_ H]];
    [reflexivity | now apply F].
Qed.

End Names.

(** Turns a step that returned into what it leaves of the labels. *)
Ltac names_from H :=
  first
    [ apply drop_duplicates_names in H
    | apply dropna_names in H
    | apply coerce_key_names in H
    | apply strip_column_names in H
    | apply strip_columns_names in H
    | apply clean_number_names in H
    | apply clean_integer_names in H
    | apply clean_flag_names in H
    | apply when_column_names in H;
      [ | let d := fresh "d" in
          let d' := fresh "d'" in
          let Hf := fresh "Hf" in
          intros d d' Hf; names_from Hf; exact Hf ] ].

Ltac names_of_steps :=
  repeat match goal with
         | H : _ = Ok _ |- _ => names_from H
         end.

Ltac chain_names H :=
  split_steps H; names_from H; names_of_steps; congruence.

Section CleanerNames.

Variable parse_number : string -> option number.
Variable float_repr : float64 -> string.
Variable current_year : Z.

Lemma cleaners_names clean df df' :
  In clean (cleaners parse_number float_repr current_year) ->
  clean df = Ok df' -> names df' = names df.
Proof.
  unfold cleaners. simpl.
  intros [<-|[<-|[<-|[<-|[<-|[<-|[]]]]]]] H.
  - unfold clean_core in H. chain_names H.
  - unfold clean_pricing in H. chain_names H.
  - unfold clean_vehicle in H. chain_names H.
  - unfold clean_specs in H. chain_names H.
  - unfold clean_appearance in H. chain_names H.
  - unfold clean_status in H. chain_names H.
Qed.

End CleanerNames.

Lemma subseq_length {A} (s l : list A) :
  subseq s l -> (List.length s <= List.length l)%nat.
Proof. induction 1; simpl; lia. Qed.

(** Each of the six cleaners returns a table with the columns of the raw
    one, under the same labels and in the same order: no column is added,
    dropped, renamed or moved.  The columns stay as long as the index,
    and the table has no more rows than the raw one. *)
Theorem cleaners_keep_columns
  (parse_number : string -> option number) (float_repr : float64 -> string)
  (current_year : Z) (clean : DataFrame -> result DataFrame)
  (df df' : DataFrame) :
  In clean (cleaners parse_number float_repr current_year) ->
  clean df = Ok df' ->
  names df' = names df
  /\ (well_formed df -> well_formed df')
  /\ (n_rows df' <= n_rows df)%nat.
Proof.
  intros Hin H.
  destruct (cleaners_shapes _ _ _ _ _ _ Hin H) as [S W].
  split; [eapply cleaners_names; eauto|].
  split; [exact W|]. now apply subseq_length.
Qed.

Lemma cleaners_keep_columns_witness :
  names pricing_cleaned = names pricing_table.
Proof.
  exact (proj1 (cleaners_keep_columns read_decimal print_decimal 2026
                  (clean_pricing read_decimal 2026)
                  pricing_table pricing_cleaned
                  (or_intror (or_introl eq_refl)) eq_refl)).
Defined.

(** ** How a cleaner fails *)

Lemma rbind_raise {A B} (r : result A) (k : A -> result B) (e : exn) :
  rbind r k = Raise e ->
  r = Raise e \/ exists a, r = Ok a /\ k a = Raise e.
Proof.
  destruct r as [a|e']; simpl; intros H; [eauto|].
  left. now inversion H.
Qed.

Lemma getitem_raise (df : DataFrame) (name : string) (e : exn) :
  getitem df name = Raise e ->
  has_column df name = false /\ exn_cls e = KeyError.
Proof.
  unfold getitem, has_column.
  destruct (dict_get (df_columns df) name); [discriminate|].
  intros H. inversion H. auto.
Qed.

Lemma getitem_absent (df : DataFrame) (name : string) :
  has_column df name = false ->
  getitem df name = Raise (mk_exn KeyError name).
Proof.
  unfold getitem, has_column.
  now destruct (dict_get (df_columns df) name).
Qed.

Lemma mapM_raise {A B} (f : A -> result B) (l : list A) (e : exn) :
  mapM f l = Raise e -> exists x, In x l /\ f x = Raise e.
Proof.
  induction l as [|x l IH]; simpl; [discriminate|].
  destruct (f x) as [y|e'] eqn:E.
  - destruct (mapM f l) as [ys|e'']; [discriminate|].
    intros H. inversion H; subst.
    destruct (IH eq_refl) as (x' & Hin & Hx). eauto.
  - intros H. inversion H; subst. eauto.
Qed.

Lemma drop_duplicates_raise df key e :
  drop_duplicates df key = Raise e ->
  has_column df key = false /\ exn_cls e = KeyError.
Proof.
  unfold drop_duplicates. intros H.
  apply rbind_raise in H as [H|(k & _ & H)]; [|discriminate].
  now apply getitem_raise.
Qed.

Lemma all_notna_raise df subset e :
  all_notna df subset = Raise e ->
  (exists name, In name subset /\ has_column df name = false)
  /\ exn_cls e = KeyError.
Proof.
  induction subset as [|name rest IH]; simpl; [discriminate|].
  intros H. apply rbind_raise in H as [H|(c & _ & H)].
  - apply getitem_raise in H as [H E]. eauto.
  - apply rbind_raise in H as [H|(m & _ & H)]; [|discriminate].
    destruct (IH H) as [(n & Hin & Hn) E]. eauto.
Qed.

Lemma dropna_raise df subset e :
  dropna df subset = Raise e ->
  (exists name, In name subset /\ has_column df name = false)
  /\ exn_cls e = KeyError.
Proof.
  unfold dropna. intros H.
  apply rbind_raise in H as [H|(m & _ & H)]; [|discriminate].
  now apply all_notna_raise.
Qed.

Lemma when_column_raise df col f e :
  when_column df col f = Raise e ->
  has_column df col = true /\ f df col = Raise e.
Proof.
  unfold when_column. destruct (has_column df col); [auto | discriminate].
Qed.

Section Raises.

Variable parse_number : string -> option number.
Variable float_repr : float64 -> string.
Variable current_year : Z.

Lemma pd_to_numeric_raise (c : column) (e : exn) :
  pd_to_numeric parse_number c = Raise e -> exn_cls e = OverflowError.
Proof.
  unfold pd_to_numeric. destruct c as [n|v|v]; try discriminate.
  destruct (existsb beyond_float v); [|discriminate].
  intros H. now inversion H.
Qed.

Lemma coerce_key_raise df e :
  coerce_key parse_number df = Raise e ->
  (has_column df "listing_id" = false /\ exn_cls e = KeyError)
  \/ (exn_cls e = TypeError \/ exn_cls e = OverflowError).
Proof.
  unfold coerce_key. intros H.
  apply rbind_raise in H as [H|(k & _ & H)].
  - left. now apply getitem_raise.
  - apply rbind_raise in H as [H|(a & _ & H)].
    + right. right. eapply pd_to_numeric_raise; eauto.
    + apply rbind_raise in H as [H|(v & _ & H)]; [|discriminate].
      right. eapply astype_Int64_class; eauto.
Qed.

Lemma strip_column_raise df col e :
  strip_column float_repr df col = Raise e ->
  has_column df col = false /\ exn_cls e = KeyError.
Proof.
  unfold strip_column. intros H.
  apply rbind_raise in H as [H|(c & _ & H)]; [|discriminate].
  now apply getitem_raise.
Qed.

Lemma strip_columns_raise cols df e :
  strip_columns float_repr df cols <> Raise e.
Proof.
  destruct (strip_columns_returns float_repr cols df) as [df' ->].
  discriminate.
Qed.

Lemma clean_number_raise bad df col e :
  clean_number parse_number bad df col = Raise e ->
  (has_column df col = false /\ exn_cls e = KeyError)
  \/ (exn_cls e = TypeError \/ exn_cls e = OverflowError).
Proof.
  unfold clean_number. intros H.
  apply rbind_raise in H as [H|(c & _ & H)].
  - left. now apply getitem_raise.
  - apply rbind_raise in H as [H|(a & _ & H)]; [|discriminate].
    right. right. eapply pd_to_numeric_raise; eauto.
Qed.

Lemma clean_integer_raise bad df col e :
  clean_integer parse_number bad df col = Raise e ->
  (has_column df col = false /\ exn_cls e = KeyError)
  \/ (exn_cls e = TypeError \/ exn_cls e = OverflowError).
Proof.
  unfold clean_integer. intros H.
  apply rbind_raise in H as [H|(c & _ & H)].
  - left. now apply getitem_raise.
  - apply rbind_raise in H as [H|(a & _ & H)].
    + right. right. eapply pd_to_numeric_raise; eauto.
    + apply rbind_raise in H as [H|(v & _ & H)]; [|discriminate].
      right. eapply astype_Int64_class; eauto.
Qed.

Lemma clean_flag_raise df col e :
  clean_flag float_repr df col = Raise e ->
  has_column df col = false /\ exn_cls e = KeyError.
Proof.
  unfold clean_flag. intros H.
  apply rbind_raise in H as [H|(c & _ & H)]; [|discriminate].
  now apply getitem_raise.
Qed.

End Raises.

Lemma validate_columns_ok (df : DataFrame) (required_cols : list string)
  (table_name : string) :
  validate_columns df required_cols table_name = Ok tt
  <-> forall c, In c required_cols -> has_column df c = true.
Proof.
  unfold validate_columns.
  destruct (filter _ required_cols) as [|m ms] eqn:F.
  - split; [|reflexivity]. intros _ c Hc.
    destruct (has_column df c) eqn:E; [reflexivity|].
    assert (Hin : In c (filter (fun c => negb (has_column df c))
                          required_cols)).
    { apply filter_In. split; [assumption|]. now rewrite E. }
    rewrite F in Hin. contradiction.
  - split; [discriminate|]. intros H.
    assert (Hin : In m (filter (fun c => negb (has_column df c))
                          required_cols)) by (rewrite F; now left).
    apply filter_In in Hin as [Hin Hm]. rewrite (H _ Hin) in Hm.
    discriminate.
Qed.

(** Splits a cleaner that raised into its steps: one goal for each step
    that may have raised, the steps before it having returned. *)
Ltac split_raise H :=
  repeat match type of H with
         | rbind _ _ = Raise _ =>
             apply rbind_raise in H; destruct H as [H|(? & ? & H)]
         end.

Ltac labels_back :=
  names_of_steps;
  repeat match goal with
         | H : has_column _ _ = _ |- _ => rewrite has_column_of_names in H
         end;
  congruence.

(** The step that raised, a validated frame: the cast, or nothing. *)
Ltac raised_step H :=
  lazymatch type of H with
  | drop_duplicates _ _ = Raise _ =>
      apply drop_duplicates_raise in H; destruct H as [H _]; labels_back
  | dropna _ _ = Raise _ =>
      apply dropna_raise in H; destruct H as [(? & Hin & H) _];
      simpl in Hin;
      repeat (destruct Hin as [<-|Hin]; [labels_back|]); contradiction
  | coerce_key _ _ = Raise _ =>
      apply coerce_key_raise in H; destruct H as [[H _]|H];
      [labels_back | exact H]
  | strip_column _ _ _ = Raise _ =>
      apply strip_column_raise in H; destruct H as [H _]; labels_back
  | strip_columns _ _ _ = Raise _ =>
      exfalso; eapply strip_columns_raise; exact H
  | when_column _ _ _ = Raise _ =>
      let Hc := fresh "Hc" in
      apply when_column_raise in H; destruct H as [Hc H];
      first
        [ apply clean_number_raise in H; destruct H as [[H _]|H];
          [congruence | exact H]
        | apply clean_flag_raise in H; destruct H as [H _]; congruence
        | apply strip_column_raise in H; destruct H as [H _]; congruence
        | apply clean_integer_raise in H; destruct H as [[H _]|H];
          [congruence | exact H] ]
  end.

(** Once [validate_columns] has passed on a raw table, as in [main], the
    cleaner of that table returns or raises an error of the coercion to
    numbers or of the cast to "Int64", [TypeError] or [OverflowError]:
    no step of it fails on a column that is not there.  On a table
    without [listing_id], each cleaner raises [KeyError]. *)
Theorem validated_cleaner_fails_only_by_cast
  (parse_number : string -> option number) (float_repr : float64 -> string)
  (current_year : Z) (name : string) (required : list string)
  (clean : DataFrame -> result DataFrame) (df : DataFrame) :
  In (name, required, clean) (tables parse_number float_repr current_year) ->
  (validate_columns df required name = Ok tt ->
   forall e, clean df = Raise e ->
             exn_cls e = TypeError \/ exn_cls e = OverflowError)
  /\ (has_column df "listing_id" = false ->
      exists e, clean df = Raise e /\ exn_cls e = KeyError).
Proof.
  unfold tables. simpl.
  intros [E|[E|[E|[E|[E|[E|[]]]]]]]; inversion E; subst; clear E; split.
  all: try (intros K;
            cbv delta [clean_core clean_pricing clean_vehicle clean_specs
                         clean_appearance clean_status drop_duplicates];
            cbv beta; rewrite (getitem_absent _ _ K); simpl;
            eexists; split; reflexivity).
  all: intros V e H; rewrite validate_columns_ok in V;
    assert (K : has_column df "listing_id" = true)
      by (apply V; simpl; auto).
  - assert (U : has_column df "url" = true) by (apply V; simpl; auto).
    unfold clean_core in H. split_raise H; raised_step H.
  - unfold clean_pricing in H. split_raise H; raised_step H.
  - unfold clean_vehicle in H. split_raise H; raised_step H.
  - unfold clean_specs in H. split_raise H; raised_step H.
  - unfold clean_appearance in H. split_raise H; raised_step H.
  - unfold clean_status in H. split_raise H; raised_step H.
Qed.

Lemma validated_cleaner_fails_witness :
  exists e, clean_pricing read_decimal 2026 pricing_half_year = Raise e
            /\ (exn_cls e = TypeError \/ exn_cls e = OverflowError).
Proof.
  eexists. split; [reflexivity|].
  exact (proj1 (validated_cleaner_fails_only_by_cast read_decimal
                  print_decimal 2026 "pricing" ["listing_id"]
                  (clean_pricing read_decimal 2026) pricing_half_year
                  (or_intror (or_introl eq_refl)))
           eq_refl _ eq_refl).
Defined.

(** ** Rows [dropna] keeps *)

Lemma select_and_left {A} (f : A -> bool) (b : list bool) (l : list A) :
  Forall (fun z => f z = true) (select (zip_with andb (map f l) b) l).
Proof.
  revert b. induction l as [|x l IH]; intros [|c b]; simpl;
    try constructor.
  destruct (f x) eqn:E; simpl; [|apply IH].
  destruct c; simpl; [constructor; auto | apply IH].
Qed.

Lemma select_and_right {A} (P : A -> Prop) (a b : list bool) (l : list A) :
  Forall P (select b l) -> Forall P (select (zip_with andb a b) l).
Proof.
  revert a b. induction l as [|z l IH]; intros [|x a] [|y b]; simpl;
    try constructor.
  destruct x, y; simpl; intros H; try (inversion H; subst);
    try constructor; auto.
Qed.

(** The cells [dropna] leaves in a column of its subset are present. *)
Lemma all_notna_present df subset m name c :
  all_notna df subset = Ok m -> In name subset -> getitem df name = Ok c ->
  Forall (fun z => isna z = false) (select m (col_values c)).
Proof.
  revert m. induction subset as [|n rest IH]; simpl; intros m H Hin G;
    [contradiction|].
  apply rbind_ok in H as (c1 & G1 & H).
  apply rbind_ok in H as (m1 & Hm & E). inversion E; subst; clear E.
  destruct Hin as [->|Hin].
  - rewrite G in G1. inversion G1; subst c1.
    unfold col_notna. rewrite col_isna_values, map_map.
    eapply Forall_impl;
      [|apply (select_and_left (fun z => negb (isna z)))].
    intros z Hz. simpl in Hz. now destruct (isna z).
  - apply select_and_right. eapply IH; eauto.
Qed.

Lemma dropna_present df subset df' name i z :
  dropna df subset = Ok df' -> In name subset ->
  In (i, z) (cells df' name) -> isna z = false.
Proof.
  intros H Hin Hc. apply dropna_ok in H as (m & Hm & ->).
  rewrite cells_select in Hc. unfold cells in Hc.
  destruct (getitem df name) as [c|e] eqn:G.
  - unfold labelled in Hc. rewrite select_combine in Hc.
    apply in_combine_r in Hc.
    pose proof (all_notna_present _ _ _ _ _ Hm Hin G) as F.
    rewrite Forall_forall in F. auto.
  - destruct m; contradiction.
Qed.

Lemma cleaned_key_cells (parse_number : string -> option number)
  (float_repr : float64 -> string) (current_year : Z)
  (clean : DataFrame -> result DataFrame) (df df' : DataFrame)
  (i : Z) (z : scalar) :
  In clean (cleaners parse_number float_repr current_year) ->
  clean df = Ok df' ->
  In (i, z) (cells df' "listing_id") -> exists k, z = NpInt64 k.
Proof.
  intros Hin H Hz.
  destruct (cleaners_key_pipeline _ _ _ _ _ _ Hin H)
    as (k & v & m & _ & _ & G').
  assert (N : isna z = false).
  { revert Hin H. unfold cleaners. simpl.
    intros [<-|[<-|[<-|[<-|[<-|[<-|[]]]]]]] H;
      [ unfold clean_core in H | unfold clean_pricing in H
      | unfold clean_vehicle in H | unfold clean_specs in H
      | unfold clean_appearance in H | unfold clean_status in H ];
      split_steps H;
      (eapply dropna_present; [exact H | | exact Hz]); simpl; auto. }
  unfold cells in Hz. rewrite G' in Hz. unfold labelled in Hz.
  apply in_combine_r in Hz. simpl in Hz.
  apply in_map_iff in Hz as ([z0|] & <- & _); simpl in *;
    [eauto | discriminate].
Qed.

Lemma cleaned_url_cells (parse_number : string -> option number)
  (float_repr : float64 -> string) (df df' : DataFrame)
  (i : Z) (z : scalar) :
  clean_core parse_number float_repr df = Ok df' ->
  In (i, z) (cells df' "url") -> exists s, z = PyStr s.
Proof.
  intros H Hz. unfold clean_core in H. split_steps H.
  assert (N : isna z = false).
  { eapply dropna_present; [exact H | | exact Hz]. simpl. auto. }
  apply dropna_ok in H as (m & _ & ->).
  match goal with
  | H3 : strip_column _ _ _ = Ok _ |- _ =>
      apply strip_column_ok in H3 as (c & _ & ->)
  end.
  rewrite cells_select, cells_setitem_same in Hz.
  apply select_In, in_combine_r in Hz. simpl in Hz.
  apply in_map_iff in Hz as ([s|] & <- & _); simpl in *;
    [eauto | discriminate].
Qed.

(** Every cleaned table has a key in each row: the cells of [listing_id]
    are integers of the "Int64" column, none of them missing.  In the
    cleaned Core table every [url] is text. *)
Theorem cleaned_rows_have_their_key
  (parse_number : string -> option number) (float_repr : float64 -> string)
  (current_year : Z) (df : DataFrame) :
  (forall clean df',
     In clean (cleaners parse_number float_repr current_year) ->
     clean df = Ok df' ->
     Forall (fun k => exists z, k = NpInt64 z) (keys_of df'))
  /\ (forall df',
        clean_core parse_number float_repr df = Ok df' ->
        Forall (fun u => exists s, u = PyStr s)
          (map snd (cells df' "url"))).
Proof.
  split.
  - intros clean df' Hin H. unfold keys_of.
    rewrite Forall_map, Forall_forall. intros [i z] Hz. simpl.
    eapply cleaned_key_cells; eauto.
  - intros df' H. rewrite Forall_map, Forall_forall.
    intros [i z] Hz. simpl. eapply cleaned_url_cells; eauto.
Qed.

Lemma cleaned_rows_have_their_key_witness :
  Forall (fun k => exists z, k = NpInt64 z) (keys_of core_blank_url_cleaned).
Proof.
  exact (proj1 (cleaned_rows_have_their_key read_decimal print_decimal 2026
                  core_blank_url)
           (clean_core read_decimal print_decimal) core_blank_url_cleaned
           (or_introl eq_refl) eq_refl).
Defined.

(** ** Rows a child cleaner keeps *)

Section IndexKept.

Variable parse_number : string -> option number.
Variable float_repr : float64 -> string.

Lemma strip_column_index df col df' :
  strip_column float_repr df col = Ok df' -> df_index df' = df_index df.
Proof. intros H. apply strip_column_ok in H as (c & _ & ->). reflexivity. Qed.

Lemma strip_columns_index cols df df' :
  strip_columns float_repr df cols = Ok df' -> df_index df' = df_index df.
Proof.
  revert df. induction cols as [|col cols IH]; simpl; intros df H.
  - now inversion H.
  - destruct (has_column df col); [|now apply IH].
    apply rbind_ok in H as (df1 & H1 & H).
    rewrite (IH _ H). eapply strip_column_index; eauto.
Qed.

Lemma when_column_index col f df df' :
  (forall d d', f d col = Ok d' -> exists c, d' = setitem d col c) ->
  when_column df col f = Ok df' -> df_index df' = df_index df.
Proof.
  intros F H. apply when_column_ok in H as [[_ ->]|[_ H]]; [reflexivity|].
  destruct (F _ _ H) as [c ->]. reflexivity.
Qed.

(** The rows kept by the steps every child cleaner is made of: the
    duplicates go, the key is cast, and the rows without a key go. *)
Lemma key_steps_keep (df d1 d2 d df' : DataFrame) :
  well_formed df ->
  drop_duplicates df "listing_id" = Ok d1 ->
  coerce_key parse_number d1 = Ok d2 ->
  df_index d = df_index d2 ->
  getitem d "listing_id" = getitem d2 "listing_id" ->
  dropna d ["listing_id"] = Ok df' ->
  exists k v,
    getitem df "listing_id" = Ok k
    /\ astype_Int64
         (to_numeric parse_number
            (col_select (map negb (col_duplicated k)) k)) = Ok v
    /\ df_index df'
       = select (key_present v)
           (select (map negb (col_duplicated k)) (df_index df))
    /\ getitem df' "listing_id" = Ok (Col_Int64 (select (key_present v) v)).
Proof.
  intros W H1 H2 Hidx Hget H.
  destruct (drop_duplicates_ok _ _ _ H1) as (k & G & ->).
  destruct (coerce_key_ok _ _ _ H2) as (k1 & v & G1 & C & ->).
  rewrite getitem_select, G in G1. simpl in G1.
  inversion G1; subst k1; clear G1.
  exists k, v. split; [exact G|]. split; [exact C|].
  apply dropna_ok in H as (m & Hm & ->). simpl in Hm.
  rewrite Hget, getitem_setitem_same in Hm. simpl in Hm.
  inversion Hm; subst m; clear Hm.
  rewrite getitem_select, Hget, getitem_setitem_same. simpl.
  rewrite Hidx. simpl.
  assert (L : List.length v
              = List.length (select (map negb (col_duplicated k))
                               (df_index df))).
  { rewrite (astype_Int64_length _ _ C), to_numeric_len.
    apply col_select_len. apply (getitem_wf _ _ _ W G). }
  unfold col_notna. simpl. rewrite map_map.
  rewrite zip_with_andb_true by (now rewrite length_map).
  split; reflexivity.
Qed.

End IndexKept.

Ltac index_untouched :=
  repeat match goal with
         | H : when_column ?d0 ?col ?f = Ok ?d
           |- context [df_index ?d] =>
             rewrite (when_column_index col f d0 d ltac:(sets_column) H)
         | H : strip_columns ?r ?d0 ?cols = Ok ?d
           |- context [df_index ?d] =>
             rewrite (strip_columns_index r cols d0 d H)
         | H : strip_column ?r ?d0 ?col = Ok ?d
           |- context [df_index ?d] =>
             rewrite (strip_column_index r d0 col d H)
         end.

Ltac child_steps W H :=
  split_steps H;
  eapply key_steps_keep; [exact W | eassumption | eassumption | | | exact H];
  [index_untouched; reflexivity | key_untouched; reflexivity].

Section ChildKeeps.

Variable parse_number : string -> option number.
Variable float_repr : float64 -> string.
Variable current_year : Z.

Lemma child_keeps clean df df' :
  In clean (child_cleaners parse_number float_repr current_year) ->
  well_formed df ->
  clean df = Ok df' ->
  exists k v,
    getitem df "listing_id" = Ok k
    /\ astype_Int64
         (to_numeric parse_number
            (col_select (map negb (col_duplicated k)) k)) = Ok v
    /\ df_index df'
       = select (key_present v)
           (select (map negb (col_duplicated k)) (df_index df))
    /\ getitem df' "listing_id" = Ok (Col_Int64 (select (key_present v) v)).
Proof.
  unfold child_cleaners. simpl.
  intros [<-|[<-|[<-|[<-|[<-|[]]]]]] W H.
  - unfold clean_pricing in H. child_steps W H.
  - unfold clean_vehicle in H. child_steps W H.
  - unfold clean_specs in H. child_steps W H.
  - unfold clean_appearance in H. child_steps W H.
  - unfold clean_status in H. child_steps W H.
Qed.

End ChildKeeps.

(** The rows a child cleaner keeps are read off the key column alone:
    they are the rows whose key is the first of its raw value and is
    present after the cast to "Int64", in source order.  What the other
    columns hold has no say in it. *)
Theorem child_rows_kept_by_key
  (parse_number : string -> option number) (float_repr : float64 -> string)
  (current_year : Z) (clean : DataFrame -> result DataFrame)
  (df df' : DataFrame) :
  In clean (child_cleaners parse_number float_repr current_year) ->
  well_formed df ->
  clean df = Ok df' ->
  exists k v,
    getitem df "listing_id" = Ok k
    /\ astype_Int64
         (to_numeric parse_number
            (col_select (map negb (col_duplicated k)) k)) = Ok v
    /\ df_index df'
       = select (key_present v)
           (select (map negb (col_duplicated k)) (df_index df)).
Proof.
  intros Hin W H.
  destruct (child_keeps _ _ _ _ _ _ Hin W H) as (k & v & G & C & I & _).
  eauto.
Qed.

Lemma pricing_table_well_formed : well_formed pricing_table.
Proof. repeat constructor. Qed.

Lemma child_rows_kept_by_key_witness :
  exists k v,
    getitem pricing_table "listing_id" = Ok k
    /\ astype_Int64
         (to_numeric read_decimal
            (col_select (map negb (col_duplicated k)) k)) = Ok v
    /\ df_index pricing_cleaned
       = select (key_present v)
           (select (map negb (col_duplicated k)) (df_index pricing_table)).
Proof.
  exact (child_rows_kept_by_key read_decimal print_decimal 2026
           (clean_pricing read_decimal 2026) pricing_table pricing_cleaned
           (or_introl eq_refl) pricing_table_well_formed eq_refl).
Defined.

(** ** Integer keys: one row for each, the first *)

Lemma select_all_true {A B} (x : list B) (l : list A) :
  (List.length l <= List.length x)%nat ->
  select (map (fun _ => true) x) l = l.
Proof.
  revert x. induction l as [|a l IH]; intros [|b x] H; simpl in *;
    try reflexivity; try lia.
  f_equal. apply IH. lia.
Qed.

Lemma dedup_complete (seen l : list Z) (z : Z) :
  In z l ->
  In z (select (map negb (duplicated_from Z.eqb seen l)) l) \/ In z seen.
Proof.
  revert seen. induction l as [|x l IH]; intros seen H; [contradiction|].
  simpl. destruct H as [->|H].
  - destruct (existsb (Z.eqb z) seen) eqn:E; simpl.
    + right. now apply existsb_eqb_In.
    + left. now left.
  - destruct (IH (x :: seen) H) as [Hin|[->|Hin]].
    + left. destruct (existsb (Z.eqb x) seen); simpl; auto.
    + destruct (existsb (Z.eqb z) seen) eqn:E; simpl.
      * right. now apply existsb_eqb_In.
      * left. now left.
    + now right.
Qed.

Lemma duplicated_from_length {A} (eqb : A -> A -> bool) (seen l : list A) :
  List.length (duplicated_from eqb seen l) = List.length l.
Proof.
  revert seen. induction l as [|x l IH]; intros seen; simpl; auto.
Qed.

Lemma duplicated_from_nth (seen l : list Z) (p : nat) (z : Z) (b : bool) :
  nth_error (duplicated_from Z.eqb seen l) p = Some b ->
  nth_error l p = Some z ->
  (b = true <-> In z seen \/ In z (firstn p l)).
Proof.
  revert seen p. induction l as [|x l IH]; intros seen [|p] Hb Hz;
    simpl in *; try discriminate.
  - inversion Hb; subst. inversion Hz; subst.
    rewrite existsb_eqb_In. tauto.
  - rewrite (IH _ _ Hb Hz). simpl. intuition congruence.
Qed.

Lemma select_nth_NoDup {A} (m : list bool) (idx : list A) (p : nat) (i : A) :
  NoDup idx -> nth_error idx p = Some i ->
  (In i (select m idx) <-> nth_error m p = Some true).
Proof.
  intros N. revert m p. induction N as [|j idx Hj N IH]; intros m p H.
  - destruct p; discriminate.
  - destruct m as [|b m].
    + simpl. destruct p; simpl; split; intros F;
        try contradiction; discriminate.
    + destruct p as [|p]; simpl in H.
      * inversion H; subst. simpl. destruct b; simpl.
        -- split; auto.
        -- split; [|discriminate]. intros F. apply select_In in F.
           contradiction.
      * assert (NE : j <> i).
        { intros ->. apply Hj. eapply nth_error_In; eauto. }
        simpl. rewrite <- (IH m p H).
        destruct b; simpl; intuition.
Qed.

Section IntegerKeys.

Variable parse_number : string -> option number.
Variable float_repr : float64 -> string.
Variable current_year : Z.

(** A child table with an int64 key column: the rows kept. *)
Lemma child_int64_keeps clean df df' (l : list Z) :
  In clean (child_cleaners parse_number float_repr current_year) ->
  well_formed df ->
  getitem df "listing_id" = Ok (Col_int64 l) ->
  clean df = Ok df' ->
  df_index df'
  = select (map negb (duplicated_by Z.eqb l)) (df_index df)
  /\ keys_of df'
     = map NpInt64 (select (map negb (duplicated_by Z.eqb l)) l).
Proof.
  intros Hin W G H.
  destruct (child_keeps _ _ _ _ _ _ Hin W H) as (k & v & Gk & C & I & G').
  rewrite G in Gk. inversion Gk; subst k; clear Gk.
  simpl in C. destruct (forallb in_int64 _); [|discriminate].
  inversion C; subst v; clear C.
  simpl in I, G'.
  assert (L : List.length (select (map negb (duplicated_by Z.eqb l))
                             (df_index df))
              = List.length (select (map negb (duplicated_by Z.eqb l)) l)).
  { apply select_length. symmetry. apply (getitem_wf _ _ _ W G). }
  unfold key_present in *. rewrite map_map in *. simpl in *.
  rewrite select_all_true in I by lia.
  rewrite select_all_true in G' by (rewrite length_map; lia).
  split; [exact I|].
  unfold keys_of, cells, labelled. rewrite G', I. simpl.
  rewrite map_map. simpl.
  generalize (select (map negb (duplicated_by Z.eqb l)) l) L.
  generalize (select (map negb (duplicated_by Z.eqb l)) (df_index df)).
  clear. intros a. induction a as [|i a IH]; intros [|z b] L;
    simpl in *; try discriminate; [reflexivity|].
  f_equal. apply IH. lia.
Qed.

End IntegerKeys.

(** Where the raw [listing_id] column is an int64 column, no two rows of
    a cleaned table share a key and every cleaned key is a raw key; in a
    child table every raw key is kept, so each key has exactly one row. *)
Theorem int64_keys_kept_once
  (parse_number : string -> option number) (float_repr : float64 -> string)
  (current_year : Z) (clean : DataFrame -> result DataFrame)
  (df df' : DataFrame) (l : list Z) :
  In clean (cleaners parse_number float_repr current_year) ->
  getitem df "listing_id" = Ok (Col_int64 l) ->
  clean df = Ok df' ->
  NoDup (keys_of df')
  /\ (forall z, In (NpInt64 z) (keys_of df') -> In z l)
  /\ (In clean (child_cleaners parse_number float_repr current_year) ->
      well_formed df ->
      forall z, In z l -> In (NpInt64 z) (keys_of df')).
Proof.
  intros Hin G H.
  split; [eapply int64_keys_unique; eauto|]. split.
  - intros z Hz.
    destruct (cleaners_key_pipeline _ _ _ _ _ _ Hin H)
      as (k & v & m & Gk & C & G').
    rewrite G in Gk. inversion Gk; subst k; clear Gk.
    simpl in C. destruct (forallb in_int64 _); [|discriminate].
    inversion C; subst v; clear C.
    unfold keys_of, cells, labelled in Hz. rewrite G' in Hz.
    apply in_map_iff in Hz as ([i x] & E & Hx). simpl in E. subst x.
    apply in_combine_r in Hx. simpl in Hx.
    apply in_map_iff in Hx as (o & E & Ho).
    apply select_In in Ho.
    apply in_map_iff in Ho as (z' & <- & Hz').
    apply select_In in Hz'. simpl in E. inversion E. now subst.
  - intros Hc W z Hz.
    destruct (child_int64_keeps _ _ _ _ _ _ _ Hc W G H) as [_ ->].
    apply in_map.
    destruct (dedup_complete [] l z Hz) as [F|[]]. exact F.
Qed.

Lemma int64_keys_kept_once_witness : NoDup (keys_of pricing_cleaned).
Proof.
  exact (proj1 (int64_keys_kept_once read_decimal print_decimal 2026
                  (clean_pricing read_decimal 2026)
                  pricing_table pricing_cleaned [1; 2; 3; 4]
                  (or_intror (or_introl eq_refl)) eq_refl eq_refl)).
Defined.

(** In a child table whose raw [listing_id] column is an int64 column,
    the row kept for a key is the first row of the raw table with that
    key: the row at position [p] is kept exactly when its key is in no
    row before it. *)
Theorem first_row_of_each_key_is_kept
  (parse_number : string -> option number) (float_repr : float64 -> string)
  (current_year : Z) (clean : DataFrame -> result DataFrame)
  (df df' : DataFrame) (l : list Z) (p : nat) (i z : Z) :
  In clean (child_cleaners parse_number float_repr current_year) ->
  well_formed df -> NoDup (df_index df) ->
  getitem df "listing_id" = Ok (Col_int64 l) ->
  clean df = Ok df' ->
  nth_error (df_index df) p = Some i ->
  nth_error l p = Some z ->
  (In i (df_index df') <-> ~ In z (firstn p l)).
Proof.
  intros Hin W N G H Hi Hz.
  destruct (child_int64_keeps _ _ _ _ _ _ _ Hin W G H) as [-> _].
  rewrite (select_nth_NoDup _ _ _ _ N Hi).
  rewrite nth_error_map. unfold duplicated_by.
  destruct (nth_error (duplicated_from Z.eqb [] l) p) as [b|] eqn:E.
  - pose proof (duplicated_from_nth _ _ _ _ _ E Hz) as D. simpl.
    destruct b; simpl; split; intros F.
    + discriminate.
    + exfalso. apply F. destruct D as [D _].
      destruct (D eq_refl) as [[]|D']. exact D'.
    + intros Hf. destruct D as [_ D].
      assert (false = true) by (apply D; now right). discriminate.
    + reflexivity.
  - apply nth_error_None in E. rewrite duplicated_from_length in E.
    assert (p < List.length l)%nat by (apply nth_error_Some; congruence).
    lia.
Qed.

Lemma vehicle_repeated_key_well_formed : well_formed vehicle_repeated_key.
Proof. repeat constructor. Qed.

Lemma vehicle_repeated_key_labels : NoDup (df_index vehicle_repeated_key).
Proof. repeat constructor; simpl; intuition discriminate. Qed.

Lemma first_row_of_each_key_witness :
  In 1 (df_index vehicle_repeated_key_cleaned) <-> ~ In 7 (firstn 1 [7; 7; 8]).
Proof.
  exact (first_row_of_each_key_is_kept read_decimal print_decimal 2026
           (clean_vehicle read_decimal print_decimal)
           vehicle_repeated_key vehicle_repeated_key_cleaned [7; 7; 8]
           1%nat 1 7
           (or_intror (or_introl eq_refl))
           vehicle_repeated_key_well_formed vehicle_repeated_key_labels
           eq_refl eq_refl eq_refl eq_refl).
Defined.

(** ** Text columns *)

Lemma text_rule_cases (float_repr : float64 -> string) (x z : scalar) :
  text_rule float_repr x z ->
  (isna x = true -> z = PdNA)
  /\ (forall s, x = PyStr s -> z = PyStr (strip s)).
Proof.
  unfold text_rule, cell_text. intros ->. split.
  - now intros ->.
  - now intros s ->.
Qed.

Section TextColumns.

Variable parse_number : string -> option number.
Variable float_repr : float64 -> string.
Variable current_year : Z.

Lemma strip_columns_rule name cols df df' :
  NoDup cols -> In name cols ->
  strip_columns float_repr df cols = Ok df' ->
  tracks (text_rule float_repr) name df df'.
Proof.
  intros N. revert df. induction N as [|col cols Hc N IH]; intros df Hin H;
    [contradiction|].
  simpl in H. destruct Hin as [->|Hin].
  - destruct (has_column df name) eqn:E.
    + apply rbind_ok in H as (df1 & H1 & H).
      eapply tracks_after; [eapply strip_column_rule; eauto|].
      eapply strip_columns_tracks; eauto.
    + eapply tracks_after; [now apply tracks_absent|].
      eapply strip_columns_tracks; eauto.
  - assert (NE : name <> col) by (intros ->; contradiction).
    destruct (has_column df col); [|now apply IH].
    apply rbind_ok in H as (df1 & H1 & H).
    eapply tracks_before; [eapply strip_column_tracks; eauto|].
    now apply IH.
Qed.

End TextColumns.

Ltac strips_it :=
  first
    [ eapply strip_columns_rule; [ | | eassumption ];
      [ repeat constructor; simpl; intuition discriminate
      | simpl; auto 10 ]
    | eapply when_column_rule; [ | eassumption ];
      intros ? ?; apply strip_column_rule
    | eapply strip_column_rule; eassumption ].

Section Rules.

Variable parse_number : string -> option number.
Variable float_repr : float64 -> string.
Variable current_year : Z.

Lemma clean_core_url df df' :
  clean_core parse_number float_repr df = Ok df' ->
  tracks (text_rule float_repr) "url" df df'.
Proof. unfold clean_core. intros H. to_the_step H. strips_it. Qed.

Lemma clean_vehicle_text col df df' :
  In col ["make"; "model"] ->
  clean_vehicle parse_number float_repr df = Ok df' ->
  tracks (text_rule float_repr) col df df'.
Proof.
  unfold clean_vehicle. intros Hin H. simpl in Hin.
  destruct Hin as [<-|[<-|[]]]; to_the_step H; strips_it.
Qed.

Lemma clean_specs_text col df df' :
  In col ["engine_type"; "transmission"; "drive_type"; "steering_wheel";
          "comfort"] ->
  clean_specs parse_number float_repr df = Ok df' ->
  tracks (text_rule float_repr) col df df'.
Proof.
  unfold clean_specs. intros Hin H. simpl in Hin.
  destruct Hin as [<-|[<-|[<-|[<-|[<-|[]]]]]]; to_the_step H; strips_it.
Qed.

Lemma clean_specs_numbers col df df' :
  In col ["engine_size"; "wheel_size"] ->
  clean_specs parse_number float_repr df = Ok df' ->
  tracks (number_rule parse_number number_le0) col df df'.
Proof.
  unfold clean_specs. intros Hin H. simpl in Hin.
  destruct Hin as [<-|[<-|[]]]; to_the_step H;
    (eapply when_column_rule; [|eassumption]); intros d d';
    apply clean_number_rule; now right.
Qed.

Lemma clean_appearance_text col df df' :
  In col ["body_type"; "color"; "interior_material"] ->
  clean_appearance parse_number float_repr df = Ok df' ->
  tracks (text_rule float_repr) col df df'.
Proof.
  unfold clean_appearance. intros Hin H. simpl in Hin.
  destruct Hin as [<-|[<-|[<-|[]]]]; to_the_step H; strips_it.
Qed.

Lemma clean_appearance_flag df df' :
  clean_appearance parse_number float_repr df = Ok df' ->
  tracks (flag_rule float_repr) "sunroof" df df'.
Proof.
  unfold clean_appearance. intros H. to_the_step H.
  eapply when_column_rule; [|eassumption]. intros d d'.
  apply clean_flag_rule.
Qed.

Lemma clean_status_flag df df' :
  clean_status parse_number float_repr df = Ok df' ->
  tracks (flag_rule float_repr) "cleared_customs" df df'.
Proof.
  unfold clean_status. intros H. to_the_step H.
  eapply when_column_rule; [|eassumption]. intros d d'.
  apply clean_flag_rule.
Qed.

Lemma clean_status_text df df' :
  clean_status parse_number float_repr df = Ok df' ->
  tracks (text_rule float_repr) "condition" df df'.
Proof. unfold clean_status. intros H. to_the_step H. strips_it. Qed.

Lemma clean_pricing_price df df' :
  clean_pricing parse_number current_year df = Ok df' ->
  tracks (number_rule parse_number number_lt0) "price" df df'.
Proof.
  unfold clean_pricing. intros H. to_the_step H.
  eapply when_column_rule; [|eassumption]. intros d d'.
  apply clean_number_rule. now left.
Qed.

Lemma clean_pricing_year df df' :
  clean_pricing parse_number current_year df = Ok df' ->
  tracks (integer_rule parse_number (year_bad current_year)) "year" df df'.
Proof.
  unfold clean_pricing. intros H. to_the_step H.
  eapply when_column_rule; [|eassumption]. intros d d'.
  apply clean_integer_rule. apply year_out_of_range_cells.
Qed.

Lemma clean_pricing_mileage df df' :
  clean_pricing parse_number current_year df = Ok df' ->
  tracks (integer_rule parse_number mileage_bad) "mileage" df df'.
Proof.
  unfold clean_pricing. intros H. to_the_step H.
  eapply when_column_rule; [|eassumption]. intros d d'.
  apply clean_integer_rule. reflexivity.
Qed.

Lemma clean_vehicle_returns (df : DataFrame) :
  column_ok (casts_to_Int64 parse_number) "listing_id" df ->
  exists df', clean_vehicle parse_number float_repr df = Ok df'.
Proof.
  intros K.
  destruct (drop_duplicates_returns _ df "listing_id" K) as [d1 H1].
  destruct (coerce_key_returns parse_number d1) as [d2 H2]; [carried|].
  destruct (strip_columns_returns float_repr ["make"; "model"] d2)
    as [d3 H3].
  destruct (dropna_returns d3 ["listing_id"]) as [d4 H4];
    [repeat (apply Forall_cons; [cbv beta; carried|]); apply Forall_nil|].
  exists d4. unfold clean_vehicle. run_steps. exact H4.
Qed.

Lemma clean_specs_returns (df : DataFrame) :
  column_ok (casts_to_Int64 parse_number) "listing_id" df ->
  optional_ok readable "engine_size" df ->
  optional_ok readable "wheel_size" df ->
  exists df', clean_specs parse_number float_repr df = Ok df'.
Proof.
  intros K E W.
  destruct (drop_duplicates_returns _ df "listing_id" K) as [d1 H1].
  destruct (coerce_key_returns parse_number d1) as [d2 H2]; [carried|].
  destruct (when_number_returns parse_number arr_le0 d2 "engine_size")
    as [d3 H3]; [carried|].
  destruct (when_number_returns parse_number arr_le0 d3 "wheel_size")
    as [d4 H4]; [carried|].
  destruct (strip_columns_returns float_repr
              ["engine_type"; "transmission"; "drive_type";
               "steering_wheel"; "comfort"] d4) as [d5 H5].
  destruct (dropna_returns d5 ["listing_id"]) as [d6 H6];
    [repeat (apply Forall_cons; [cbv beta; carried|]); apply Forall_nil|].
  exists d6. unfold clean_specs. run_steps. exact H6.
Qed.

End Rules.

(** The specs cleaner returns a table whenever the raw table has a
    [listing_id] column whose cells are missing, no numbers, or integers
    of magnitude at most 2^53, and no [engine_size] or [wheel_size] is a
    Python int beyond the range of float64.  In the table it returns, an
    [engine_size] or a [wheel_size] is absent when the raw cell is zero
    or negative (or missing, or no number), else it is the raw number,
    as an int or as the float64 nearest to it, never another: 0 and any
    float at or below zero give an absent cell, and a positive integer
    is kept, without rounding when it is at most 2^53. *)
Theorem specs_non_positive_is_absent
  (parse_number : string -> option number) (float_repr : float64 -> string)
  (df : DataFrame) :
  (column_ok (casts_to_Int64 parse_number) "listing_id" df ->
   optional_ok readable "engine_size" df ->
   optional_ok readable "wheel_size" df ->
   exists df', clean_specs parse_number float_repr df = Ok df')
  /\ (forall df',
        clean_specs parse_number float_repr df = Ok df' ->
        tracks (number_rule parse_number number_le0) "engine_size" df df'
        /\ tracks (number_rule parse_number number_le0) "wheel_size" df df')
  /\ (forall z, number_rule parse_number number_le0 (PyInt 0) z ->
                isna z = true)
  /\ (forall f z, float_le0 f = true ->
                  number_rule parse_number number_le0 (PyFloat f) z ->
                  isna z = true)
  /\ (forall k z, 0 < k ->
                  number_rule parse_number number_le0 (PyInt k) z ->
                  isna z = false
                  /\ (as_number z = Some (NumInt k)
                      \/ as_number z = Some (NumFloat (float_of_Z k))))
  /\ (forall k, 0 < k <= 2 ^ 53 -> float_to_Z (float_of_Z k) = Some k).
Proof.
  split; [apply clean_specs_returns|].
  split; [|split; [|split; [|split]]].
  - intros df' H. split; eapply clean_specs_numbers; eauto; simpl; auto.
  - intros z R. exact R.
  - intros f z F. unfold number_rule. simpl. rewrite F, orb_true_r. auto.
  - intros k z K. unfold number_rule. simpl.
    replace (k <=? 0) with false by (symmetry; apply Z.leb_gt; lia).
    intros [N (n' & A & [->|(j & J & [->| ->])])]; auto;
      inversion J; subst; auto.
  - intros k K. apply float_to_Z_of_Z.
    assert (0 < 2 ^ 53) by (vm_compute; reflexivity). lia.
Qed.

Lemma specs_non_positive_witness :
  clean_specs read_decimal print_decimal specs_table = Ok specs_cleaned
  /\ tracks (number_rule read_decimal number_le0) "engine_size"
       specs_table specs_cleaned.
Proof.
  split; [reflexivity|].
  exact (proj1 (proj1 (proj2 (specs_non_positive_is_absent read_decimal
                                print_decimal specs_table))
                  specs_cleaned eq_refl)).
Defined.

(** The vehicle cleaner returns a table whenever the raw table has a
    [listing_id] column whose cells are missing, no numbers, or integers
    of magnitude at most 2^53.
    In a cleaned table every text column ([make], [model]; the five of
    Specs; [body_type], [color], [interior_material]; [condition]) holds
    the stripped text of the raw cell of that row: [NA] where the raw
    cell is missing, and else the raw text without the whitespace at its
    two ends, the rest of it untouched. *)
Theorem text_columns_are_trimmed
  (parse_number : string -> option number) (float_repr : float64 -> string)
  (df : DataFrame) :
  (column_ok (casts_to_Int64 parse_number) "listing_id" df ->
   exists df', clean_vehicle parse_number float_repr df = Ok df')
  /\ (forall clean col df',
        In (clean, col) (text_columns parse_number float_repr) ->
        clean df = Ok df' ->
        tracks (text_rule float_repr) col df df')
  /\ (forall x z, text_rule float_repr x z ->
        (isna x = true -> z = PdNA)
        /\ (forall s, x = PyStr s -> z = PyStr (strip s)))
  /\ (forall s, exists a b,
        s = (a ++ strip s ++ b)%string
        /\ all_space a = true /\ all_space b = true
        /\ trimmed (strip s)).
Proof.
  split; [apply clean_vehicle_returns|].
  split; [|split; [apply text_rule_cases | apply strip_spec]].
  intros clean col df' Hin H. unfold text_columns in Hin. simpl in Hin.
  repeat (destruct Hin as [E|Hin];
          [ inversion E; subst; clear E;
            first
              [ eapply clean_vehicle_text; [simpl; auto 10 | exact H]
              | eapply clean_specs_text; [simpl; auto 10 | exact H]
              | eapply clean_appearance_text; [simpl; auto 10 | exact H]
              | eapply clean_status_text; exact H ]
          | ]).
  contradiction.
Qed.

Lemma text_columns_are_trimmed_witness :
  clean_vehicle read_decimal print_decimal vehicle_repeated_key
  = Ok vehicle_repeated_key_cleaned
  /\ tracks (text_rule print_decimal) "make"
       vehicle_repeated_key vehicle_repeated_key_cleaned.
Proof.
  split; [reflexivity|].
  exact (proj1 (proj2 (text_columns_are_trimmed read_decimal print_decimal
                         vehicle_repeated_key))
           (clean_vehicle read_decimal print_decimal) "make"
           vehicle_repeated_key_cleaned (or_introl eq_refl) eq_refl).
Defined.

(** ** What the row materializer sends *)

Lemma zip_with_cons_arity (n : nat) (c : list scalar)
  (rows : list (list scalar)) :
  Forall (fun t => List.length t = n) rows ->
  Forall (fun t => List.length t = S n) (zip_with cons c rows).
Proof.
  intros F. revert c. induction F as [|t rows Ht F IH]; intros [|x c];
    simpl; constructor; simpl; auto.
Qed.

Lemma zip_rows_arity (cs : list (list scalar)) :
  Forall (fun t => List.length t = List.length cs) (zip_rows cs).
Proof.
  induction cs as [|c rest IH]; simpl; [constructor|].
  destruct rest as [|c' rest'].
  - rewrite Forall_map, Forall_forall. reflexivity.
  - now apply zip_with_cons_arity.
Qed.

Lemma rows_as_tuples_arity (df : DataFrame) (cols : list string)
  (rows : list (list scalar)) :
  rows_as_tuples df cols = Ok rows ->
  Forall (fun t => List.length t = List.length cols) rows.
Proof.
  unfold rows_as_tuples, itertuples. intros H.
  apply rbind_ok in H as (zs & H & E). inversion E; subst; clear E.
  apply rbind_ok in H as (cs & Hcs & E). inversion E; subst; clear E.
  rewrite Forall_map. rewrite <- (mapM_ok_length _ _ _ Hcs).
  rewrite <- (length_map col_values cs).
  eapply Forall_impl; [|apply zip_rows_arity].
  intros t Ht. now rewrite length_map.
Qed.

Lemma to_py_present (x : scalar) :
  to_py x = PyNone \/ (is_plain (to_py x) = true /\ isna (to_py x) = false).
Proof.
  unfold to_py.
  destruct x as [| |b|z|f|s|b|z|f]; simpl; auto;
    destruct (is_nan f) eqn:N; simpl; auto.
Qed.

Lemma rows_as_tuples_cells (df : DataFrame) (cols : list string)
  (rows : list (list scalar)) :
  rows_as_tuples df cols = Ok rows ->
  Forall (Forall (fun x => exists z, x = to_py z)) rows.
Proof.
  unfold rows_as_tuples. intros H.
  apply rbind_ok in H as (zs & _ & E). inversion E; subst; clear E.
  rewrite Forall_map, Forall_forall. intros t _.
  rewrite Forall_map, Forall_forall. intros z _. eauto.
Qed.

Lemma itertuples_raise (df : DataFrame) (cols : list string) (e : exn) :
  itertuples df cols = Raise e ->
  (exists name, In name cols /\ has_column df name = false)
  /\ exn_cls e = KeyError.
Proof.
  unfold itertuples. intros H.
  apply rbind_raise in H as [H|(cs & _ & H)]; [|discriminate].
  apply mapM_raise in H as (name & Hin & H).
  apply getitem_raise in H as [H E]. eauto.
Qed.

Lemma mapM_getitem_returns (df : DataFrame) (cols : list string) :
  (forall name, In name cols -> has_column df name = true) ->
  exists cs, mapM (getitem df) cols = Ok cs.
Proof.
  intros H. apply mapM_returns. rewrite Forall_forall. intros name Hin.
  apply has_column_getitem. auto.
Qed.

Lemma rows_as_tuples_returns (df : DataFrame) (cols : list string) :
  (forall name, In name cols -> has_column df name = true) ->
  exists rows, rows_as_tuples df cols = Ok rows.
Proof.
  intros H. destruct (mapM_getitem_returns df cols H) as [cs Hcs].
  unfold rows_as_tuples, itertuples. rewrite Hcs. simpl. eauto.
Qed.

Lemma rows_as_tuples_has_columns (df : DataFrame) (cols : list string)
  (rows : list (list scalar)) (name : string) :
  rows_as_tuples df cols = Ok rows -> In name cols ->
  has_column df name = true.
Proof.
  intros H Hin.
  destruct (has_column df name) eqn:E; [reflexivity|].
  unfold rows_as_tuples, itertuples in H.
  apply rbind_ok in H as (zs & H & _).
  apply rbind_ok in H as (cs & Hcs & _).
  apply mapM_ok_Forall2 in Hcs.
  assert (X : exists c, getitem df name = Ok c).
  { clear -Hcs Hin. induction Hcs as [|n c l r Hn F IH];
      [contradiction|].
    destruct Hin as [->|Hin]; eauto. }
  destruct X as [c G]. rewrite (getitem_absent _ _ E) in G. discriminate.
Qed.

Lemma rows_as_tuples_raises (df : DataFrame) (cols : list string)
  (e : exn) :
  rows_as_tuples df cols = Raise e ->
  (exists name, In name cols /\ has_column df name = false)
  /\ exn_cls e = KeyError.
Proof.
  intros H. unfold rows_as_tuples in H.
  apply rbind_raise in H as [H|(rows & _ & H)]; [|discriminate].
  now apply itertuples_raise in H.
Qed.

(** The row materializer returns exactly when the frame has every
    column it is asked for; it raises [KeyError] on a column the frame
    lacks.  Each tuple it returns has one value for each column asked,
    and each value is [None] or a plain Python value that is not
    missing: no numpy scalar, no [NA], no NaN reaches the database. *)
Theorem rows_as_tuples_sends_plain_values (df : DataFrame)
  (cols : list string) :
  ((forall name, In name cols -> has_column df name = true)
   <-> exists rows, rows_as_tuples df cols = Ok rows)
  /\ (forall e, rows_as_tuples df cols = Raise e -> exn_cls e = KeyError)
  /\ (forall rows,
        rows_as_tuples df cols = Ok rows ->
        Forall (fun t =>
                  List.length t = List.length cols
                  /\ Forall (fun x => x = PyNone
                                      \/ (is_plain x = true
                                          /\ isna x = false)) t) rows).
Proof.
  split; [split|split].
  - apply rows_as_tuples_returns.
  - intros [rows H] name Hin. eapply rows_as_tuples_has_columns; eauto.
  - intros e H. now apply rows_as_tuples_raises in H.
  - intros rows H.
    pose proof (rows_as_tuples_arity _ _ _ H) as A.
    pose proof (rows_as_tuples_cells _ _ _ H) as C.
    rewrite Forall_forall in *. intros t Ht. split; [auto|].
    specialize (C t Ht). rewrite Forall_forall in *.
    intros x Hx. destruct (C x Hx) as [z ->]. apply to_py_present.
Qed.

Lemma rows_as_tuples_sends_witness :
  exists rows, rows_as_tuples pricing_cleaned pricing_cols = Ok rows.
Proof.
  refine (proj1 (proj1 (rows_as_tuples_sends_plain_values pricing_cleaned
                          pricing_cols)) _).
  intros name H. simpl in H.
  repeat (destruct H as [<-|H]; [reflexivity|]). contradiction.
Defined.

(** ** The kinds of value a load sends *)

Lemma text_rule_kind (float_repr : float64 -> string) (x z : scalar) :
  text_rule float_repr x z -> of_kind Text (to_py z).
Proof.
  unfold text_rule. intros ->.
  destruct (option_map strip (cell_text float_repr x)); unfold to_py;
    simpl; [right; eauto | now left].
Qed.

Lemma flag_rule_kind (float_repr : float64 -> string) (x z : scalar) :
  flag_rule float_repr x z -> of_kind Flag (to_py z).
Proof.
  unfold flag_rule. intros ->.
  destruct (cell_text float_repr x) as [s|]; [|now left].
  destruct (flag_of_text s); unfold to_py; simpl; [right; eauto | now left].
Qed.

Lemma integer_rule_kind (parse_number : string -> option number)
  (bad : Z -> bool) (x z : scalar) :
  integer_rule parse_number bad x z -> of_kind Integer (to_py z).
Proof.
  unfold integer_rule. intros (n' & _ & H).
  destruct (number_to_Z n') as [k|]; [destruct (bad k)|]; subst z;
    unfold to_py; simpl; [now left | right; eauto | now left].
Qed.

Lemma number_rule_kind (parse_number : string -> option number)
  (bad : number -> bool) (x z : scalar) :
  number_rule parse_number bad x z -> of_kind Number (to_py z).
Proof.
  unfold number_rule.
  destruct (number_nan (object_number parse_number x)
            || bad (object_number parse_number x)).
  - intros N. left. now apply to_py_none_iff.
  - intros [N (n' & A & _)]. right.
    destruct z as [| |b|k|f|s|b|k|f]; simpl in A; try discriminate;
      unfold to_py; rewrite N; simpl; eauto 6.
Qed.

Lemma In_combine_snd {A B} (idx : list A) (vals : list B) (z : B) :
  List.length idx = List.length vals -> In z vals ->
  exists i, In (i, z) (combine idx vals).
Proof.
  revert vals. induction idx as [|i idx IH]; intros [|y vals] L H;
    simpl in *; try discriminate; [contradiction|].
  destruct H as [->|H]; [eauto|].
  destruct (IH vals ltac:(lia) H) as [j Hj]. eauto.
Qed.

(** A fact on the labelled cells of a column is a fact on its values. *)
Lemma cells_Forall (Q : scalar -> Prop) (name : string) (df : DataFrame)
  (c : column) :
  well_formed df ->
  (forall i z, In (i, z) (cells df name) -> Q z) ->
  getitem df name = Ok c -> Forall Q (col_values c).
Proof.
  intros W H G. rewrite Forall_forall. intros z Hz.
  destruct (In_combine_snd (df_index df) (col_values c) z) as [i Hi];
    [|assumption|].
  - rewrite col_values_length. symmetry. apply (getitem_wf _ _ _ W G).
  - apply (H i). unfold cells, labelled. now rewrite G.
Qed.

Lemma tracked_kind (R : scalar -> scalar -> Prop) (name : string)
  (df df' : DataFrame) (k : kind) (c : column) :
  well_formed df' ->
  tracks R name df df' ->
  (forall x z, R x z -> of_kind k (to_py z)) ->
  getitem df' name = Ok c ->
  Forall (fun z => of_kind k (to_py z)) (col_values c).
Proof.
  intros W T K G. apply (cells_Forall _ name df'); auto.
  intros i z Hz. destruct (T _ _ Hz) as (x & _ & HR). eauto.
Qed.

Lemma key_kind (parse_number : string -> option number)
  (float_repr : float64 -> string) (current_year : Z)
  (clean : DataFrame -> result DataFrame) (df df' : DataFrame) (c : column) :
  In clean (cleaners parse_number float_repr current_year) ->
  clean df = Ok df' ->
  well_formed df' ->
  getitem df' "listing_id" = Ok c ->
  Forall (fun z => of_kind Key (to_py z)) (col_values c).
Proof.
  intros Hin H W G. apply (cells_Forall _ "listing_id" df'); auto.
  intros i z Hz.
  destruct (cleaned_key_cells _ _ _ _ _ _ _ _ Hin H Hz) as [k ->].
  unfold to_py. simpl. eauto.
Qed.

Lemma url_kind (parse_number : string -> option number)
  (float_repr : float64 -> string) (df df' : DataFrame) (c : column) :
  clean_core parse_number float_repr df = Ok df' ->
  well_formed df' ->
  getitem df' "url" = Ok c ->
  Forall (fun z => of_kind RequiredText (to_py z)) (col_values c).
Proof.
  intros H W G. apply (cells_Forall _ "url" df'); auto.
  intros i z Hz.
  destruct (cleaned_url_cells _ _ _ _ _ _ H Hz) as [s ->].
  unfold to_py. simpl. eauto.
Qed.

Lemma Forall2_nth {A B} (R : A -> B -> Prop) (d1 : A) (d2 : B)
  (l1 : list A) (l2 : list B) :
  List.length l1 = List.length l2 ->
  (forall j, (j < List.length l1)%nat -> R (nth j l1 d1) (nth j l2 d2)) ->
  Forall2 R l1 l2.
Proof.
  revert l2. induction l1 as [|a l1 IH]; intros [|b l2] L H;
    simpl in *; try discriminate; constructor.
  - apply (H 0%nat). lia.
  - apply IH; [lia|]. intros j Hj. apply (H (S j)). lia.
Qed.

(** The tuples of a frame, column by column. *)
Lemma rows_columnwise (df : DataFrame) (cols : list string)
  (rows : list (list scalar)) (P : nat -> scalar -> Prop) :
  well_formed df -> cols <> [] ->
  rows_as_tuples df cols = Ok rows ->
  (forall j name c,
     nth_error cols j = Some name -> getitem df name = Ok c ->
     Forall (fun z => P j (to_py z)) (col_values c)) ->
  Forall (fun t => forall j, (j < List.length cols)%nat ->
                             P j (nth j t PyNone)) rows.
Proof.
  intros W NE H F.
  destruct (rows_as_tuples_rows _ _ _ W NE H) as [_ T].
  rewrite Forall_forall. intros t Ht j Hj.
  destruct (nth_error cols j) as [name|] eqn:E;
    [|apply nth_error_None in E; lia].
  destruct (T j name E) as (c & G & M).
  specialize (F j name c E G). rewrite Forall_forall in F.
  assert (Hin : In (nth j t PyNone) (map to_py (col_values c))).
  { rewrite <- M. apply (in_map (fun t => nth j t PyNone)). exact Ht. }
  apply in_map_iff in Hin as (z & <- & Hz). auto.
Qed.

Lemma typed_rows (df : DataFrame) (cols : list string) (kinds : list kind)
  (rows : list (list scalar)) :
  well_formed df -> cols <> [] ->
  List.length kinds = List.length cols ->
  rows_as_tuples df cols = Ok rows ->
  (forall j name c,
     nth_error cols j = Some name -> getitem df name = Ok c ->
     Forall (fun z => of_kind (nth j kinds Key) (to_py z)) (col_values c)) ->
  Forall (Forall2 of_kind kinds) rows.
Proof.
  intros W NE L H F.
  pose proof (rows_as_tuples_arity _ _ _ H) as A.
  pose proof (rows_columnwise df cols rows
                (fun j x => of_kind (nth j kinds Key) x) W NE H F) as C.
  rewrite Forall_forall in *. intros t Ht.
  apply Forall2_nth with (d1 := Key) (d2 := PyNone).
  - rewrite (A t Ht). exact L.
  - intros j Hj. apply (C t Ht). lia.
Qed.

(** The column at hand, by the rule its cleaner follows on it. *)
Ltac kind_of_column Hc W H G :=
  first
    [ eapply key_kind; [exact Hc | exact H | exact W | exact G]
    | eapply url_kind; [exact H | exact W | exact G]
    | eapply tracked_kind; [exact W | | | exact G];
      [ first
          [ eapply clean_pricing_price; exact H
          | eapply clean_pricing_year; exact H
          | eapply clean_pricing_mileage; exact H
          | eapply clean_vehicle_text; [solve [simpl; auto 10] | exact H]
          | eapply clean_specs_numbers; [solve [simpl; auto 10] | exact H]
          | eapply clean_specs_text; [solve [simpl; auto 10] | exact H]
          | eapply clean_appearance_text; [solve [simpl; auto 10] | exact H]
          | eapply clean_appearance_flag; exact H
          | eapply clean_status_flag; exact H
          | eapply clean_status_text; exact H ]
      | first
          [ apply text_rule_kind | apply flag_rule_kind
          | apply integer_rule_kind | apply number_rule_kind ] ] ].

Ltac kinds_of_columns Hc W H :=
  let j := fresh "j" in
  let name := fresh "name" in
  let c := fresh "c" in
  let E := fresh "E" in
  let G := fresh "G" in
  intros j name c E G;
  repeat (destruct j as [|j];
          [ simpl in E; inversion E; subst name; clear E; cbn [nth];
            kind_of_column Hc W H G
          | simpl in E; try discriminate ]).

(** Every tuple a load of [main] sends has the shape of its table: the
    key is an int, never [None]; the url of Core is a str; a text field is
    a str or [None]; a flag is a bool or [None]; a year or a mileage is
    an int or [None]; a price, an engine size or a wheel size is an int,
    a float that is no NaN, a bool, or [None]. *)
Theorem loaded_rows_are_typed
  (parse_number : string -> option number) (float_repr : float64 -> string)
  (current_year : Z) (clean : DataFrame -> result DataFrame)
  (cols : list string) (kinds : list kind)
  (df df' : DataFrame) (rows : list (list scalar)) :
  In (clean, cols, kinds)
     (loaded_tables parse_number float_repr current_year) ->
  well_formed df ->
  clean df = Ok df' ->
  rows_as_tuples df' cols = Ok rows ->
  Forall (Forall2 of_kind kinds) rows.
Proof.
  intros Hin W H R.
  assert (Hc : In clean (cleaners parse_number float_repr current_year)).
  { unfold loaded_tables, cleaners in *. simpl in *.
    repeat (destruct Hin as [E|Hin];
            [inversion E; subst; auto 10|]). contradiction. }
  assert (W' : well_formed df').
  { destruct (cleaners_shapes _ _ _ _ _ _ Hc H) as [_ S]. auto. }
  unfold loaded_tables in Hin. simpl in Hin.
  repeat (destruct Hin as [E|Hin];
          [ inversion E; subst; clear E;
            (eapply typed_rows; [exact W' | | | exact R | ]);
            [ discriminate | reflexivity | kinds_of_columns Hc W' H ]
          | ]).
  contradiction.
Qed.

Lemma pricing_cleaned_rows :
  rows_as_tuples pricing_cleaned pricing_cols
  = Ok [[PyInt 1; PyNone; PyNone; PyNone];
        [PyInt 2; PyFloat (float_of_Z 10); PyNone; PyInt 0];
        [PyInt 3; PyFloat (float_of_Z 3); PyInt 2000; PyInt 5];
        [PyInt 4; PyFloat (float_of_Z 4); PyInt 1950; PyInt 6]].
Proof. reflexivity. Qed.

Lemma loaded_rows_are_typed_witness :
  Forall (Forall2 of_kind [Key; Number; Integer; Integer])
    [[PyInt 1; PyNone; PyNone; PyNone];
     [PyInt 2; PyFloat (float_of_Z 10); PyNone; PyInt 0];
     [PyInt 3; PyFloat (float_of_Z 3); PyInt 2000; PyInt 5];
     [PyInt 4; PyFloat (float_of_Z 4); PyInt 1950; PyInt 6]].
Proof.
  exact (loaded_rows_are_typed read_decimal print_decimal 2026
           (clean_pricing read_decimal 2026) pricing_cols
           [Key; Number; Integer; Integer] pricing_table pricing_cleaned _
           (or_intror (or_introl eq_refl)) pricing_table_well_formed
           eq_refl pricing_cleaned_rows).
Defined.

(** ** Events of a run *)

Lemma bind_cases {A B} (m : M A) (k : A -> M B) (st st' : state)
  (r : result B) :
  bind m k st = (st', r) ->
  (exists e, m st = (st', Raise e) /\ r = Raise e)
  \/ (exists a st1, m st = (st1, Ok a) /\ k a st1 = (st', r)).
Proof.
  unfold bind. destruct (m st) as [st1 [a|e]]; intros H.
  - right. eauto.
  - left. inversion H; subst. eauto.
Qed.

Lemma emits_weaken {A} (P Q : event -> Prop) (m : M A) :
  (forall ev, P ev -> Q ev) -> emits P m -> emits Q m.
Proof.
  intros PQ E st st' r H. destruct (E _ _ _ H) as (tr & T & F).
  exists tr. split; [exact T|]. eapply Forall_impl; eauto.
Qed.

Lemma emits_ret {A} (P : event -> Prop) (a : A) : emits P (ret a).
Proof.
  intros st st' r H. inversion H; subst. exists []. rewrite app_nil_r. auto.
Qed.

Lemma emits_raise {A} (P : event -> Prop) (e : exn) : emits P (@raise A e).
Proof.
  intros st st' r H. inversion H; subst. exists []. rewrite app_nil_r. auto.
Qed.

Lemma emits_lift {A} (P : event -> Prop) (x : result A) : emits P (lift x).
Proof.
  intros st st' r H. inversion H; subst. exists []. rewrite app_nil_r. auto.
Qed.

Lemma emits_log (P : event -> Prop) (x : log_record) :
  P (Log x) -> emits P (log x).
Proof.
  intros Px st st' r H. inversion H; subst. exists [Log x]. simpl. auto.
Qed.

Lemma emits_call (P : event -> Prop) (w : world) (c : db_call) :
  P (Call c) -> emits P (call w c).
Proof.
  intros Pc st st' r H. unfold call in H.
  destruct (db w (trace st) c); inversion H; subst;
    exists [Call c]; simpl; auto.
Qed.

Lemma emits_get_conn_var (P : event -> Prop) : emits P get_conn_var.
Proof.
  intros st st' r H. inversion H; subst. exists []. rewrite app_nil_r. auto.
Qed.

Lemma emits_set_conn_var (P : event -> Prop) (b : bool) :
  emits P (set_conn_var b).
Proof.
  intros st st' r H. inversion H; subst. exists []. simpl.
  rewrite app_nil_r. auto.
Qed.

Lemma emits_bind {A B} (P : event -> Prop) (m : M A) (k : A -> M B) :
  emits P m -> (forall a, emits P (k a)) -> emits P (bind m k).
Proof.
  intros Em Ek st st' r H.
  apply bind_cases in H as [(e & H & _)|(a & st1 & H1 & H2)].
  - eauto.
  - destruct (Em _ _ _ H1) as (t1 & T1 & F1).
    destruct (Ek _ _ _ _ H2) as (t2 & T2 & F2).
    exists (t1 ++ t2). rewrite T2, T1, app_assoc. split; [reflexivity|].
    apply Forall_app; auto.
Qed.

Lemma emits_try_except {A} (P : event -> Prop) (m : M A)
  (h : exn -> M A) :
  emits P m -> (forall e, emits P (h e)) -> emits P (try_except m h).
Proof.
  intros Em Eh st st' r H. unfold try_except in H.
  destruct (m st) as [st1 [a|e]] eqn:M1.
  - inversion H; subst. eauto.
  - destruct (Em _ _ _ M1) as (t1 & T1 & F1).
    destruct (Eh _ _ _ _ H) as (t2 & T2 & F2).
    exists (t1 ++ t2). rewrite T2, T1, app_assoc. split; [reflexivity|].
    apply Forall_app; auto.
Qed.

Lemma emits_try_finally {A} (P : event -> Prop) (m : M A) (fin : M unit) :
  emits P m -> emits P fin -> emits P (try_finally m fin).
Proof.
  intros Em Ef st st' r H. unfold try_finally in H.
  destruct (m st) as [st1 r1] eqn:M1.
  destruct (fin st1) as [st2 r2] eqn:M2.
  destruct (Em _ _ _ M1) as (t1 & T1 & F1).
  destruct (Ef _ _ _ M2) as (t2 & T2 & F2).
  assert (st' = st2) by (destruct r2; now inversion H). subst st'.
  exists (t1 ++ t2). rewrite T2, T1, app_assoc. split; [reflexivity|].
  apply Forall_app; auto.
Qed.

Lemma emits_suppress (P : event -> Prop) (m : M unit) :
  emits P m -> emits P (suppress m).
Proof.
  intros Em. apply emits_try_except; [exact Em|].
  intros e. apply emits_ret.
Qed.

Lemma emits_for_each {A} (P : event -> Prop) (l : list A)
  (body : A -> M unit) :
  (forall x, emits P (body x)) -> emits P (for_each l body).
Proof.
  intros Eb. induction l as [|x l IH]; simpl.
  - apply emits_ret.
  - apply emits_bind; auto.
Qed.

(** ** The events of a load *)

Lemma slice_stop (rows : list (list scalar)) (s : nat) :
  (s < List.length rows)%nat ->
  (s + List.length (slice rows s (s + BATCH_SIZE))
   = Nat.min (s + BATCH_SIZE) (List.length rows))%nat.
Proof.
  intros H. unfold slice. rewrite length_firstn, length_skipn. lia.
Qed.

Lemma flat_map_ext_in {A B} (f g : A -> list B) (l : list A) :
  (forall x, In x l -> f x = g x) -> flat_map f l = flat_map g l.
Proof.
  induction l as [|x l IH]; simpl; intros H; [reflexivity|].
  rewrite (H x) by now left. f_equal. apply IH. intros y Hy. apply H.
  now right.
Qed.

Lemma In_firstn {A} (k : nat) (l : list A) (x : A) :
  In x (firstn k l) -> In x l.
Proof.
  revert l. induction k as [|k IH]; intros [|y l]; simpl; try tauto.
  intros [->|H]; auto.
Qed.

(** The events of the batches, by their starts. *)
Lemma batch_events_starts (table : string) (cols : list string)
  (rows : list (list scalar)) (k : nat) :
  flat_map (batch_events table cols (List.length rows))
    (firstn k (batches_of BATCH_SIZE rows))
  = flat_map (start_events table cols rows)
      (firstn k (range 0 (List.length rows) BATCH_SIZE)).
Proof.
  unfold batches_of. rewrite firstn_map, flat_map_concat_map, map_map.
  rewrite <- flat_map_concat_map. apply flat_map_ext_in.
  intros s Hs. apply In_firstn in Hs. unfold range in Hs.
  apply range_from_lt in Hs.
  unfold batch_events, start_events, statement_at. simpl.
  now rewrite slice_stop.
Qed.

Section LoaderTrace.

Variable w : world.

(** The loop, event by event: the passes that went through, and then
    the statement that raised, if one did. *)
Lemma insert_loop_trace table cols rows (starts : list nat)
  (st st' : state) (r : result unit) :
  for_each starts (insert_one w table cols rows) st = (st', r) ->
  conn st' = conn st
  /\ exists k,
       match r with
       | Ok _ =>
           k = List.length starts
           /\ trace st'
              = trace st
                ++ flat_map (start_events table cols rows) (firstn k starts)
       | Raise e =>
           exists s,
             nth_error starts k = Some s
             /\ trace st'
                = trace st
                  ++ flat_map (start_events table cols rows)
                       (firstn k starts)
                  ++ [Call (statement_at table cols rows s)]
             /\ db w (trace st
                      ++ flat_map (start_events table cols rows)
                           (firstn k starts))
                  (statement_at table cols rows s) = Some e
       end.
Proof.
  revert st. induction starts as [|s starts IH]; intros st H; simpl in H.
  - inversion H; subst. split; [reflexivity|]. exists 0%nat. simpl.
    now rewrite app_nil_r.
  - unfold bind at 1 in H. unfold insert_one at 1 in H.
    unfold bind at 1 in H. unfold call at 1 in H.
    fold (statement_at table cols rows s) in H.
    destruct (db w (trace st) (statement_at table cols rows s)) as [e|]
      eqn:E.
    + inversion H; subst. split; [reflexivity|]. exists 0%nat.
      exists s. simpl. rewrite app_nil_r. auto.
    + unfold log, emit in H. simpl in H.
      apply IH in H as [C (k & H)]. simpl in C. split; [exact C|].
      exists (S k). destruct r as [[]|e].
      * destruct H as [-> H]. split; [reflexivity|].
        rewrite H. simpl. rewrite <- !app_assoc. reflexivity.
      * destruct H as (s' & N & T & D). exists s'.
        split; [exact N|]. simpl in *.
        rewrite <- !app_assoc in *. simpl in *. auto.
Qed.

End LoaderTrace.

(** A run of the batch loader, event by event, in any world.  It leaves
    the connection as it is.  Without rows it logs one warning, calls
    nothing and returns.  With rows it issues the statements of the
    batches in order, each followed by one progress record that counts
    the rows up to the end of that batch; it stops at the first
    statement that raises, with the error the database raised, no record
    for that batch and no statement after it, and returns once every
    batch went through. *)
Theorem insert_batches_event_by_event (w : world) (table : string)
  (cols : list string) (rows : list (list scalar)) (st st' : state)
  (r : result unit) :
  insert_batches w table cols rows st = (st', r) ->
  conn st' = conn st
  /\ (rows = [] ->
      r = Ok tt /\ trace st' = trace st ++ [Log (ZeroRows table)])
  /\ (rows <> [] ->
      exists k,
        match r with
        | Ok _ =>
            k = List.length (batches_of BATCH_SIZE rows)
            /\ trace st'
               = trace st
                 ++ flat_map (batch_events table cols (List.length rows))
                      (firstn k (batches_of BATCH_SIZE rows))
        | Raise e =>
            exists sb,
              nth_error (batches_of BATCH_SIZE rows) k = Some sb
              /\ trace st'
                 = trace st
                   ++ flat_map (batch_events table cols (List.length rows))
                        (firstn k (batches_of BATCH_SIZE rows))
                   ++ [Call (ExecuteValues (insert_sql table cols) (snd sb)
                               (List.length (snd sb)))]
              /\ db w (trace st
                       ++ flat_map
                            (batch_events table cols (List.length rows))
                            (firstn k (batches_of BATCH_SIZE rows)))
                   (ExecuteValues (insert_sql table cols) (snd sb)
                      (List.length (snd sb))) = Some e
        end).
Proof.
  intros H. destruct rows as [|row rows].
  - unfold insert_batches, log, emit in H. inversion H; subst. simpl.
    repeat split; congruence.
  - rewrite insert_batches_loop in H by discriminate.
    apply insert_loop_trace in H as [C (k & H)].
    split; [exact C|]. split; [discriminate|]. intros _. exists k.
    rewrite batch_events_starts. unfold batches_of.
    destruct r as [[]|e].
    + destruct H as [-> H]. now rewrite length_map.
    + destruct H as (s & N & T & D).
      exists (s, slice (row :: rows) s (s + BATCH_SIZE)).
      rewrite nth_error_map, N. simpl. auto.
Qed.

Lemma insert_batches_event_by_event_witness :
  conn (fst (insert_batches world_accepting "core" core_cols
               [[PyInt 1; PyStr "a"]] initial))
  = conn initial.
Proof.
  exact (proj1 (insert_batches_event_by_event world_accepting "core"
                  core_cols [[PyInt 1; PyStr "a"]] initial _ _
                  (surjective_pairing _))).
Defined.

(** ** The connection *)

Lemma env_missing_set (w : world) (k : string) :
  env_missing w k = false <-> is_set w k.
Proof.
  unfold env_missing, is_set. destruct (getenv w k) as [[|c s]|]; split;
    try discriminate; try reflexivity.
  - intros (v & E & N). inversion E; subst. congruence.
  - intros _. eexists. split; [reflexivity | discriminate].
  - intros (v & E & _). discriminate.
Qed.

Lemma get_conn_unset (w : world) (st : state) (k : string) :
  In k required_env ->
  getenv w k = None \/ getenv w k = Some "" ->
  exists msg, get_conn w st = (st, Raise (mk_exn RuntimeError msg)).
Proof.
  intros Hin Hk. unfold get_conn. fold required_env.
  assert (M : In k (filter (env_missing w) required_env)).
  { apply filter_In. split; [exact Hin|]. unfold env_missing.
    destruct Hk as [-> | ->]; reflexivity. }
  destruct (filter (env_missing w) required_env); [contradiction|].
  eexists. reflexivity.
Qed.

Lemma get_conn_set (w : world) (st : state) :
  (forall k, In k required_env -> is_set w k) ->
  get_conn w st = call w Connect st.
Proof.
  intros H. unfold get_conn. fold required_env.
  assert (F : filter (env_missing w) required_env = []).
  { destruct (filter (env_missing w) required_env) as [|k l] eqn:E;
      [reflexivity|].
    assert (M : In k (filter (env_missing w) required_env))
      by (rewrite E; now left).
    apply filter_In in M as [Hin Hk].
    apply H, env_missing_set in Hin. congruence. }
  now rewrite F.
Qed.

(** [get_conn] asks for four variables.  If one of them is unset, or set
    to the empty string, it raises [RuntimeError] and calls nothing: no
    connection is attempted.  If the four are set it makes one call of
    [psycopg2.connect], and returns or raises what that call does;
    [PGPORT] need not be set. *)
Theorem get_conn_needs_four_variables (w : world) (st : state) :
  ((exists k, In k required_env
              /\ (getenv w k = None \/ getenv w k = Some ""))
   -> exists msg, get_conn w st = (st, Raise (mk_exn RuntimeError msg)))
  /\ ((forall k, In k required_env -> is_set w k)
      -> get_conn w st = call w Connect st).
Proof.
  split.
  - intros (k & Hin & Hk). eapply get_conn_unset; eauto.
  - apply get_conn_set.
Qed.

Lemma get_conn_needs_witness :
  get_conn world_accepting initial = call world_accepting Connect initial.
Proof.
  refine (proj2 (get_conn_needs_four_variables world_accepting initial) _).
  intros k _. exists "set". split; [reflexivity | discriminate].
Defined.

(** The script sets the four variables itself before it does anything
    else.  In any world whose environment holds those assignments,
    [get_conn] never raises [RuntimeError]: it goes on to
    [psycopg2.connect]. *)
Theorem script_environment_reaches_connect (w : world) (st : state) :
  (forall k v, dict_get os_environ k = Some v -> getenv w k = Some v) ->
  get_conn w st = call w Connect st.
Proof.
  intros H. apply get_conn_set.
  intros k Hin. unfold required_env in Hin. simpl in Hin.
  destruct Hin as [<-|[<-|[<-|[<-|[]]]]];
    eexists; (split; [apply H; reflexivity | discriminate]).
Qed.

Lemma script_environment_witness :
  get_conn (world_of_script (fun _ => None) (fun _ _ => None)) initial
  = call (world_of_script (fun _ => None) (fun _ _ => None)) Connect initial.
Proof.
  exact (script_environment_reaches_connect
           (world_of_script (fun _ => None) (fun _ _ => None)) initial
           (fun k v H => H)).
Defined.

(** ** The events of the Transacting stage *)

Lemma insert_batches_emits (w : world) table cols rows :
  emits (fun ev => load_event ev = true) (insert_batches w table cols rows).
Proof.
  unfold insert_batches. destruct rows as [|row rows].
  - now apply emits_log.
  - apply emits_for_each. intros s.
    apply emits_bind; [now apply emits_call|].
    intros _. now apply emits_log.
Qed.

Lemma load_emits (w : world) table cols df :
  emits (fun ev => load_event ev = true) (load w table cols df).
Proof.
  unfold load. apply emits_bind; [apply emits_lift|].
  intros rows. apply insert_batches_emits.
Qed.

Lemma loads_emits (w : world) core pricing vehicle specs appearance status :
  emits (fun ev => load_event ev = true)
    (loads w core pricing vehicle specs appearance status).
Proof.
  unfold loads.
  repeat (apply emits_bind; [apply load_emits | intros _]).
  apply load_emits.
Qed.

Lemma get_conn_returns_trace (w : world) (st st1 : state) (u : unit) :
  get_conn w st = (st1, Ok u) ->
  trace st1 = trace st ++ [Call Connect] /\ conn st1 = conn st
  /\ db w (trace st) Connect = None.
Proof.
  unfold get_conn. destruct (filter _ _); [|discriminate].
  unfold call. destruct (db w (trace st) Connect); [discriminate|].
  intros H. inversion H; subst. auto.
Qed.

Lemma get_conn_raises_trace (w : world) (st st1 : state) (e : exn) :
  get_conn w st = (st1, Raise e) ->
  conn st1 = conn st
  /\ ((trace st1 = trace st /\ exn_cls e = RuntimeError)
      \/ (trace st1 = trace st ++ [Call Connect]
          /\ db w (trace st) Connect = Some e)).
Proof.
  unfold get_conn. destruct (filter _ _).
  - unfold call. destruct (db w (trace st) Connect) eqn:D; [|discriminate].
    intros H. inversion H; subst. auto.
  - intros H. inversion H; subst. auto.
Qed.

Lemma bind_emits_cases {A B} (P : event -> Prop) (m : M A) (k : A -> M B)
  (st st' : state) (r : result B) :
  emits P m ->
  bind m k st = (st', r) ->
  (exists e tr, r = Raise e /\ m st = (st', Raise e)
                /\ trace st' = trace st ++ tr /\ Forall P tr)
  \/ (exists a st1 tr, m st = (st1, Ok a) /\ k a st1 = (st', r)
                       /\ trace st1 = trace st ++ tr /\ Forall P tr).
Proof.
  intros E H. apply bind_cases in H as [(e & H & ->)|(a & st1 & H1 & H2)].
  - destruct (E _ _ _ H) as (tr & T & F). left. eauto 8.
  - destruct (E _ _ _ H1) as (tr & T & F). right. eauto 10.
Qed.

Ltac join_traces :=
  repeat match goal with
         | T : trace ?s = _ |- context [trace ?s] => rewrite T
         end;
  cbn [trace];
  repeat (rewrite <- app_assoc || rewrite <- app_comm_cons);
  cbn [app]; reflexivity.

Ltac all_inner :=
  repeat match goal with
         | |- Forall _ [] => apply Forall_nil
         | |- Forall _ (_ :: _) => apply Forall_cons; [reflexivity|]
         | |- Forall _ (_ ++ _) => apply Forall_app; split
         | |- Forall _ _ => assumption
         end.

(** The body of the [try], event by event. *)
Lemma transacting_body_trace (w : world)
  core pricing vehicle specs appearance status (st st1 : state)
  (rb : result unit) :
  transacting_body w core pricing vehicle specs appearance status st
  = (st1, rb) ->
  (exists e, get_conn w st = (st1, Raise e) /\ rb = Raise e)
  \/ (exists tr0,
        (exists sg, get_conn w st = (sg, Ok tt))
        /\ conn st1 = true
        /\ Forall (fun ev => inner_event ev = true) tr0
        /\ ((rb = Ok tt
             /\ trace st1
                = trace st ++ Call Connect :: tr0
                  ++ [Call Commit; Log Committed])
            \/ (exists e,
                  rb = Raise e
                  /\ (trace st1 = trace st ++ Call Connect :: tr0
                      \/ (trace st1
                          = trace st ++ Call Connect :: tr0 ++ [Call Commit]
                          /\ db w (trace st ++ Call Connect :: tr0) Commit
                             = Some e))))).
Proof.
  intros H.
  destruct (transacting_body_conn _ _ _ _ _ _ _ _ _ _ H)
    as [(e & G & R & _)|[(sg & G) C]]; [left; eauto|].
  right. unfold transacting_body in H.
  destruct (get_conn_returns_trace _ _ _ _ G) as (Tg & _ & Dg).
  unfold bind at 1 in H. rewrite G in H.
  unfold bind at 1 in H. unfold set_conn_var at 1 in H.
  set (s0 := {| trace := trace sg; conn := true |}) in H.
  assert (T0 : trace s0 = trace st ++ [Call Connect]) by exact Tg.
  clearbody s0.
  apply (bind_emits_cases (fun ev => inner_event ev = true)) in H;
    [|now apply emits_call].
  destruct H as [(e & t1 & -> & _ & T1 & F1)|(u1 & s1 & t1 & _ & H & T1 & F1)].
  { exists t1. split; [eauto|]. split; [exact C|]. split; [all_inner|].
    right. exists e. split; [reflexivity|]. left. join_traces. }
  apply (bind_emits_cases (fun ev => inner_event ev = true)) in H;
    [|now apply emits_call].
  destruct H as [(e & t2 & -> & _ & T2 & F2)|(u2 & s2 & t2 & _ & H & T2 & F2)].
  { exists (t1 ++ t2). split; [eauto|]. split; [exact C|].
    split; [all_inner|].
    right. exists e. split; [reflexivity|]. left. join_traces. }
  apply (bind_emits_cases (fun ev => inner_event ev = true)) in H.
  2: { apply emits_try_finally; [|now apply emits_call].
       eapply emits_weaken; [|apply loads_emits].
       intros ev Hev. destruct ev as [[]|[]]; try discriminate; reflexivity. }
  destruct H as [(e & t3 & -> & _ & T3 & F3)|(u3 & s3 & t3 & _ & H & T3 & F3)].
  { exists (t1 ++ t2 ++ t3). split; [eauto|]. split; [exact C|].
    split; [all_inner|].
    right. exists e. split; [reflexivity|]. left. join_traces. }
  assert (T : trace s3 = trace st ++ Call Connect :: t1 ++ t2 ++ t3)
    by join_traces.
  exists (t1 ++ t2 ++ t3). split; [eauto|]. split; [exact C|].
  split; [all_inner|].
  unfold bind in H. unfold call in H. rewrite <- T.
  destruct (db w (trace s3) Commit) as [e|] eqn:Dc.
  - inversion H; subst. right. exists e. split; [reflexivity|]. right.
    split; [|reflexivity]. cbn [trace]. rewrite T.
    repeat (rewrite <- app_assoc || rewrite <- app_comm_cons). reflexivity.
  - unfold log, emit in H. inversion H; subst. left.
    split; [reflexivity|]. cbn [trace]. rewrite T.
    repeat (rewrite <- app_assoc || rewrite <- app_comm_cons). reflexivity.
Qed.

Lemma inner_event_not_in (x : event) (l : list event) :
  inner_event x = false ->
  Forall (fun ev => inner_event ev = true) l -> ~ In x l.
Proof.
  intros X F Hin. rewrite Forall_forall in F. apply F in Hin. congruence.
Qed.

(** A run of the Transacting stage, in any world: the shape of what it
    adds to the run. *)
Lemma transacting_shape (w : world)
  core pricing vehicle specs appearance status (st st' : state)
  (r : result unit) :
  transacting w core pricing vehicle specs appearance status st = (st', r) ->
  (exists e tg,
     (forall s, get_conn w (mk_state (trace st) false) <> (s, Ok tt))
     /\ r = Raise e /\ conn st' = false
     /\ (tg = [] \/ tg = [Call Connect])
     /\ trace st' = trace st ++ tg ++ [Log (InsertFailed e)])
  \/ (exists tr0,
        (exists s, get_conn w (mk_state (trace st) false) = (s, Ok tt))
        /\ conn st' = true
        /\ Forall (fun ev => inner_event ev = true) tr0
        /\ ((r = Ok tt
             /\ trace st'
                = trace st ++ Call Connect :: tr0
                  ++ [Call Commit; Log Committed; Call Close])
            \/ (exists e tc tb,
                  r = Raise e
                  /\ (tc = []
                      \/ (tc = [Call Commit]
                          /\ db w (trace st ++ Call Connect :: tr0) Commit
                             = Some e))
                  /\ (tb = [] \/ tb = [Log RolledBack])
                  /\ trace st'
                     = trace st ++ Call Connect :: tr0 ++ tc
                       ++ Log (InsertFailed e) :: Call Rollback :: tb
                       ++ [Call Close]))).
Proof.
  intros H.
  cbv beta iota delta [transacting bind set_conn_var try_finally try_except]
    in H.
  destruct (transacting_body w core pricing vehicle specs appearance status
              {| trace := trace st; conn := false |}) as [st1 rb] eqn:B.
  apply transacting_body_trace in B.
  destruct B as [(e & G & ->)|(tr0 & G & C & F & B)].
  - left. destruct (get_conn_raises_trace _ _ _ _ G) as [Cg Tg].
    cbn [trace conn] in Cg, Tg.
    cbv beta iota delta [on_failure release bind log emit get_conn_var
                           suppress try_except call ret raise] in H.
    cbn [trace conn] in H. rewrite Cg in H. cbn [trace conn] in H.
    inversion H; subst; clear H. cbn [trace conn].
    exists e. destruct Tg as [[T _]|[T _]].
    + exists []. rewrite T. repeat split; auto. intros s. congruence.
    + exists [Call Connect]. rewrite T, <- app_assoc.
      repeat split; auto. intros s. congruence.
  - right. exists tr0. split; [exact G|]. cbn [trace] in B.
    destruct B as [[-> T]|(e & -> & T)].
    + cbv beta iota delta [release bind get_conn_var suppress try_except
                             call ret] in H.
      rewrite C in H.
      destruct (db w (trace st1) Close); inversion H; subst; clear H;
        cbn [trace conn]; (split; [first [exact C | reflexivity]|]); (split; [exact F|]);
        left; (split; [reflexivity|]); rewrite T;
        repeat (rewrite <- app_assoc || rewrite <- app_comm_cons);
        reflexivity.
    + cbv beta iota delta [on_failure release bind log emit get_conn_var
                             suppress try_except call ret raise] in H.
      cbn [trace conn] in H. rewrite C in H. cbn [trace conn] in H.
      destruct (db w (trace st1 ++ [Log (InsertFailed e)]) Rollback)
        as [e'|]; cbn [trace conn] in H;
        match type of H with
        | context [db w ?t Close] => destruct (db w t Close)
        end;
        inversion H; subst; clear H; cbn [trace conn];
        (split; [first [exact C | reflexivity]|]); (split; [exact F|]); right; exists e;
        destruct T as [T|[T Dc]].
      all: first
             [ exists [], []; (split; [reflexivity|]);
               (split; [now left|]); (split; [now left|]);
               rewrite T;
               repeat (rewrite <- app_assoc || rewrite <- app_comm_cons);
               reflexivity
             | exists [Call Commit], []; (split; [reflexivity|]);
               (split; [right; split; [reflexivity|exact Dc]|]);
               (split; [now left|]);
               rewrite T;
               repeat (rewrite <- app_assoc || rewrite <- app_comm_cons);
               reflexivity
             | exists [], [Log RolledBack]; (split; [reflexivity|]);
               (split; [now left|]); (split; [now right|]);
               rewrite T;
               repeat (rewrite <- app_assoc || rewrite <- app_comm_cons);
               reflexivity
             | exists [Call Commit], [Log RolledBack];
               (split; [reflexivity|]);
               (split; [right; split; [reflexivity|exact Dc]|]);
               (split; [now right|]);
               rewrite T;
               repeat (rewrite <- app_assoc || rewrite <- app_comm_cons);
               reflexivity ].
Qed.

Ltac not_among F :=
  let Hin := fresh "Hin" in
  intros Hin; exfalso;
  do 4 (simpl in Hin; rewrite ?in_app_iff in Hin);
  repeat match goal with
         | H : _ \/ _ |- _ => destruct H as [H|H]
         | H : False |- _ => contradiction
         | H : @eq event _ _ |- _ => discriminate H
         | H : In ?x ?l |- _ =>
             exact (inner_event_not_in x l eq_refl F H)
         end.

(** The connection through the Transacting stage, in any world.  The
    variable [conn] is set exactly when [get_conn] returned.  If it is,
    the stage has called [psycopg2.connect] first and [conn.close()]
    last, each once, whether it returns or raises.  If it is not, the
    stage raises, and has called neither [Close] nor [Rollback]: it has
    called nothing, or [psycopg2.connect] alone. *)
Theorem connection_is_closed_once_opened (w : world)
  (core pricing vehicle specs appearance status : DataFrame)
  (st st' : state) (r : result unit) :
  transacting w core pricing vehicle specs appearance status st = (st', r) ->
  exists tr,
    trace st' = trace st ++ tr
    /\ (conn st' = true
        <-> exists s, get_conn w (mk_state (trace st) false) = (s, Ok tt))
    /\ (conn st' = true ->
        exists mid, tr = Call Connect :: mid ++ [Call Close]
                    /\ ~ In (Call Close) mid /\ ~ In (Call Connect) mid)
    /\ (conn st' = false ->
        (exists e, r = Raise e)
        /\ ~ In (Call Close) tr /\ ~ In (Call Rollback) tr
        /\ (calls_of tr = [] \/ calls_of tr = [Connect])).
Proof.
  intros H. apply transacting_shape in H.
  destruct H as [(e & tg & G & -> & C & Tg & T)
                |(tr0 & G & C & F & [[-> T]|(e & tc & tb & -> & Tc & Tb & T)])].
  - exists (tg ++ [Log (InsertFailed e)]). split; [exact T|]. split.
    { split; [congruence|]. intros [s Hs]. destruct (G s Hs). }
    split; [congruence|]. intros _. split; [eauto|].
    destruct Tg as [-> | ->]; simpl; repeat split; auto;
      intros Hin; simpl in Hin; intuition discriminate.
  - exists (Call Connect :: tr0 ++ [Call Commit; Log Committed; Call Close]).
    split; [exact T|]. split; [tauto|]. split; [|congruence].
    intros _. exists (tr0 ++ [Call Commit; Log Committed]).
    split; [now rewrite <- app_assoc|]. split; not_among F.
  - exists (Call Connect :: tr0 ++ tc
              ++ Log (InsertFailed e) :: Call Rollback :: tb
              ++ [Call Close]).
    split; [exact T|]. split; [tauto|]. split; [|congruence].
    intros _.
    exists (tr0 ++ tc ++ Log (InsertFailed e) :: Call Rollback :: tb).
    split.
    { repeat (rewrite <- app_assoc || rewrite <- app_comm_cons).
      reflexivity. }
    destruct Tc as [-> | [-> _]], Tb as [-> | ->]; split; not_among F.
Qed.

Lemma connection_is_closed_witness :
  exists tr,
    trace (fst (run_on_empty_tables world_failing_rollback))
    = trace initial ++ tr.
Proof.
  destruct (connection_is_closed_once_opened world_failing_rollback
              (empty_frame core_cols) (empty_frame pricing_cols)
              (empty_frame vehicle_cols) (empty_frame specs_cols)
              (empty_frame appearance_cols) (empty_frame status_cols)
              initial _ _ (surjective_pairing _)) as (tr & T & _).
  exists tr. exact T.
Defined.

(** Commit or rollback, in any world.  The stage returns exactly when it
    has logged the commit, and then the commit was called.  It calls
    [Rollback] exactly when it raises with the connection open; a run
    that returns never rolls back.  A run that raises has logged the
    failure with the error it raises. *)
Theorem run_commits_or_rolls_back (w : world)
  (core pricing vehicle specs appearance status : DataFrame)
  (st st' : state) (r : result unit) :
  transacting w core pricing vehicle specs appearance status st = (st', r) ->
  exists tr,
    trace st' = trace st ++ tr
    /\ (r = Ok tt <-> In (Log Committed) tr)
    /\ (r = Ok tt -> In (Call Commit) tr)
    /\ (In (Call Rollback) tr <-> (exists e, r = Raise e) /\ conn st' = true)
    /\ (forall e, r = Raise e -> In (Log (InsertFailed e)) tr).
Proof.
  intros H. apply transacting_shape in H.
  destruct H as [(e & tg & G & -> & C & Tg & T)
                |(tr0 & G & C & F & [[-> T]|(e & tc & tb & -> & Tc & Tb & T)])].
  - exists (tg ++ [Log (InsertFailed e)]). split; [exact T|].
    split; [|split; [discriminate|split]].
    + split; [discriminate|].
      destruct Tg as [-> | ->]; simpl; intuition discriminate.
    + split; [|intros [_ C']; congruence].
      destruct Tg as [-> | ->]; simpl; intuition discriminate.
    + intros e' E. inversion E; subst. apply in_or_app. right. now left.
  - exists (Call Connect :: tr0 ++ [Call Commit; Log Committed; Call Close]).
    split; [exact T|]. split; [|split; [|split]].
    + split; [|reflexivity]. intros _. right. apply in_or_app. right.
      simpl. auto.
    + intros _. right. apply in_or_app. right. simpl. auto.
    + split; [|intros [[e E] _]; discriminate]. not_among F.
    + discriminate.
  - exists (Call Connect :: tr0 ++ tc
              ++ Log (InsertFailed e) :: Call Rollback :: tb
              ++ [Call Close]).
    split; [exact T|]. split; [|split; [discriminate|split]].
    + split; [discriminate|].
      destruct Tc as [-> | [-> _]], Tb as [-> | ->]; not_among F.
    + split; [eauto|]. intros _. right. apply in_or_app. right.
      apply in_or_app. right. simpl. auto.
    + intros e' E. inversion E; subst. right. apply in_or_app. right.
      apply in_or_app. right. now left.
Qed.

Lemma run_commits_or_rolls_back_witness :
  exists tr,
    trace (fst (run_on_empty_tables world_failing_rollback))
    = trace initial ++ tr
    /\ In (Call Rollback) tr.
Proof.
  destruct (run_commits_or_rolls_back world_failing_rollback
              (empty_frame core_cols) (empty_frame pricing_cols)
              (empty_frame vehicle_cols) (empty_frame specs_cols)
              (empty_frame appearance_cols) (empty_frame status_cols)
              initial _ _ (surjective_pairing _))
    as (tr & T & _ & _ & R & _).
  exists tr. split; [exact T|]. apply R.
  split; [exists commit_failed|]; reflexivity.
Defined.

(** ** Before the connection *)

Lemma lift_cases {A} (x : result A) (st st' : state) (r : result A) :
  lift x st = (st', r) -> st' = st /\ r = x.
Proof. unfold lift. intros H. now inversion H. Qed.

Lemma log_cases (x : log_record) (st st' : state) (r : result unit) :
  log x st = (st', r) ->
  r = Ok tt /\ trace st' = trace st ++ [Log x] /\ conn st' = conn st.
Proof. unfold log, emit. intros H. now inversion H. Qed.

Lemma read_csv_calls (w : world) (name : string) (st st' : state)
  (r : result DataFrame) :
  read_csv w name st = (st', r) ->
  calls_of (trace st') = calls_of (trace st).
Proof.
  unfold read_csv. destruct (dict_get CSV_FILES name) as [path|].
  - destruct (read_file w path) as [[df|e]|]; intros H.
    + cbv beta iota delta [bind lift log emit ret] in H.
      inversion H; subst. cbn [trace]. rewrite calls_of_app. simpl.
      now rewrite app_nil_r.
    + cbv beta iota delta [bind lift] in H. now inversion H.
    + now inversion H.
  - intros H. now inversion H.
Qed.

Lemma read_csv_returns (w : world) (name : string) (st st' : state)
  (df : DataFrame) :
  read_csv w name st = (st', Ok df) ->
  source w name = Some (Ok df)
  /\ exists path,
       dict_get CSV_FILES name = Some path
       /\ trace st' = trace st ++ [Log (Loaded name (n_rows df) path)].
Proof.
  unfold read_csv, source. destruct (dict_get CSV_FILES name) as [path|];
    [|discriminate].
  destruct (read_file w path) as [[df0|e]|]; intros H;
    cbv beta iota delta [bind lift log emit ret raise] in H;
    inversion H; subst. cbn [trace]. eauto.
Qed.

Lemma read_csv_raises (w : world) (name : string) (st st' : state)
  (e : exn) :
  read_csv w name st = (st', Raise e) ->
  st' = st
  /\ ((dict_get CSV_FILES name = None /\ exn_cls e = KeyError)
      \/ (source w name = None /\ exn_cls e = FileNotFoundError)
      \/ source w name = Some (Raise e)).
Proof.
  unfold read_csv, source. destruct (dict_get CSV_FILES name) as [path|].
  - destruct (read_file w path) as [[df0|e0]|]; intros H;
      cbv beta iota delta [bind lift log emit ret raise] in H;
      inversion H; subst; auto.
  - intros H. inversion H; subst. auto.
Qed.

Lemma validate_columns_raises (df : DataFrame) (required : list string)
  (name : string) (e : exn) :
  validate_columns df required name = Raise e -> exn_cls e = ValueError.
Proof.
  unfold validate_columns. destruct (filter _ required); [discriminate|].
  intros H. now inversion H.
Qed.

(** One step of [main] before the connection, in a run that went on to
    call the database. *)
Ltac preflight_step N :=
  match goal with
  | H : bind (read_csv ?w ?name) _ ?s = (_, _),
    C : calls_of (trace ?s) = [] |- _ =>
      let e := fresh "e" in
      let df := fresh "raw" in
      let s' := fresh "s" in
      let H1 := fresh "R" in
      apply bind_cases in H;
      destruct H as [(e & H & ->)|(df & s' & H1 & H)];
      [ apply read_csv_calls in H; congruence
      | let C' := fresh "C" in
        pose proof (read_csv_calls _ _ _ _ _ H1) as C';
        rewrite C in C'; clear C;
        apply read_csv_returns in H1; destruct H1 as [H1 _] ]
  | H : bind (lift ?x) _ ?s = (_, _),
    C : calls_of (trace ?s) = [] |- _ =>
      let e := fresh "e" in
      let a := fresh "a" in
      let s' := fresh "s" in
      let H1 := fresh "L" in
      apply bind_cases in H;
      destruct H as [(e & H & ->)|(a & s' & H1 & H)];
      [ apply lift_cases in H; destruct H as [-> _]; congruence
      | apply lift_cases in H1; destruct H1 as [-> H1]; symmetry in H1 ]
  end.

(** [main] calls the database only once the six files are read, their
    columns checked and the six tables cleaned: in a run that made any
    call, each cleaned table comes from its file through the check and
    its cleaner, the events before the summary record hold no call, and
    the first call, right after the summary record with the six row
    counts, is [psycopg2.connect]. *)
Theorem main_connects_only_after_preflight
  (parse_number : string -> option number) (float_repr : float64 -> string)
  (current_year : Z) (w : world) (st : state) (r : result unit) :
  main parse_number float_repr current_year w initial = (st, r) ->
  calls_of (trace st) <> [] ->
  exists core pricing vehicle specs appearance status pre rest,
    preflight w "core" ["listing_id"; "url"]
      (clean_core parse_number float_repr) core
    /\ preflight w "pricing" ["listing_id"]
         (clean_pricing parse_number current_year) pricing
    /\ preflight w "vehicle" ["listing_id"]
         (clean_vehicle parse_number float_repr) vehicle
    /\ preflight w "specs" ["listing_id"]
         (clean_specs parse_number float_repr) specs
    /\ preflight w "appearance" ["listing_id"]
         (clean_appearance parse_number float_repr) appearance
    /\ preflight w "status" ["listing_id"]
         (clean_status parse_number float_repr) status
    /\ calls_of pre = []
    /\ trace st
       = pre
         ++ Log (AfterCleaning (n_rows core) (n_rows pricing)
                   (n_rows vehicle) (n_rows specs) (n_rows appearance)
                   (n_rows status))
         :: Call Connect :: rest.
Proof.
  intros H N. unfold main in H.
  assert (C0 : calls_of (trace initial) = []) by reflexivity.
  do 18 preflight_step N.
  repeat match goal with u : unit |- _ => destruct u end.
  apply bind_cases in H.
  destruct H as [(e & H & ->)|(u & sl & Hl & H)];
    [apply log_cases in H; destruct H as [H _]; discriminate|].
  apply log_cases in Hl as (_ & Tl & _).
  match goal with
  | H : transacting _ ?c ?p ?v ?sp ?a ?t _ = _,
    C : calls_of (trace ?s0) = [] |- _ =>
      exists c, p, v, sp, a, t, (trace s0)
  end.
  apply transacting_shape in H.
  destruct H as [(e & tg & G & -> & _ & Tg & T)
                |(tr0 & G & _ & F & [[-> T]|(e & tc & tb & -> & _ & _ & T)])].
  - destruct Tg as [-> | ->].
    + exfalso. apply N. rewrite T, Tl, !calls_of_app. simpl.
      rewrite !app_nil_r. assumption.
    + exists [Log (InsertFailed e)].
      repeat (split; [eexists; repeat split; eassumption|]).
      split; [assumption|]. rewrite T, Tl, <- !app_assoc. reflexivity.
  - eexists.
    repeat (split; [eexists; repeat split; eassumption|]).
    split; [assumption|]. rewrite T, Tl, <- !app_assoc. reflexivity.
  - eexists.
    repeat (split; [eexists; repeat split; eassumption|]).
    split; [assumption|]. rewrite T, Tl, <- !app_assoc. reflexivity.
Qed.

Lemma main_connects_witness :
  exists core,
    preflight world_with_tables "core" ["listing_id"; "url"]
      (clean_core read_decimal print_decimal) core.
Proof.
  destruct (main_connects_only_after_preflight read_decimal print_decimal
              2026 world_with_tables (fst run_with_tables) (Ok tt)
              run_with_tables_returns)
    as (core & _ & _ & _ & _ & _ & _ & _ & P & _).
  - vm_compute. discriminate.
  - exists core. exact P.
Defined.

(** A read of [main] in a run whose files are there or not, and read
    well when there. *)
Ltac read_or_stop Hsrc :=
  match goal with
  | H : bind (read_csv ?w ?name) _ ?s = (_, _),
    C : calls_of (trace ?s) = [] |- _ =>
      let e := fresh "e" in
      let df := fresh "raw" in
      let s' := fresh "s" in
      let H1 := fresh "R" in
      let X := fresh "X" in
      apply bind_cases in H;
      destruct H as [(e & H & ->)|(df & s' & H1 & H)];
      [ pose proof (read_csv_calls _ _ _ _ _ H) as X; rewrite C in X;
        apply read_csv_raises in H;
        destruct H as [_ [[H _]|[[H E]|H]]];
        [ vm_compute in H; discriminate H
        | try (eexists; eexists; split; [reflexivity|]; split; assumption)
        | try (destruct (Hsrc name ltac:(unfold table_names; simpl; auto 10))
                 as [?|[? ?]]; congruence) ]
      | let C' := fresh "C" in
        let T := fresh "T" in
        pose proof (read_csv_calls _ _ _ _ _ H1) as C';
        rewrite C in C'; clear C;
        apply read_csv_returns in H1; destruct H1 as [H1 [? [_ T]]] ]
  end.

(** If one of the six files is not there, and the files that are there
    are read without error, [main] raises [FileNotFoundError] and has
    called nothing on the database. *)
Theorem missing_file_stops_before_connecting
  (parse_number : string -> option number) (float_repr : float64 -> string)
  (current_year : Z) (w : world) :
  (forall name, In name table_names ->
                source w name = None
                \/ exists raw, source w name = Some (Ok raw)) ->
  (exists name, In name table_names /\ source w name = None) ->
  exists st e,
    main parse_number float_repr current_year w initial = (st, Raise e)
    /\ exn_cls e = FileNotFoundError
    /\ calls_of (trace st) = [].
Proof.
  intros Hsrc (name & Hin & Hn).
  destruct (main parse_number float_repr current_year w initial)
    as [st r] eqn:H.
  unfold main in H.
  assert (C0 : calls_of (trace initial) = []) by reflexivity.
  do 6 (read_or_stop Hsrc).
  exfalso. unfold table_names in Hin. simpl in Hin.
  repeat (destruct Hin as [<-|Hin]; [congruence|]). contradiction.
Qed.

Lemma missing_file_witness :
  exists st e,
    main read_decimal print_decimal 2026 world_without_database initial
    = (st, Raise e)
    /\ exn_cls e = FileNotFoundError
    /\ calls_of (trace st) = [].
Proof.
  apply missing_file_stops_before_connecting.
  - intros name _. left. unfold source.
    destruct (dict_get CSV_FILES name); reflexivity.
  - exists "core". split; [now left | reflexivity].
Defined.

(** A read of [main] in a run whose six files are there and read well. *)
Ltac read_on Hsrc :=
  match goal with
  | H : bind (read_csv ?w ?name) _ ?s = (_, _) |- _ =>
      let e := fresh "e" in
      let df := fresh "raw" in
      let s' := fresh "s" in
      let H1 := fresh "R" in
      apply bind_cases in H;
      destruct H as [(e & H & ->)|(df & s' & H1 & H)];
      [ exfalso; apply read_csv_raises in H;
        destruct H as [_ [[H _]|[[H _]|H]]];
        [ vm_compute in H; discriminate H
        | destruct (Hsrc name ltac:(unfold table_names; simpl; auto 10))
            as [? ?]; congruence
        | destruct (Hsrc name ltac:(unfold table_names; simpl; auto 10))
            as [? ?]; congruence ]
      | let T := fresh "T" in
        let P := fresh "P" in
        apply read_csv_returns in H1; destruct H1 as [H1 [? [P T]]];
        vm_compute in P; injection P as <- ]
  end.

Ltac check_or_stop :=
  match goal with
  | H : bind (lift (validate_columns ?df ?req ?name)) _ ?s = (_, _) |- _ =>
      let e := fresh "e" in
      let a := fresh "a" in
      let s' := fresh "s" in
      let H1 := fresh "V" in
      apply bind_cases in H;
      destruct H as [(e & H & ->)|(a & s' & H1 & H)];
      [ apply lift_cases in H; destruct H as [-> H]; symmetry in H;
        apply validate_columns_raises in H
      | apply lift_cases in H1; destruct H1 as [-> H1]; symmetry in H1;
        destruct a ]
  end.

(** If the six files are there and read well, and one of the tables
    lacks a column [validate_columns] is asked for, [main] raises
    [ValueError] once the six files are read: the run is the six
    records of [read_csv], one for each file in the order of the reads,
    each with the name, the number of rows and the path of its file, and
    nothing else; nothing is called on the database. *)
Theorem missing_column_stops_before_connecting
  (parse_number : string -> option number) (float_repr : float64 -> string)
  (current_year : Z) (w : world) :
  (forall name, In name table_names ->
                exists raw, source w name = Some (Ok raw)) ->
  (exists name required clean raw,
     In (name, required, clean)
        (tables parse_number float_repr current_year)
     /\ source w name = Some (Ok raw)
     /\ validate_columns raw required name <> Ok tt) ->
  exists st e,
    main parse_number float_repr current_year w initial = (st, Raise e)
    /\ exn_cls e = ValueError
    /\ calls_of (trace st) = []
    /\ exists core pricing vehicle specs appearance status,
         source w "core" = Some (Ok core)
         /\ source w "pricing" = Some (Ok pricing)
         /\ source w "vehicle" = Some (Ok vehicle)
         /\ source w "specs" = Some (Ok specs)
         /\ source w "appearance" = Some (Ok appearance)
         /\ source w "status" = Some (Ok status)
         /\ trace st
            = [loaded "core" core; loaded "pricing" pricing;
               loaded "vehicle" vehicle; loaded "specs" specs;
               loaded "appearance" appearance; loaded "status" status].
Proof.
  intros Hsrc (name & required & clean & raw & Hin & Hs & Hv).
  destruct (main parse_number float_repr current_year w initial)
    as [st r] eqn:H.
  unfold main in H.
  do 6 (read_on Hsrc).
  assert (T6 : trace s4
               = [loaded "core" raw0; loaded "pricing" raw1;
                  loaded "vehicle" raw2; loaded "specs" raw3;
                  loaded "appearance" raw4; loaded "status" raw5]).
  { repeat match goal with
           | T : trace ?s = _ |- context [trace ?s] => rewrite T
           end.
    reflexivity. }
  do 6 (check_or_stop;
        [ eexists; eexists; split; [reflexivity|]; split; [assumption|];
          rewrite T6; split; [reflexivity|];
          exists raw0, raw1, raw2, raw3, raw4, raw5; auto 10 | ]).
  exfalso. unfold tables in Hin. simpl in Hin.
  repeat (destruct Hin as [E|Hin];
          [ inversion E; subst; clear E;
            match goal with
            | S1 : source w ?n = Some (Ok raw),
              S2 : source w ?n = Some (Ok ?raw') |- _ =>
                assert (raw = raw') by congruence; subst
            end; contradiction
          | ]).
  contradiction.
Qed.

Lemma missing_column_witness :
  exists st e,
    main read_decimal print_decimal 2026 world_without_url initial
    = (st, Raise e)
    /\ exn_cls e = ValueError
    /\ calls_of (trace st) = []
    /\ List.length (trace st) = 6%nat.
Proof.
  destruct (missing_column_stops_before_connecting read_decimal
              print_decimal 2026 world_without_url)
    as (st & e & H & V & C & T);
    [| |exists st, e; repeat split; auto;
        destruct T as (a & b & c & d & f & g & T); 
        now rewrite (proj2 (proj2 (proj2 (proj2 (proj2 (proj2 T))))))].
  - intros name Hin. unfold table_names in Hin. simpl in Hin.
    repeat (destruct Hin as [<-|Hin]; [eexists; reflexivity|]).
    contradiction.
  - exists "core", ["listing_id"; "url"],
      (clean_core read_decimal print_decimal), core_without_url.
    split; [now left|]. split; [reflexivity|].
    vm_compute. discriminate.
Defined.

(** ** A database that accepts every call *)

Lemma raises_only_bind {A B} (Q : exn -> Prop) (m : M A) (k : A -> M B) :
  raises_only Q m -> (forall a, raises_only Q (k a)) ->
  raises_only Q (bind m k).
Proof.
  intros Rm Rk st st' e H.
  apply bind_cases in H as [(e' & H & E)|(a & st1 & _ & H)].
  - inversion E; subst. eauto.
  - eapply Rk; eauto.
Qed.

Lemma raises_only_lift {A} (Q : exn -> Prop) (x : result A) :
  (forall e, x = Raise e -> Q e) -> raises_only Q (lift x).
Proof. intros H st st' e L. apply lift_cases in L as [_ L]. auto. Qed.

Lemma raises_only_log (Q : exn -> Prop) (x : log_record) :
  raises_only Q (log x).
Proof. intros st st' e H. apply log_cases in H as [H _]. discriminate. Qed.

Lemma raises_only_set (Q : exn -> Prop) (b : bool) :
  raises_only Q (set_conn_var b).
Proof. intros st st' e H. discriminate. Qed.

Lemma raises_only_try_finally {A} (Q : exn -> Prop) (m : M A) (fin : M unit) :
  raises_only Q m -> raises_only (fun _ => False) fin ->
  raises_only Q (try_finally m fin).
Proof.
  intros Rm Rf st st' e H. unfold try_finally in H.
  destruct (m st) as [st1 r1] eqn:M1.
  destruct (fin st1) as [st2 [u|e2]] eqn:M2.
  - inversion H; subst. eauto.
  - destruct (Rf _ _ _ M2).
Qed.

Lemma raises_only_for_each {A} (Q : exn -> Prop) (l : list A)
  (body : A -> M unit) :
  (forall x, raises_only Q (body x)) -> raises_only Q (for_each l body).
Proof.
  intros Rb. induction l as [|x l IH]; simpl.
  - intros st st' e H. discriminate.
  - apply raises_only_bind; auto.
Qed.

Section Accepting.

Variable w : world.
Hypothesis accepts : forall tr c, db w tr c = None.

Lemma raises_only_call (Q : exn -> Prop) (c : db_call) :
  raises_only Q (call w c).
Proof.
  intros st st' e H. unfold call in H. rewrite accepts in H. discriminate.
Qed.

Lemma insert_batches_accepted (Q : exn -> Prop) table cols rows :
  raises_only Q (insert_batches w table cols rows).
Proof.
  unfold insert_batches. destruct rows as [|row rows].
  - apply raises_only_log.
  - apply raises_only_for_each. intros s.
    apply raises_only_bind; [apply raises_only_call|].
    intros _. apply raises_only_log.
Qed.

Lemma load_accepted tables table cols df :
  In (table, cols, df) tables ->
  raises_only
    (fun e => exists t c d, In (t, c, d) tables
                            /\ rows_as_tuples d c = Raise e)
    (load w table cols df).
Proof.
  intros Hin. unfold load. apply raises_only_bind.
  - apply raises_only_lift. intros e E. eauto 6.
  - intros rows. apply insert_batches_accepted.
Qed.

Lemma loads_accepted core pricing vehicle specs appearance status :
  raises_only
    (fun e => exists t c d,
                In (t, c, d)
                   (loadings core pricing vehicle specs appearance status)
                /\ rows_as_tuples d c = Raise e)
    (loads w core pricing vehicle specs appearance status).
Proof.
  unfold loads.
  repeat (apply raises_only_bind;
          [apply load_accepted; unfold loadings; simpl; auto 10 | intros _]).
  apply load_accepted. unfold loadings. simpl. auto 10.
Qed.

Lemma transacting_body_accepted
  core pricing vehicle specs appearance status :
  (forall k, In k required_env -> is_set w k) ->
  raises_only
    (fun e => exists t c d,
                In (t, c, d)
                   (loadings core pricing vehicle specs appearance status)
                /\ rows_as_tuples d c = Raise e)
    (transacting_body w core pricing vehicle specs appearance status).
Proof.
  intros E. unfold transacting_body.
  apply raises_only_bind.
  { intros st st' e H. rewrite (get_conn_set w st E) in H.
    eapply raises_only_call; eauto. }
  intros _. apply raises_only_bind; [apply raises_only_set|].
  intros _. apply raises_only_bind; [apply raises_only_call|].
  intros _. apply raises_only_bind; [apply raises_only_call|].
  intros _. apply raises_only_bind.
  { apply raises_only_try_finally;
      [apply loads_accepted | apply raises_only_call]. }
  intros _. apply raises_only_bind; [apply raises_only_call|].
  intros _. apply raises_only_log.
Qed.

End Accepting.

(** The stage returns or raises as the body of its [try] does. *)
Lemma transacting_result (w : world)
  core pricing vehicle specs appearance status (st st' : state)
  (r : result unit) :
  transacting w core pricing vehicle specs appearance status st = (st', r) ->
  exists st1,
    transacting_body w core pricing vehicle specs appearance status
      (mk_state (trace st) false) = (st1, r).
Proof.
  intros H.
  cbv beta iota delta [transacting bind set_conn_var try_finally try_except]
    in H.
  destruct (transacting_body w core pricing vehicle specs appearance status
              {| trace := trace st; conn := false |}) as [st1 [[]|e]] eqn:B.
  - exists st1. f_equal.
    cbv beta iota delta [release bind get_conn_var suppress try_except
                           call ret] in H.
    destruct (conn st1); [destruct (db w (trace st1) Close)|];
      now inversion H.
  - exists st1. f_equal.
    cbv beta iota delta [on_failure release bind log emit get_conn_var
                           suppress try_except call ret raise] in H.
    cbn [trace conn] in H.
    destruct (conn st1); cbn [trace conn] in H.
    + destruct (db w (trace st1 ++ [Log (InsertFailed e)]) Rollback);
        cbn [trace conn] in H;
        match type of H with
        | context [db w ?t Close] => destruct (db w t Close)
        end; now inversion H.
    + now inversion H.
Qed.

(** With the four variables set and a database that accepts every call,
    the Transacting stage returns exactly when each cleaned table has
    every column its load sends.  When a table lacks one, which
    [validate_columns] does not check beyond [listing_id] and [url], the
    stage raises [KeyError] from inside the transaction: the connection
    is open by then, the commit is never called, and the rollback is. *)
Theorem absent_column_fails_inside_transaction (w : world)
  (core pricing vehicle specs appearance status : DataFrame)
  (st st' : state) (r : result unit) :
  (forall tr c, db w tr c = None) ->
  (forall k, In k required_env -> is_set w k) ->
  transacting w core pricing vehicle specs appearance status st = (st', r) ->
  (r = Ok tt
   <-> forall table cols df name,
         In (table, cols, df)
            (loadings core pricing vehicle specs appearance status) ->
         In name cols -> has_column df name = true)
  /\ (forall e,
        r = Raise e ->
        exn_cls e = KeyError
        /\ exists tr,
             trace st' = trace st ++ tr
             /\ In (Call Connect) tr
             /\ In (Call Rollback) tr
             /\ ~ In (Call Commit) tr).
Proof.
  intros Hdb Henv H.
  assert (Q : forall e, r = Raise e ->
                exists t c d,
                  In (t, c, d)
                     (loadings core pricing vehicle specs appearance status)
                  /\ rows_as_tuples d c = Raise e).
  { intros e ->. destruct (transacting_result _ _ _ _ _ _ _ _ _ _ H)
      as [st1 B].
    eapply transacting_body_accepted; eauto. }
  split; [split|].
  - intros ->. apply transacting_ok in H
      as (rc & rp & rv & rs & ra & rt & Hc & Hp & Hv & Hs & Ha & Ht & _).
    intros table cols df name Hin Hn. unfold loadings in Hin. simpl in Hin.
    repeat (destruct Hin as [E|Hin];
            [ inversion E; subst; clear E;
              eapply rows_as_tuples_has_columns; eauto | ]).
    contradiction.
  - intros Hcols. destruct r as [[]|e]; [reflexivity|].
    destruct (Q e eq_refl) as (t & c & d & Hin & R).
    destruct (rows_as_tuples_returns d c) as [rows R'].
    + intros name Hn. eapply Hcols; eauto.
    + congruence.
  - intros e ->. destruct (Q e eq_refl) as (t & c & d & Hin & R).
    split; [now apply rows_as_tuples_raises in R|].
    apply transacting_shape in H.
    destruct H as [(e' & tg & G & _ & _ & _ & _)
                  |(tr0 & _ & _ & F
                    & [[E _]|(e' & tc & tb & _ & Tc & Tb & T)])].
    + exfalso. destruct (call w Connect {| trace := trace st; conn := false |})
        as [s x] eqn:Cc.
      unfold call in Cc. rewrite Hdb in Cc. inversion Cc; subst.
      eapply G. rewrite (get_conn_set w _ Henv). unfold call.
      rewrite Hdb. reflexivity.
    + discriminate.
    + destruct Tc as [->|[_ Dc]]; [|rewrite Hdb in Dc; discriminate].
      eexists. split; [exact T|]. split; [now left|]. split.
      * right. apply in_or_app. right. simpl. auto.
      * destruct Tb as [-> | ->]; not_among F.
Qed.

Lemma absent_column_fails_witness :
  exists e,
    snd (transacting world_accepting
           (empty_frame core_cols) (empty_frame pricing_cols)
           (empty_frame vehicle_cols) (empty_frame specs_cols)
           (empty_frame appearance_cols) (empty_frame ["listing_id"])
           initial) = Raise e
    /\ exn_cls e = KeyError.
Proof.
  destruct (transacting world_accepting
              (empty_frame core_cols) (empty_frame pricing_cols)
              (empty_frame vehicle_cols) (empty_frame specs_cols)
              (empty_frame appearance_cols) (empty_frame ["listing_id"])
              initial) as [st' r] eqn:H.
  assert (E : forall k, In k required_env -> is_set world_accepting k).
  { intros k _. exists "set". split; [reflexivity | discriminate]. }
  destruct (absent_column_fails_inside_transaction world_accepting
              _ _ _ _ _ _ initial st' r (fun _ _ => eq_refl) E H) as [_ K].
  vm_compute in H. inversion H; subst.
  eexists. split; [reflexivity|]. eapply K. reflexivity.
Defined.
